(** * YEH (YpsilonEventHandler): closest-match dispatch, distance cache,
      registry, teardown and rate limiters

    A shallow embedding of [class YEH] (yeh.js) and the properties of its
    resolution engine.  Every definition below follows one method of the
    class and keeps its name. *)

From Stdlib Require Import ZArith Ascii String.
From stdpp Require Import base decidable option numbers list strings gmap pretty.

Local Open Scope string_scope.
Local Open Scope nat_scope.
Local Open Scope list_scope.

(** ** The DOM as the code sees it *)

(** A DOM node is identified by what it is and where it hangs: an element
    carries its [tagName], [id] and [className], its position among the
    element children of its parent ([Array.from(parentNode.children)
    .indexOf(element)]) and its [parentNode].  [Orphan] is an element whose
    [parentNode] is [null] (the root of a detached subtree); the parent of
    [Document] is [null] as well.  JavaScript's [===] on nodes is equality
    of these values. *)
Inductive Node : Type :=
| Document
| Element (tagName id className : string) (index : nat) (parent : Node)
| Orphan (tagName id className : string).

(** What a listener can be attached to ([getElements] yields [document],
    [window] or elements). *)
Inductive EventTarget : Type :=
| window
| node (n : Node).

Abbreviation document := (node Document).

#[global] Instance Node_eq_dec : EqDecision Node.
Proof. solve_decision. Defined.

#[global] Instance EventTarget_eq_dec : EqDecision EventTarget.
Proof. solve_decision. Defined.

Definition parentNode (n : Node) : option Node :=
  match n with
  | Element _ _ _ _ p => Some p
  | Document | Orphan _ _ _ => None
  end.

(** [Node.prototype.contains]: [other] is [container] or one of its
    descendants. *)
Fixpoint contains (container other : Node) : bool :=
  if decide (other = container) then true
  else match other with
       | Element _ _ _ _ p => contains container p
       | Document | Orphan _ _ _ => false
       end.

(** [k] applications of [parentNode]. *)
Fixpoint ancestor (k : nat) (n : Node) : option Node :=
  match k with
  | 0 => Some n
  | S k' => match parentNode n with
            | Some p => ancestor k' p
            | None => None
            end
  end.

(** Number of [parentNode] steps to the top of a node's tree. *)
Fixpoint depth (n : Node) : nat :=
  match n with
  | Element _ _ _ _ p => S (depth p)
  | Document | Orphan _ _ _ => 0
  end.

(** ** Distances *)

(** A JavaScript number as [handleEvent] uses it: a hop count, the constant
    1000, or [Infinity]. *)
Inductive Distance : Type :=
| Fin (n : nat)
| Infinity.

#[global] Instance Distance_eq_dec : EqDecision Distance.
Proof. solve_decision. Defined.

(** [a < b] on such numbers. *)
Definition Distance_ltb (a b : Distance) : bool :=
  match a, b with
  | Fin x, Fin y => x <? y
  | Fin _, Infinity => true
  | Infinity, _ => false
  end.

(** The loop of [calculateDOMDistance]:
    [while (current && current !== container)
       { current = current.parentNode; distance++; }]. *)
Fixpoint climb (current container : Node) (distance : nat) : nat :=
  if decide (current = container) then distance
  else match current with
       | Element _ _ _ _ p => climb p container (S distance)
       | Document | Orphan _ _ _ => S distance
       end.

Definition calculateDOMDistance (target : Node) (container : EventTarget)
  : Distance :=
  match container with
  | window => Fin 1000
  | node c =>
      if decide (c = Document) then Fin 1000
      else if negb (contains c target) then Infinity
      else Fin (climb target c 0)
  end.

(** ** Cache keys *)

(** [toLowerCase] on the letters a tag name is made of. *)
Definition lowerAscii (c : ascii) : ascii :=
  let n := Ascii.nat_of_ascii c in
  if (65 <=? n) && (n <=? 90) then Ascii.ascii_of_nat (n + 32) else c.

Fixpoint toLowerCase (s : string) : string :=
  match s with
  | EmptyString => EmptyString
  | String c r => String (lowerAscii c) (toLowerCase r)
  end.

(** [s.split(' ').join('.')]: every space becomes a dot. *)
Fixpoint splitJoin (s : string) : string :=
  match s with
  | EmptyString => EmptyString
  | String c r =>
      String (if Ascii.eqb c " "%char then "."%char else c) (splitJoin r)
  end.

Definition isEmpty (s : string) : bool :=
  match s with EmptyString => true | _ => false end.

Definition elementKey (tagName id className : string) (index : nat) : string :=
  if isEmpty tagName then "unknown"
  else
    toLowerCase tagName
    +:+ (if isEmpty id then "" else "#" +:+ id)
    +:+ (if isEmpty className then "" else "." +:+ splitJoin className)
    +:+ "[" +:+ pretty index +:+ "]".

Definition getElementKey (element : EventTarget) : string :=
  match element with
  | node Document => "document"
  | window => "window"
  | node (Element tagName id className index _) =>
      elementKey tagName id className index
  | node (Orphan tagName id className) =>
      elementKey tagName id className 0
  end.

Definition cacheKey (target : Node) (container : EventTarget) : string :=
  getElementKey (node target) +:+ "-" +:+ getElementKey container.

(** [calculateDistanceWithCache], with [this.enableDistanceCache] and
    [this.distanceCache] passed in and the cache handed back. *)
Definition calculateDistanceWithCache
    (enableDistanceCache : bool) (distanceCache : gmap string Distance)
    (target : Node) (container : EventTarget)
  : Distance * gmap string Distance :=
  if negb enableDistanceCache then
    (calculateDOMDistance target container, distanceCache)
  else
    let key := cacheKey target container in
    match distanceCache !! key with
    | Some d => (d, distanceCache)
    | None =>
        let distance := calculateDOMDistance target container in
        (distance, <[key := distance]> distanceCache)
    end.

(** ** The host: timers, the object heap and DOM listeners *)

(** The wrapped function is opaque: running it is recorded as one entry of
    [executions] (time, function, arguments).  [F] names functions and [A]
    is their argument list. *)
Section RateLimiters.
Context {F A : Type}.

(** The object [{ timeout, lastArgs, trailingTimeout }] that
    [_throttleImplementation] stores under a key.  It is shared between
    the map and the closures of its timers, hence kept in a heap. *)
Record TimerData : Type := mkTimerData {
  timeout : nat;
  lastArgs : A;
  trailingTimeout : option nat
}.

(** The three closures handed to [setTimeout]. *)
Inductive Callback : Type :=
| DebounceElapsed (fn : F) (key : string) (args : A)
    (* () => { fn.apply(this, args); timers.delete(key); } *)
| CooldownExpired (key : string)
    (* () => { timers.delete(key) } *)
| TrailingEdge (fn : F) (key : string) (timerData : nat).
    (* () => { fn.apply(this, timerData.lastArgs); timers.delete(key); } *)

Record PendingTimer : Type := mkPendingTimer {
  timerId : nat;
  due : nat;
  callback : Callback
}.

(** Virtual time, the timer queue in creation order, the heap of
    [TimerData] objects and the log of executions. *)
Record Host : Type := mkHost {
  now : nat;
  nextTimerId : nat;
  pending : list PendingTimer;
  objects : gmap nat TimerData;
  nextObject : nat;
  executions : list (nat * F * A)
}.

(** Timer ids are positive, as in browsers, so that an id is truthy. *)
Definition freshHost : Host :=
  mkHost 0 1 [] ∅ 0 [].

Definition setTimeout (cb : Callback) (delay : nat) (h : Host) : nat * Host :=
  (nextTimerId h,
   mkHost (now h) (S (nextTimerId h))
          (pending h ++ [mkPendingTimer (nextTimerId h) (now h + delay) cb])
          (objects h) (nextObject h) (executions h)).

Definition clearTimeout (id : nat) (h : Host) : Host :=
  mkHost (now h) (nextTimerId h)
         (filter (λ t, timerId t ≠ id) (pending h))
         (objects h) (nextObject h) (executions h).

Definition applyFunction (fn : F) (args : A) (h : Host) : Host :=
  mkHost (now h) (nextTimerId h) (pending h) (objects h) (nextObject h)
         (executions h ++ [(now h, fn, args)]).

Definition allocate (o : TimerData) (h : Host) : nat * Host :=
  (nextObject h,
   mkHost (now h) (nextTimerId h) (pending h)
          (<[nextObject h := o]> (objects h)) (S (nextObject h))
          (executions h)).

Definition store (ref : nat) (o : TimerData) (h : Host) : Host :=
  mkHost (now h) (nextTimerId h) (pending h)
         (<[ref := o]> (objects h)) (nextObject h) (executions h).

(** The two [timers] maps of one scope (an instance, or the static one)
    together with the host. *)
Record RateState : Type := mkRateState {
  rs_throttleTimers : gmap string nat;
  rs_debounceTimers : gmap string nat;
  rs_host : Host
}.

Definition freshRateState : RateState := mkRateState ∅ ∅ freshHost.

(** The function returned by [_debounceImplementation(fn, delay, key,
    timers)], applied to [args]. *)
Definition _debounceImplementation
    (fn : F) (delay : nat) (key : string) (args : A) (s : RateState)
  : RateState :=
  let timers := rs_debounceTimers s in
  let h1 := match timers !! key with
            | Some id => clearTimeout id (rs_host s)
            | None => rs_host s
            end in
  let '(timerId, h2) := setTimeout (DebounceElapsed fn key args) delay h1 in
  mkRateState (rs_throttleTimers s) (<[key := timerId]> timers) h2.

(** [timers.get(key)], followed through the heap. *)
Definition lookupTimerData (timers : gmap string nat) (key : string)
    (h : Host) : option (nat * TimerData) :=
  match timers !! key with
  | Some ref => match objects h !! ref with
                | Some o => Some (ref, o)
                | None => None
                end
  | None => None
  end.

(** The function returned by [_throttleImplementation(fn, delay, key,
    timers)], applied to [args]. *)
Definition _throttleImplementation
    (fn : F) (delay : nat) (key : string) (args : A) (s : RateState)
  : RateState :=
  let timers := rs_throttleTimers s in
  let leading :=
    let h1 := applyFunction fn args (rs_host s) in
    let '(id, h2) := setTimeout (CooldownExpired key) delay h1 in
    let '(ref, h3) := allocate (mkTimerData id args None) h2 in
    mkRateState (<[key := ref]> timers) (rs_debounceTimers s) h3 in
  match lookupTimerData timers key (rs_host s) with
  | None => leading
  | Some (ref, timerData) =>
      if timeout timerData =? 0 then leading
      else
        let updated := mkTimerData (timeout timerData) args
                                   (trailingTimeout timerData) in
        let h1 := store ref updated (rs_host s) in
        let h2 := match trailingTimeout updated with
                  | Some t => clearTimeout t h1
                  | None => h1
                  end in
        let '(id, h3) := setTimeout (TrailingEdge fn key ref) delay h2 in
        let h4 := store ref (mkTimerData (timeout updated) (lastArgs updated)
                                         (Some id)) h3 in
        mkRateState timers (rs_debounceTimers s) h4
  end.

(** Running a timer's closure. *)
Definition fire (cb : Callback) (s : RateState) : RateState :=
  match cb with
  | DebounceElapsed fn key args =>
      mkRateState (rs_throttleTimers s) (delete key (rs_debounceTimers s))
                  (applyFunction fn args (rs_host s))
  | CooldownExpired key =>
      mkRateState (delete key (rs_throttleTimers s)) (rs_debounceTimers s)
                  (rs_host s)
  | TrailingEdge fn key ref =>
      match objects (rs_host s) !! ref with
      | Some timerData =>
          mkRateState (delete key (rs_throttleTimers s)) (rs_debounceTimers s)
                      (applyFunction fn (lastArgs timerData) (rs_host s))
      | None => s
      end
  end.

(** The timer the event loop runs next: the earliest due, and among
    equals the one created first. *)
Fixpoint earliest (ts : list PendingTimer) : option PendingTimer :=
  match ts with
  | [] => None
  | t :: rest =>
      match earliest rest with
      | Some t' => if due t' <? due t then Some t' else Some t
      | None => Some t
      end
  end.

Definition setNow (t : nat) (h : Host) : Host :=
  mkHost t (nextTimerId h) (pending h) (objects h) (nextObject h)
         (executions h).

Definition onHost (f : Host → Host) (s : RateState) : RateState :=
  mkRateState (rs_throttleTimers s) (rs_debounceTimers s) (f (rs_host s)).

(** The event loop up to time [t]: every timer due by then runs at its
    due time.  No closure of this program sets a timer, so one round per
    pending timer is enough ([advanceTo]). *)
Fixpoint runTimers (rounds : nat) (t : nat) (s : RateState) : RateState :=
  match rounds with
  | 0 => onHost (setNow (Nat.max t (now (rs_host s)))) s
  | S rounds' =>
      match earliest (pending (rs_host s)) with
      | Some tm =>
          if due tm <=? t then
            let s1 := onHost (setNow (Nat.max (due tm) (now (rs_host s)))) s in
            let s2 := onHost (clearTimeout (timerId tm)) s1 in
            runTimers rounds' t (fire (callback tm) s2)
          else onHost (setNow (Nat.max t (now (rs_host s)))) s
      | None => onHost (setNow (Nat.max t (now (rs_host s)))) s
      end
  end.

Definition advanceTo (t : nat) (s : RateState) : RateState :=
  runTimers (length (pending (rs_host s))) t s.

(** Let every pending timer run. *)
Definition drain (s : RateState) : RateState :=
  advanceTo (foldr Nat.max 0 (due <$> pending (rs_host s))) s.

(** A wrapped function called at the given times (in increasing order),
    then the queue left to run out.  A timer due at the time of a call
    runs before the call. *)
Definition simulate (wrapped : A → RateState → RateState)
    (calls : list (nat * A)) : RateState :=
  drain (foldl (λ s call, wrapped call.2 (advanceTo call.1 s))
               freshRateState calls).
End RateLimiters.

(** What a debounced function called at the given times is expected to
    run: a call runs, [delay] later, when no later call arrives before
    then. *)
Fixpoint debounceExpected {A : Type} (delay : nat) (calls : list (nat * A))
  : list (nat * A) :=
  match calls with
  | [] => []
  | (t, a) :: rest =>
      match rest with
      | [] => [(t + delay, a)]
      | (t', _) :: _ =>
          if t + delay <=? t' then (t + delay, a) :: debounceExpected delay rest
          else debounceExpected delay rest
      end
  end.

(** Calls arrive in time order. *)
Fixpoint inTimeOrder {A : Type} (calls : list (nat * A)) : Prop :=
  match calls with
  | [] => True
  | (t, _) :: rest =>
      match rest with
      | [] => True
      | (t', _) :: _ => t ≤ t' ∧ inTimeOrder rest
      end
  end.

Arguments TimerData : clear implicits.
Arguments Callback : clear implicits.
Arguments PendingTimer : clear implicits.
Arguments Host : clear implicits.
Arguments RateState : clear implicits.

(** Between two calls of a debounced function: one timer is pending,
    under [key], for the last call. *)
Definition awaiting {F A : Type} (fn : F) (delay : nat) (key : string)
    (s : RateState F A) (t : nat) (a : A) (log : list (nat * F * A)) : Prop :=
  ∃ id, now (rs_host s) = t
        ∧ pending (rs_host s)
          = [mkPendingTimer id (t + delay) (DebounceElapsed fn key a)]
        ∧ rs_debounceTimers s !! key = Some id
        ∧ executions (rs_host s) = log.

(** ** JavaScript values of the configuration *)

(** Validation only compares a number with 0 and tests its truthiness;
    finite numbers are kept as integers. *)
Inductive JSNumber : Type :=
| NaN
| Finite (z : Z)
| PositiveInfinity
| NegativeInfinity.

#[warnings="-register-all"]
Inductive JSValue : Type :=
| JSUndefined
| JSNull
| JSBoolean (b : bool)
| JSNumeric (n : JSNumber)
| JSString (s : string)
| JSArray (items : list JSValue)
| JSObject (properties : list (string * JSValue))
| JSFunction (name : string).

Definition typeof (v : JSValue) : string :=
  match v with
  | JSUndefined => "undefined"
  | JSNull | JSArray _ | JSObject _ => "object"
  | JSBoolean _ => "boolean"
  | JSNumeric _ => "number"
  | JSString _ => "string"
  | JSFunction _ => "function"
  end.

Definition numberTruthy (n : JSNumber) : bool :=
  match n with
  | NaN => false
  | Finite z => negb (z =? 0)%Z
  | PositiveInfinity | NegativeInfinity => true
  end.

Definition truthy (v : JSValue) : bool :=
  match v with
  | JSUndefined | JSNull => false
  | JSBoolean b => b
  | JSNumeric n => numberTruthy n
  | JSString s => negb (isEmpty s)
  | JSArray _ | JSObject _ | JSFunction _ => true
  end.

(** [n <= 0]; every comparison with [NaN] is false. *)
Definition lessOrEqualZero (n : JSNumber) : bool :=
  match n with
  | NaN | PositiveInfinity => false
  | Finite z => (z <=? 0)%Z
  | NegativeInfinity => true
  end.

(** Lookup in an insertion-ordered object. *)
Fixpoint objGet {V : Type} (o : list (string * V)) (k : string) : option V :=
  match o with
  | [] => None
  | (k', v) :: rest => if decide (k' = k) then Some v else objGet rest k
  end.

(** [o[k] = v]: in place when the property exists, appended otherwise. *)
Fixpoint objSet {V : Type} (o : list (string * V)) (k : string) (v : V)
  : list (string * V) :=
  match o with
  | [] => [(k, v)]
  | (k', v') :: rest =>
      if decide (k' = k) then (k, v) :: rest else (k', v') :: objSet rest k v
  end.

(** [delete o[k]]. *)
Definition objDelete {V : Type} (o : list (string * V)) (k : string)
  : list (string * V) :=
  filter (λ kv, kv.1 ≠ k) o.

(** [v.name] for the properties validation reads ([type], [throttle],
    [debounce], [handler]): an own property of an object, [undefined] on an
    array. *)
Definition getProperty (v : JSValue) (name : string) : JSValue :=
  match v with
  | JSObject properties => default JSUndefined (objGet properties name)
  | _ => JSUndefined
  end.

(** [Object.entries]. *)
Definition entries (v : JSValue) : list (string * JSValue) :=
  match v with
  | JSObject properties => properties
  | JSArray items => imap (λ i x, (pretty i, x)) items
  | _ => []
  end.

(** White space as [trim] sees it, on code units: tab to carriage return,
    space and the no-break space. *)
Definition isWhiteSpace (c : ascii) : bool :=
  let n := Ascii.nat_of_ascii c in
  ((9 <=? n) && (n <=? 13)) || (n =? 32) || (n =? 160).

(** ASCII white space, on which the DOM splits [className] into the tokens
    of [classList]: tab, line feed, form feed, carriage return and space. *)
Definition isAsciiWhitespace (c : ascii) : bool :=
  let n := Ascii.nat_of_ascii c in
  (n =? 9) || (n =? 10) || (n =? 12) || (n =? 13) || (n =? 32).

(** [!s.trim()]. *)
Fixpoint isBlank (s : string) : bool :=
  match s with
  | EmptyString => true
  | String c r => isWhiteSpace c && isBlank r
  end.

(** ** Configuration validation *)

(** One constructor per [throw new Error(...)] of the validators. *)
Inductive ConfigError : Type :=
| MappingNotObject
| SelectorNotString (selector : string)
| ConfigNotArray (selector : string)
| ConfigEmpty (selector : string)
| EventTypeEmpty (selector : string) (index : nat)
| EventConfigNotObject (selector : string) (index : nat)
| EventTypeInvalid (selector : string) (index : nat)
| ThrottleInvalid (selector : string) (index : nat)
| DebounceInvalid (selector : string) (index : nat)
| ThrottleAndDebounce (selector : string) (index : nat)
| HandlerNotString (selector : string) (index : nat)
| ActionableAttributesNotArray
| ActionableAttributesInvalid
| ActionableClassesNotArray
| ActionableClassesInvalid
| ActionableTagsNotArray
| ActionableTagsInvalid
| EnableActionableTargetsNotBoolean
| HandlerPrefixNotString.

Definition isString (v : JSValue) : bool :=
  match v with JSString _ => true | _ => false end.

Definition isUndefined (v : JSValue) : bool :=
  match v with JSUndefined => true | _ => false end.

(** [typeof v !== 'number' || v <= 0]. *)
Definition notPositiveNumber (v : JSValue) : bool :=
  match v with
  | JSNumeric n => lessOrEqualZero n
  | _ => true
  end.

(** The validators return [None] when they return normally and [Some e]
    when they throw [e]. *)
Definition validateEventConfig (selector : string) (eventConfig : JSValue)
    (index : nat) : option ConfigError :=
  match eventConfig with
  | JSString s =>
      if isBlank s then Some (EventTypeEmpty selector index) else None
  | _ =>
      if negb (truthy eventConfig)
         || negb (String.eqb (typeof eventConfig) "object")
      then Some (EventConfigNotObject selector index)
      else if negb (truthy (getProperty eventConfig "type"))
              || negb (isString (getProperty eventConfig "type"))
      then Some (EventTypeInvalid selector index)
      else if negb (isUndefined (getProperty eventConfig "throttle"))
              && notPositiveNumber (getProperty eventConfig "throttle")
      then Some (ThrottleInvalid selector index)
      else if negb (isUndefined (getProperty eventConfig "debounce"))
              && notPositiveNumber (getProperty eventConfig "debounce")
      then Some (DebounceInvalid selector index)
      else if truthy (getProperty eventConfig "throttle")
              && truthy (getProperty eventConfig "debounce")
      then Some (ThrottleAndDebounce selector index)
      else if negb (isUndefined (getProperty eventConfig "handler"))
              && negb (isString (getProperty eventConfig "handler"))
      then Some (HandlerNotString selector index)
      else None
  end.

(** [config.forEach((eventConfig, index) => validateEventConfig(...))]:
    the first throw ends the loop. *)
Fixpoint validateEach (selector : string) (config : list JSValue)
    (index : nat) : option ConfigError :=
  match config with
  | [] => None
  | eventConfig :: rest =>
      match validateEventConfig selector eventConfig index with
      | Some e => Some e
      | None => validateEach selector rest (S index)
      end
  end.

Definition validateSelectorConfig (selector : string) (config : JSValue)
  : option ConfigError :=
  if isEmpty selector then Some (SelectorNotString selector)
  else match config with
       | JSArray items =>
           match items with
           | [] => Some (ConfigEmpty selector)
           | _ => validateEach selector items 0
           end
       | _ => Some (ConfigNotArray selector)
       end.

Fixpoint validateSelectors (mapping : list (string * JSValue))
  : option ConfigError :=
  match mapping with
  | [] => None
  | (selector, config) :: rest =>
      match validateSelectorConfig selector config with
      | Some e => Some e
      | None => validateSelectors rest
      end
  end.

(** The three loops of [validateActionableConfig] share this shape. *)
Definition validateStringArray (v : JSValue) (notArray invalid : ConfigError)
  : option ConfigError :=
  match v with
  | JSUndefined => None
  | JSArray items =>
      if forallb (λ x, match x with
                       | JSString s => negb (isBlank s)
                       | _ => false
                       end) items
      then None else Some invalid
  | _ => Some notArray
  end.

(** A property of the external [methods] object: a function, or an
    event-scoped object whose listed properties are functions. *)
Inductive MethodsEntry : Type :=
| MethodFunction
| MethodScope (functions : list string).

(** The part of [this.config] the code reads, after the defaults were
    merged with the caller's [config]. *)
Record Config : Type := mkConfig {
  cfg_methods : list (string * MethodsEntry);
  cfg_enableGlobalFallback : bool;
  cfg_methodsFirst : bool;
  cfg_passiveEvents : option (list string);
  cfg_abortController : bool;
  cfg_autoTargetResolution : bool;
  cfg_targetResolutionEvents : option (list string);
  cfg_enableConfigValidation : bool;
  cfg_enableDistanceCache : bool;
  cfg_handlerPrefix : JSValue;
  cfg_actionableAttributes : JSValue;
  cfg_actionableClasses : JSValue;
  cfg_actionableTags : JSValue;
  cfg_enableActionableTargets : JSValue
}.

(** [config = {}]: the defaults. *)
Definition defaultConfig : Config :=
  mkConfig [] false false None false false None true true
           JSUndefined JSUndefined JSUndefined JSUndefined JSUndefined.

Definition orElse (a b : option ConfigError) : option ConfigError :=
  match a with Some e => Some e | None => b end.

Definition validateActionableConfig (config : Config) : option ConfigError :=
  orElse (validateStringArray (cfg_actionableAttributes config)
            ActionableAttributesNotArray ActionableAttributesInvalid)
 (orElse (validateStringArray (cfg_actionableClasses config)
            ActionableClassesNotArray ActionableClassesInvalid)
 (orElse (validateStringArray (cfg_actionableTags config)
            ActionableTagsNotArray ActionableTagsInvalid)
 (orElse (match cfg_enableActionableTargets config with
          | JSUndefined | JSBoolean _ => None
          | _ => Some EnableActionableTargetsNotBoolean
          end)
         (match cfg_handlerPrefix config with
          | JSUndefined | JSString _ => None
          | _ => Some HandlerPrefixNotString
          end)))).

Definition validateConfiguration (eventMapping : JSValue) (config : Config)
  : option ConfigError :=
  if negb (truthy eventMapping)
     || negb (String.eqb (typeof eventMapping) "object")
  then Some MappingNotObject
  else orElse (validateSelectors (entries eventMapping))
              (validateActionableConfig config).

(** ** What makes a configuration invalid *)

(** A number greater than 0. *)
Definition positiveNumber (v : JSValue) : Prop :=
  match v with
  | JSNumeric (Finite z) => (0 < z)%Z
  | JSNumeric PositiveInfinity => True
  | _ => False
  end.

(** A throttle or debounce value that is present but not a positive
    number. *)
Definition faultyRate (v : JSValue) : Prop :=
  v ≠ JSUndefined ∧ ¬ positiveNumber v.

(** A [type] that is a non-empty string. *)
Definition validType (v : JSValue) : Prop :=
  ∃ t, v = JSString t ∧ t ≠ "".

(** The faults of one entry of a selector's list that the specification
    names: no valid type, a bad throttle or debounce value, or both of
    them set. *)
Definition listedEntryFault (e : JSValue) : Prop :=
  match e with
  | JSString s => isBlank s = true
  | JSObject _ =>
      ¬ validType (getProperty e "type")
      ∨ faultyRate (getProperty e "throttle")
      ∨ faultyRate (getProperty e "debounce")
      ∨ (truthy (getProperty e "throttle") = true
         ∧ truthy (getProperty e "debounce") = true)
  | _ => True
  end.

(** The code has one more: a [handler] that is present but not a string. *)
Definition faultyHandler (e : JSValue) : Prop :=
  match e with
  | JSObject _ =>
      getProperty e "handler" ≠ JSUndefined
      ∧ isString (getProperty e "handler") = false
  | _ => False
  end.

Definition faultyEntry (e : JSValue) : Prop :=
  listedEntryFault e ∨ faultyHandler e.

(** A selector with its list: the selector is empty, the list is not an
    array or is empty, or an entry of it has fault [entryFault]. *)
Definition faultyConfig (entryFault : JSValue → Prop) (selector : string)
    (config : JSValue) : Prop :=
  selector = ""
  ∨ match config with
    | JSArray [] => True
    | JSArray items => ∃ e, e ∈ items ∧ entryFault e
    | _ => True
    end.

Definition faultyMapping (entryFault : JSValue → Prop) (mapping : JSValue)
  : Prop :=
  truthy mapping = false ∨ typeof mapping ≠ "object"
  ∨ ∃ selector config, (selector, config) ∈ entries mapping
                       ∧ faultyConfig entryFault selector config.

(** An array of non-blank strings, when given at all. *)
Definition faultyStringArray (v : JSValue) : Prop :=
  v ≠ JSUndefined
  ∧ ¬ ∃ items, v = JSArray items
               ∧ ∀ x, x ∈ items → ∃ s, x = JSString s ∧ isBlank s = false.

(** The faults of the remaining options that [validateActionableConfig]
    rejects. *)
Definition faultyOptions (config : Config) : Prop :=
  faultyStringArray (cfg_actionableAttributes config)
  ∨ faultyStringArray (cfg_actionableClasses config)
  ∨ faultyStringArray (cfg_actionableTags config)
  ∨ (cfg_enableActionableTargets config ≠ JSUndefined
     ∧ ∀ b, cfg_enableActionableTargets config ≠ JSBoolean b)
  ∨ (cfg_handlerPrefix config ≠ JSUndefined
     ∧ isString (cfg_handlerPrefix config) = false).

(** No throttle or debounce value of the mapping is [NaN]. *)
Definition ratesAreNumbers (mapping : JSValue) : Prop :=
  ∀ selector items e,
    (selector, JSArray items) ∈ entries mapping → e ∈ items →
    getProperty e "throttle" ≠ JSNumeric NaN
    ∧ getProperty e "debounce" ≠ JSNumeric NaN.

(** ** The instance *)

(** An event configuration as [registerEvents] and [addEvent] read it: a
    bare event type, or an object with [type] and optional [handler],
    [throttle], [debounce].  Configurations carrying their own [options]
    object are outside this model. *)
Record EventConfigObject : Type := mkEventConfigObject {
  ec_type : string;
  ec_handler : option string;
  ec_throttle : option JSNumber;
  ec_debounce : option JSNumber
}.

Inductive EventConfig : Type :=
| ConfigString (type : string)
| ConfigObject (o : EventConfigObject).

(** [typeof config === 'string' ? config : config.type]. *)
Definition configType (config : EventConfig) : string :=
  match config with
  | ConfigString type => type
  | ConfigObject o => ec_type o
  end.

(** The listener object given to [addEventListener]: the instance itself,
    or [{ handleEvent: this.throttle(...) }] / [{ handleEvent:
    this.debounce(...) }] with its delay and timer key. *)
Inductive Listener : Type :=
| ThisInstance
| Throttled (delay : JSNumber) (key : string)
| Debounced (delay : JSNumber) (key : string).

(** What [getEventOptions] returns: [false], or an object that has
    [passive: true] and/or [signal]. *)
Inductive ListenerOptions : Type :=
| OptionsFalse
| Options (passive signal : bool).

Definition hasSignal (o : ListenerOptions) : bool :=
  match o with
  | Options _ signal => signal
  | OptionsFalse => false
  end.

Record TrackedEvent : Type := mkTrackedEvent {
  te_type : string;
  te_handler : Listener;
  te_options : ListenerOptions
}.

Record ListenerEntry : Type := mkListenerEntry {
  le_element : EventTarget;
  le_events : list TrackedEvent
}.

(** An entry of [eventHandlerMap]: a registration. *)
Record HandlerInfo : Type := mkHandlerInfo {
  hi_element : EventTarget;
  hi_handler : string;
  hi_selector : string;
  hi_config : EventConfig
}.

Record ActionableConfig : Type := mkActionableConfig {
  ac_attributes : list string;
  ac_classes : list string;
  ac_tags : list string;
  ac_enabled : bool
}.

(** What [handleEvent] reads of an event: [event.type] and
    [event.target], a node of the page. *)
Record Event : Type := mkEvent {
  ev_type : string;
  ev_target : Node
}.

#[global] Instance JSNumber_eq_dec : EqDecision JSNumber.
Proof. solve_decision. Defined.
#[global] Instance EventConfigObject_eq_dec : EqDecision EventConfigObject.
Proof. solve_decision. Defined.
#[global] Instance EventConfig_eq_dec : EqDecision EventConfig.
Proof. solve_decision. Defined.
#[global] Instance Listener_eq_dec : EqDecision Listener.
Proof. solve_decision. Defined.
#[global] Instance ListenerOptions_eq_dec : EqDecision ListenerOptions.
Proof. solve_decision. Defined.
#[global] Instance HandlerInfo_eq_dec : EqDecision HandlerInfo.
Proof. solve_decision. Defined.

(** The fields of [this].  [eventMapping] and [aliases] are plain objects
    (insertion-ordered); [eventListeners], [eventHandlerMap],
    [distanceCache] and the two timer maps are [Map]s; [elementHandlers] is
    a [WeakMap] keyed by element.  [classMethods] lists the names [n] with
    [typeof this[n] === 'function'].  [handlerPrefix] holds what
    [registerEventListener] reads of the configured value: nothing when
    the value is falsy, else its text in the template literal. *)
Record YEH : Type := mkYEH {
  eventMapping : list (string * list EventConfig);
  aliases : list (string * list (string * string));
  methods : list (string * MethodsEntry);
  classMethods : list string;
  enableGlobalFallback : bool;
  methodsFirst : bool;
  eventListeners : gmap string ListenerEntry;
  elementHandlers : list (EventTarget * list TrackedEvent);
  eventHandlerMap : gmap string (list HandlerInfo);
  throttleTimers : gmap string nat;
  debounceTimers : gmap string nat;
  userHasInteracted : bool;
  passiveSupported : bool;
  passiveEvents : list string;
  handlerPrefix : option string;
  abortController : bool;
  autoTargetResolution : bool;
  targetResolutionEvents : list string;
  distanceCache : gmap string Distance;
  enableDistanceCache : bool;
  actionableConfig : ActionableConfig
}.

(** A listener attached to a DOM target. *)
Record DomListener : Type := mkDomListener {
  dl_target : EventTarget;
  dl_type : string;
  dl_listener : Listener;
  dl_options : ListenerOptions
}.

(** The browser around the instance: attached listeners and the timer
    host.  A throttled or debounced [handleEvent] takes the event as its
    argument. *)
Record Browser : Type := mkBrowser {
  listeners : list DomListener;
  host : Host unit Event
}.

Definition includes (l : list string) (s : string) : bool :=
  bool_decide (s ∈ l).

(** *** User interaction flag *)

Definition setUserHasInteracted (b : bool) (this : YEH) : YEH :=
  mkYEH (eventMapping this) (aliases this) (methods this) (classMethods this)
        (enableGlobalFallback this) (methodsFirst this) (eventListeners this)
        (elementHandlers this) (eventHandlerMap this) (throttleTimers this)
        (debounceTimers this) b (passiveSupported this) (passiveEvents this)
        (handlerPrefix this) (abortController this) (autoTargetResolution this)
        (targetResolutionEvents this) (distanceCache this)
        (enableDistanceCache this) (actionableConfig this).

Definition hasUserInteracted (this : YEH) : bool := userHasInteracted this.

Definition resetUserInteracted (this : YEH) : YEH :=
  setUserHasInteracted false this.

Definition checkUserInteraction (this : YEH) (event : Event) : YEH :=
  if negb (userHasInteracted this)
     && negb (includes (passiveEvents this) (ev_type event))
  then setUserHasInteracted true this
  else this.

Definition setDistanceCache (c : gmap string Distance) (this : YEH) : YEH :=
  mkYEH (eventMapping this) (aliases this) (methods this) (classMethods this)
        (enableGlobalFallback this) (methodsFirst this) (eventListeners this)
        (elementHandlers this) (eventHandlerMap this) (throttleTimers this)
        (debounceTimers this) (userHasInteracted this) (passiveSupported this)
        (passiveEvents this) (handlerPrefix this) (abortController this)
        (autoTargetResolution this) (targetResolutionEvents this) c
        (enableDistanceCache this) (actionableConfig this).

Definition clearDistanceCache (this : YEH) : YEH := setDistanceCache ∅ this.

(** *** Handler resolution *)

(** [(eventAliases && eventAliases[methodName]) || methodName]. *)
Definition resolveMethodName (this : YEH) (methodName eventType : string)
  : string :=
  match objGet (aliases this) eventType with
  | Some eventAliases =>
      match objGet eventAliases methodName with
      | Some name => if isEmpty name then methodName else name
      | None => methodName
      end
  | None => methodName
  end.

(** The function [resolveHandler] returns, by where it was found. *)
Inductive HandlerRef : Type :=
| ClassMethod (name : string)
| ScopedMethod (eventType name : string)
| GlobalMethod (name : string)
| WindowFunction (name : string).

Definition resolveInClass (this : YEH) (resolvedName : string)
  : option HandlerRef :=
  if includes (classMethods this) resolvedName
  then Some (ClassMethod resolvedName) else None.

Definition resolveInMethods (this : YEH) (resolvedName eventType : string)
  : option HandlerRef :=
  match objGet (methods this) eventType with
  | Some (MethodScope functions) =>
      if includes functions resolvedName
      then Some (ScopedMethod eventType resolvedName)
      else match objGet (methods this) resolvedName with
           | Some MethodFunction => Some (GlobalMethod resolvedName)
           | _ => None
           end
  | _ => match objGet (methods this) resolvedName with
         | Some MethodFunction => Some (GlobalMethod resolvedName)
         | _ => None
         end
  end.

Section Host.
(** What the page provides: [document.querySelectorAll], the functions
    on [window], [Element.prototype.hasAttribute] and
    [Element.prototype.closest]. *)
Variable querySelectorAll : string → list Node.
Variable windowFunctions : list string.
Variable hasAttribute : Node → string → bool.
Variable closest : Node → string → option Node.

Definition resolveInWindow (this : YEH) (resolvedName : string)
  : option HandlerRef :=
  if enableGlobalFallback this && includes windowFunctions resolvedName
  then Some (WindowFunction resolvedName) else None.

Definition firstSome {T : Type} (a b : option T) : option T :=
  match a with Some x => Some x | None => b end.

Definition resolveHandler (this : YEH) (handlerName eventType : string)
  : option HandlerRef :=
  let resolvedName := resolveMethodName this handlerName eventType in
  if methodsFirst this then
    firstSome (resolveInMethods this resolvedName eventType)
   (firstSome (resolveInClass this resolvedName)
              (resolveInWindow this resolvedName))
  else
    firstSome (resolveInClass this resolvedName)
   (firstSome (resolveInMethods this resolvedName eventType)
              (resolveInWindow this resolvedName)).

(** *** Target resolution *)

Definition upperAscii (c : ascii) : ascii :=
  let n := Ascii.nat_of_ascii c in
  if (97 <=? n) && (n <=? 122) then Ascii.ascii_of_nat (n - 32) else c.

(** The tokens of [className], as [classList] holds them: the maximal runs
    of code units that are no ASCII white space. *)
Fixpoint classTokens (s : string) (current : string) : list string :=
  match s with
  | EmptyString => if isEmpty current then [] else [current]
  | String c r =>
      if isAsciiWhitespace c
      then (if isEmpty current then classTokens r ""
            else current :: classTokens r "")
      else classTokens r (current +:+ String c EmptyString)
  end.

Definition tagNameOf (n : Node) : option string :=
  match n with
  | Element tagName _ _ _ _ | Orphan tagName _ _ => Some tagName
  | Document => None
  end.

Definition classNameOf (n : Node) : string :=
  match n with
  | Element _ _ className _ _ | Orphan _ _ className => className
  | Document => ""
  end.

Definition hasActionableAttribute (this : YEH) (n : Node) : bool :=
  existsb (hasAttribute n) (ac_attributes (actionableConfig this)).

Definition hasActionableClass (this : YEH) (n : Node) : bool :=
  existsb (includes (classTokens (classNameOf n) ""))
          (ac_classes (actionableConfig this)).

Definition hasActionableTag (this : YEH) (n : Node) : bool :=
  match tagNameOf n with
  | Some tagName => includes (ac_tags (actionableConfig this)) tagName
  | None => false
  end.

(** Where the loop of [findActionableTarget] stops. *)
Inductive WalkEnd : Type :=
| Found (n : Node)
| AtBoundary (n : Node)
| PastTheTop.

(** [while (current && current !== boundary && current !== document)
      { ...; current = current.parentElement; }] *)
Fixpoint actionableWalk (this : YEH) (boundary : EventTarget)
    (current : Node) : WalkEnd :=
  if decide (node current = boundary) then AtBoundary current
  else
    let here := hasActionableAttribute this current
                || hasActionableClass this current
                || hasActionableTag this current in
    match current with
    | Document => PastTheTop
    | Orphan _ _ _ => if here then Found current else PastTheTop
    | Element _ _ _ _ p =>
        if here then Found current
        else match p with
             | Document => PastTheTop
             | _ => actionableWalk this boundary p
             end
    end.

Inductive TargetResolution : Type :=
| ActionableTarget (n : Node)
| NoActionableTarget
| TargetTypeError.

(** On the boundary only attributes and classes count.  [document] has no
    [hasAttribute], so asking it for the first configured attribute
    throws. *)
Definition findActionableTarget (this : YEH) (target : Node)
    (boundary : EventTarget) : TargetResolution :=
  if negb (ac_enabled (actionableConfig this)) then ActionableTarget target
  else match actionableWalk this boundary target with
       | Found n => ActionableTarget n
       | PastTheTop => NoActionableTarget
       | AtBoundary Document =>
           match ac_attributes (actionableConfig this) with
           | [] => NoActionableTarget
           | _ :: _ => TargetTypeError
           end
       | AtBoundary b =>
           if hasActionableAttribute this b || hasActionableClass this b
           then ActionableTarget b else NoActionableTarget
       end.

(** [findClosest]: elements have a native [closest]; [document] has
    none and the fallback loop ends at once. *)
Definition findClosest (element : Node) (selector : string) : option Node :=
  match element with
  | Document => None
  | _ => closest element selector
  end.

(** *** Dispatch *)

(** One round of the loop of [handleEvent]; the accumulator is
    [closestHandler], [closestDistance] and the distance cache. *)
Definition closestStep (enable : bool) (target : Node)
    (acc : option HandlerInfo * Distance * gmap string Distance)
    (handlerInfo : HandlerInfo)
  : option HandlerInfo * Distance * gmap string Distance :=
  let '(closestHandler, closestDistance, cache) := acc in
  let '(distance, cache') :=
    calculateDistanceWithCache enable cache target (hi_element handlerInfo) in
  if bool_decide (distance ≠ Infinity) && Distance_ltb distance closestDistance
  then (Some handlerInfo, distance, cache')
  else (closestHandler, closestDistance, cache').

Definition findClosestHandler (enable : bool) (cache : gmap string Distance)
    (target : Node) (handlers : list HandlerInfo)
  : option HandlerInfo * Distance * gmap string Distance :=
  foldl (closestStep enable target) (None, Infinity, cache) handlers.

(** The distances the loop obtains for the candidates, in order, and the
    cache it leaves behind. *)
Fixpoint distancesSeen (enable : bool) (cache : gmap string Distance)
    (target : Node) (handlers : list HandlerInfo) : list Distance :=
  match handlers with
  | [] => []
  | h :: rest =>
      let '(d, cache') :=
        calculateDistanceWithCache enable cache target (hi_element h) in
      d :: distancesSeen enable cache' target rest
  end.

Fixpoint cacheAfter (enable : bool) (cache : gmap string Distance)
    (target : Node) (handlers : list HandlerInfo) : gmap string Distance :=
  match handlers with
  | [] => cache
  | h :: rest =>
      cacheAfter enable
        (calculateDistanceWithCache enable cache target (hi_element h)).2
        target rest
  end.

(** The cache tells the truth about the candidates of one dispatch: what
    it holds under a candidate's key is that candidate's distance, and
    candidates that share a key are at the same distance. *)
Definition cacheFaithful (cache : gmap string Distance) (target : Node)
    (handlers : list HandlerInfo) : Prop :=
  (∀ h d, h ∈ handlers →
          cache !! cacheKey target (hi_element h) = Some d →
          d = calculateDOMDistance target (hi_element h))
  ∧ ∀ h1 h2, h1 ∈ handlers → h2 ∈ handlers →
             cacheKey target (hi_element h1) = cacheKey target (hi_element h2) →
             calculateDOMDistance target (hi_element h1)
             = calculateDOMDistance target (hi_element h2).

(** The comparison of the loop on a candidate whose distance is known. *)
Definition keepCloser (acc : option HandlerInfo * Distance)
    (candidate : HandlerInfo * Distance) : option HandlerInfo * Distance :=
  if bool_decide (candidate.2 ≠ Infinity) && Distance_ltb candidate.2 acc.2
  then (Some candidate.1, candidate.2) else acc.

(** [i] is the first position of the least finite distance of [l]. *)
Definition firstLeast (l : list (HandlerInfo * Distance)) (i : nat)
    (h : HandlerInfo) (m : nat) : Prop :=
  l !! i = Some (h, Fin m)
  ∧ ∀ j h' d, l !! j = Some (h', d) →
              d = Infinity ∨ ∃ m', d = Fin m' ∧ m ≤ m' ∧ (j < i → m < m').

(** What one call of [handleEvent] did.  What the invoked handler itself
    does is its own business and not part of the result. *)
Inductive Outcome : Type :=
| NoCandidates
| NoneReachable
| HandlerMissing (registration : HandlerInfo)
| Blocked (registration : HandlerInfo)
| Threw (registration : HandlerInfo)
| Invoked (registration : HandlerInfo) (handler : HandlerRef)
          (resolvedTarget : Node) (actualClosestElement : option Node).

Definition handleEvent (this : YEH) (event : Event) : YEH * Outcome :=
  match eventHandlerMap this !! ev_type event with
  | None | Some [] => (this, NoCandidates)
  | Some handlers =>
      let this1 := checkUserInteraction this event in
      let '(closestHandler, _, cache) :=
        findClosestHandler (enableDistanceCache this1) (distanceCache this1)
                           (ev_target event) handlers in
      let this2 := setDistanceCache cache this1 in
      match closestHandler with
      | None => (this2, NoneReachable)
      | Some registration =>
          match resolveHandler this2 (hi_handler registration)
                               (ev_type event) with
          | None => (this2, HandlerMissing registration)
          | Some handler =>
              let actualClosestElement :=
                findClosest (ev_target event) (hi_selector registration) in
              if autoTargetResolution this2
                 && includes (targetResolutionEvents this2) (ev_type event)
              then
                match findActionableTarget this2 (ev_target event)
                                           (hi_element registration) with
                | ActionableTarget t =>
                    (this2, Invoked registration handler t
                                    actualClosestElement)
                | NoActionableTarget =>
                    if ac_enabled (actionableConfig this2)
                    then (this2, Blocked registration)
                    else (this2, Invoked registration handler
                                         (ev_target event)
                                         actualClosestElement)
                | TargetTypeError => (this2, Threw registration)
                end
              else (this2, Invoked registration handler (ev_target event)
                                   actualClosestElement)
          end
      end
  end.

(** The registration [handleEvent] settled on, if any. *)
Definition selected (o : Outcome) : option HandlerInfo :=
  match o with
  | NoCandidates | NoneReachable => None
  | HandlerMissing r | Blocked r | Threw r | Invoked r _ _ _ => Some r
  end.

Definition invoked (o : Outcome) : bool :=
  match o with Invoked _ _ _ _ => true | _ => false end.
End Host.

(** *** Field updates *)

Definition setEventMapping (v : list (string * list EventConfig)) (this : YEH) : YEH :=
  mkYEH v (aliases this) (methods this) (classMethods this)
        (enableGlobalFallback this) (methodsFirst this) (eventListeners this)
        (elementHandlers this) (eventHandlerMap this) (throttleTimers this)
        (debounceTimers this) (userHasInteracted this) (passiveSupported this)
        (passiveEvents this) (handlerPrefix this) (abortController this)
        (autoTargetResolution this) (targetResolutionEvents this)
        (distanceCache this) (enableDistanceCache this) (actionableConfig this).

Definition setEventListeners (v : gmap string ListenerEntry) (this : YEH) : YEH :=
  mkYEH (eventMapping this) (aliases this) (methods this)
        (classMethods this) (enableGlobalFallback this) (methodsFirst this) v
        (elementHandlers this) (eventHandlerMap this) (throttleTimers this)
        (debounceTimers this) (userHasInteracted this) (passiveSupported this)
        (passiveEvents this) (handlerPrefix this) (abortController this)
        (autoTargetResolution this) (targetResolutionEvents this)
        (distanceCache this) (enableDistanceCache this) (actionableConfig this).

Definition setElementHandlers (v : list (EventTarget * list TrackedEvent)) (this : YEH) : YEH :=
  mkYEH (eventMapping this) (aliases this) (methods this)
        (classMethods this) (enableGlobalFallback this) (methodsFirst this)
        (eventListeners this) v (eventHandlerMap this) (throttleTimers this)
        (debounceTimers this) (userHasInteracted this) (passiveSupported this)
        (passiveEvents this) (handlerPrefix this) (abortController this)
        (autoTargetResolution this) (targetResolutionEvents this)
        (distanceCache this) (enableDistanceCache this) (actionableConfig this).

Definition setEventHandlerMap (v : gmap string (list HandlerInfo)) (this : YEH) : YEH :=
  mkYEH (eventMapping this) (aliases this) (methods this)
        (classMethods this) (enableGlobalFallback this) (methodsFirst this)
        (eventListeners this) (elementHandlers this) v (throttleTimers this)
        (debounceTimers this) (userHasInteracted this) (passiveSupported this)
        (passiveEvents this) (handlerPrefix this) (abortController this)
        (autoTargetResolution this) (targetResolutionEvents this)
        (distanceCache this) (enableDistanceCache this) (actionableConfig this).

Definition setThrottleTimers (v : gmap string nat) (this : YEH) : YEH :=
  mkYEH (eventMapping this) (aliases this) (methods this)
        (classMethods this) (enableGlobalFallback this) (methodsFirst this)
        (eventListeners this) (elementHandlers this) (eventHandlerMap this) v
        (debounceTimers this) (userHasInteracted this) (passiveSupported this)
        (passiveEvents this) (handlerPrefix this) (abortController this)
        (autoTargetResolution this) (targetResolutionEvents this)
        (distanceCache this) (enableDistanceCache this) (actionableConfig this).

Definition setDebounceTimers (v : gmap string nat) (this : YEH) : YEH :=
  mkYEH (eventMapping this) (aliases this) (methods this)
        (classMethods this) (enableGlobalFallback this) (methodsFirst this)
        (eventListeners this) (elementHandlers this) (eventHandlerMap this)
        (throttleTimers this) v (userHasInteracted this) (passiveSupported this)
        (passiveEvents this) (handlerPrefix this) (abortController this)
        (autoTargetResolution this) (targetResolutionEvents this)
        (distanceCache this) (enableDistanceCache this) (actionableConfig this).

Definition setAbortController (v : bool) (this : YEH) : YEH :=
  mkYEH (eventMapping this) (aliases this) (methods this)
        (classMethods this) (enableGlobalFallback this) (methodsFirst this)
        (eventListeners this) (elementHandlers this) (eventHandlerMap this)
        (throttleTimers this) (debounceTimers this) (userHasInteracted this)
        (passiveSupported this) (passiveEvents this) (handlerPrefix this) v
        (autoTargetResolution this) (targetResolutionEvents this)
        (distanceCache this) (enableDistanceCache this) (actionableConfig this).

(** ** The registry *)

(** A [WeakMap] keyed by element. *)
Fixpoint weakGet {V : Type} (m : list (EventTarget * V)) (k : EventTarget)
  : option V :=
  match m with
  | [] => None
  | (k', v) :: rest => if decide (k' = k) then Some v else weakGet rest k
  end.

Fixpoint weakSet {V : Type} (m : list (EventTarget * V)) (k : EventTarget)
    (v : V) : list (EventTarget * V) :=
  match m with
  | [] => [(k, v)]
  | (k', v') :: rest =>
      if decide (k' = k) then (k, v) :: rest else (k', v') :: weakSet rest k v
  end.

Definition weakDelete {V : Type} (m : list (EventTarget * V))
    (k : EventTarget) : list (EventTarget * V) :=
  filter (λ kv, kv.1 ≠ k) m.

(** [array.forEach((x, index) => ...)] over a threaded state. *)
Fixpoint forEachIndexed {St X : Type} (f : St → X → nat → St) (l : list X)
    (index : nat) (s : St) : St :=
  match l with
  | [] => s
  | x :: rest => forEachIndexed f rest (S index) (f s x index)
  end.

(** [eventType.charAt(0).toUpperCase() + eventType.slice(1)]. *)
Definition capitalize (s : string) : string :=
  match s with
  | EmptyString => EmptyString
  | String c r => String (upperAscii c) r
  end.

(** [`${selector}_${eventType}_${index}`]. *)
Definition listenerKey (selector eventType : string) (index : nat) : string :=
  selector +:+ "_" +:+ eventType +:+ "_" +:+ pretty index.

Definition throttleKey (key eventType : string) : string :=
  key +:+ "-" +:+ eventType +:+ "-throttle".

Definition debounceKey (key eventType : string) : string :=
  key +:+ "-" +:+ eventType +:+ "-debounce".

Definition createWrappedHandler (eventConfig : EventConfig)
    (key eventType : string) : Listener :=
  match eventConfig with
  | ConfigString _ => ThisInstance
  | ConfigObject o =>
      match ec_throttle o, ec_debounce o with
      | Some t, d =>
          if numberTruthy t then Throttled t (throttleKey key eventType)
          else match d with
               | Some d' => if numberTruthy d'
                            then Debounced d' (debounceKey key eventType)
                            else ThisInstance
               | None => ThisInstance
               end
      | None, Some d =>
          if numberTruthy d then Debounced d (debounceKey key eventType)
          else ThisInstance
      | None, None => ThisInstance
      end
  end.

(** [this.passiveEvents.includes(eventConfig.type || eventConfig)], then
    the options object built from [{}]. *)
Definition getEventOptions (this : YEH) (eventConfig : EventConfig)
  : ListenerOptions :=
  let shouldBePassive :=
    passiveSupported this
    && match eventConfig with
       | ConfigString type => includes (passiveEvents this) type
       | ConfigObject o =>
           negb (isEmpty (ec_type o))
           && includes (passiveEvents this) (ec_type o)
       end in
  if shouldBePassive || abortController this
  then Options shouldBePassive (abortController this)
  else OptionsFalse.

(** [target.addEventListener(type, listener, options)]: the same listener
    object is attached once per target and type; every wrapper is an object
    of its own. *)
Definition addEventListener (target : EventTarget) (type : string)
    (listener : Listener) (options : ListenerOptions) (b : Browser) : Browser :=
  if bool_decide (listener = ThisInstance)
     && existsb (λ l, bool_decide (dl_target l = target)
                      && bool_decide (dl_type l = type)
                      && bool_decide (dl_listener l = ThisInstance))
                (listeners b)
  then b
  else mkBrowser (listeners b ++ [mkDomListener target type listener options])
                 (host b).

Fixpoint removeFirst {X : Type} (p : X → bool) (l : list X) : list X :=
  match l with
  | [] => []
  | x :: rest => if p x then rest else x :: removeFirst p rest
  end.

Definition removeEventListener (target : EventTarget) (type : string)
    (listener : Listener) (b : Browser) : Browser :=
  mkBrowser (removeFirst (λ l, bool_decide (dl_target l = target)
                               && bool_decide (dl_type l = type)
                               && bool_decide (dl_listener l = listener))
                         (listeners b))
            (host b).

Definition handlerMethodName (this : YEH) (eventConfig : EventConfig)
    (eventType : string) : string :=
  let byConvention :=
    match handlerPrefix this with
    | Some prefix => prefix +:+ capitalize eventType
    | None => eventType
    end in
  match eventConfig with
  | ConfigString _ => byConvention
  | ConfigObject o =>
      match ec_handler o with
      | Some h => if isEmpty h then byConvention else h
      | None => byConvention
      end
  end.

Definition pushEvent (e : TrackedEvent) (entry : ListenerEntry)
  : ListenerEntry :=
  mkListenerEntry (le_element entry) (le_events entry ++ [e]).

(** [registerEventListener(element, eventConfig, key, selector)].  The
    console warning of [validateResolvedHandler] is not recorded. *)
Definition registerEventListener (element : EventTarget)
    (eventConfig : EventConfig) (key selector : string)
    (s : YEH * Browser) : YEH * Browser :=
  let '(this, b) := s in
  let eventType := configType eventConfig in
  let options := getEventOptions this eventConfig in
  let handler := createWrappedHandler eventConfig key eventType in
  let b1 := addEventListener element eventType handler options b in
  let tracked := mkTrackedEvent eventType handler options in
  let listeners1 :=
    match eventListeners this !! key with
    | Some _ => eventListeners this
    | None => <[key := mkListenerEntry element []]> (eventListeners this)
    end in
  let handlers1 :=
    match weakGet (elementHandlers this) element with
    | Some _ => elementHandlers this
    | None => weakSet (elementHandlers this) element []
    end in
  let name := handlerMethodName this eventConfig eventType in
  let listeners2 := alter (pushEvent tracked) key listeners1 in
  let handlers2 :=
    weakSet handlers1 element
            (default [] (weakGet handlers1 element) ++ [tracked])%list in
  let info := mkHandlerInfo element name selector eventConfig in
  let map2 :=
    <[eventType :=
        (default [] (eventHandlerMap this !! eventType) ++ [info])%list]>
      (eventHandlerMap this) in
  (setEventHandlerMap map2
     (setElementHandlers handlers2 (setEventListeners listeners2 this)),
   b1).

(** [hasEvent(target, eventType)].  [eventMapping[target]] is read among
    the own properties of the mapping: a target that names a member of
    [Object.prototype] ([constructor], [toString], ...) and is no key of
    the mapping is left out. *)
Definition hasEvent (this : YEH) (target eventType : string) : bool :=
  match objGet (eventMapping this) target with
  | None => false
  | Some configs =>
      existsb (λ config, bool_decide (configType config = eventType)) configs
  end.

(** [clearTimeout] on the browser's host. *)
Definition clearBrowserTimeout (id : nat) (b : Browser) : Browser :=
  mkBrowser (listeners b) (clearTimeout id (host b)).

(** [if (timerData.timeout) clearTimeout(timerData.timeout);
     if (timerData.trailingTimeout) clearTimeout(timerData.trailingTimeout);] *)
Definition clearTimerData (timerData : TimerData Event) (b : Browser)
  : Browser :=
  let b1 := if timeout timerData =? 0 then b
            else clearBrowserTimeout (timeout timerData) b in
  match trailingTimeout timerData with
  | Some t => if t =? 0 then b1 else clearBrowserTimeout t b1
  | None => b1
  end.

Definition cleanupEventTimers (key eventType : string) (s : YEH * Browser)
  : YEH * Browser :=
  let '(this, b) := s in
  let '(this1, b1) :=
    match throttleTimers this !! throttleKey key eventType with
    | Some ref =>
        (setThrottleTimers
           (delete (throttleKey key eventType) (throttleTimers this)) this,
         match objects (host b) !! ref with
         | Some timerData => clearTimerData timerData b
         | None => b
         end)
    | None => (this, b)
    end in
  match debounceTimers this1 !! debounceKey key eventType with
  | Some id =>
      (setDebounceTimers
         (delete (debounceKey key eventType) (debounceTimers this1)) this1,
       clearBrowserTimeout id b1)
  | None => (this1, b1)
  end.

Section Registry.
(** [document.querySelectorAll], taken to answer on every selector it is
    asked about. *)
Variable querySelectorAll : string → list Node.

Definition getElements (selector : string) : list EventTarget :=
  if decide (selector = "document") then [document]
  else if decide (selector = "window") then [window]
  else node <$> querySelectorAll selector.

Definition registerSingleEvent (selector : string)
    (eventConfig : EventConfig) (s : YEH * Browser) : YEH * Browser :=
  let eventType := configType eventConfig in
  forEachIndexed
    (λ s element index,
       let key := listenerKey selector eventType index in
       match eventListeners s.1 !! key with
       | Some _ => s
       | None => registerEventListener element eventConfig key selector s
       end)
    (getElements selector) 0 s.

(** The first loop of [unregisterSingleEvent], for one element. *)
Definition unregisterElement (selector eventType : string)
    (s : YEH * Browser) (element : EventTarget) (index : nat)
  : YEH * Browser :=
  let '(this, b) := s in
  let key := listenerKey selector eventType index in
  let b1 :=
    match eventListeners this !! key with
    | Some listenerConfig =>
        match find (λ e, bool_decide (te_type e = eventType))
                   (le_events listenerConfig) with
        | Some eventData =>
            removeEventListener element eventType (te_handler eventData) b
        | None => b
        end
    | None => b
    end in
  let this1 := setEventListeners (delete key (eventListeners this)) this in
  let this2 :=
    match weakGet (elementHandlers this1) element with
    | Some elementEvents =>
        let filteredEvents :=
          filter (λ e, te_type e ≠ eventType) elementEvents in
        match filteredEvents with
        | [] => setElementHandlers
                  (weakDelete (elementHandlers this1) element) this1
        | _ => setElementHandlers
                 (weakSet (elementHandlers this1) element filteredEvents)
                 this1
        end
    | None => this1
    end in
  cleanupEventTimers key eventType (this2, b1).

(** The second loop: the element's registrations for this event type
    leave [eventHandlerMap]. *)
Definition cleanHandlerMap (eventType : string) (this : YEH)
    (element : EventTarget) : YEH :=
  match eventHandlerMap this !! eventType with
  | Some handlers =>
      let filteredHandlers :=
        filter (λ h, hi_element h ≠ element) handlers in
      match filteredHandlers with
      | [] => setEventHandlerMap (delete eventType (eventHandlerMap this))
                                 this
      | _ => setEventHandlerMap
               (<[eventType := filteredHandlers]> (eventHandlerMap this))
               this
      end
  | None => this
  end.

Definition unregisterSingleEvent (selector eventType : string)
    (s : YEH * Browser) : YEH * Browser :=
  let '(this1, b1) :=
    forEachIndexed (unregisterElement selector eventType)
                   (getElements selector) 0 s in
  (foldl (cleanHandlerMap eventType) this1 (getElements selector), b1).

(** [typeof eventConfig === 'string' ? { type: eventConfig } : eventConfig]. *)
Definition normalize (eventConfig : EventConfig) : EventConfig :=
  match eventConfig with
  | ConfigString type => ConfigObject (mkEventConfigObject type None None None)
  | ConfigObject _ => eventConfig
  end.

(** [addEvent(target, eventConfig)] and [removeEvent(target, eventType)],
    with their return value; targets as for [hasEvent]. *)
Definition addEvent (target : string) (eventConfig : EventConfig)
    (s : YEH * Browser) : bool * (YEH * Browser) :=
  let '(this, b) := s in
  let normalizedConfig := normalize eventConfig in
  if hasEvent this target (configType normalizedConfig) then (false, s)
  else
    let configs := default [] (objGet (eventMapping this) target) in
    let this1 :=
      setEventMapping
        (objSet (eventMapping this) target (configs ++ [normalizedConfig])%list)
        this in
    (true, registerSingleEvent target normalizedConfig (this1, b)).

Definition removeEvent (target eventType : string) (s : YEH * Browser)
  : bool * (YEH * Browser) :=
  let '(this, b) := s in
  match objGet (eventMapping this) target with
  | None => (false, s)
  | Some configs =>
      let initialLength := length configs in
      let remaining :=
        filter (λ config, configType config ≠ eventType) configs in
      let this1 :=
        setEventMapping (objSet (eventMapping this) target remaining) this in
      if length remaining =? initialLength then (false, (this1, b))
      else
        let this2 :=
          match remaining with
          | [] => setEventMapping (objDelete (eventMapping this1) target)
                                  this1
          | _ => this1
          end in
        (true, unregisterSingleEvent target eventType (this2, b))
  end.

(** [registerEvents]: every element of every selector gets every event
    of the selector's list. *)
Definition registerEvents (s : YEH * Browser) : YEH * Browser :=
  foldl
    (λ s entry,
       let '(elementSelector, events) := entry in
       forEachIndexed
         (λ s element index,
            foldl (λ s eventConfig,
                     registerEventListener element eventConfig
                       (listenerKey elementSelector (configType eventConfig)
                                    index)
                       elementSelector s)
                  s events)
         (getElements elementSelector) 0 s)
    s (eventMapping s.1).

(** [abort]: the controller's signal detaches every listener that was
    attached with it. *)
Definition abort (s : YEH * Browser) : YEH * Browser :=
  let '(this, b) := s in
  if abortController this then
    (setAbortController false this,
     mkBrowser (filter (λ l, hasSignal (dl_options l) = false) (listeners b))
               (host b))
  else s.

Definition removeTracked (entry : ListenerEntry) (b : Browser) : Browser :=
  foldl (λ b e, removeEventListener (le_element entry) (te_type e)
                                    (te_handler e) b)
        b (le_events entry).

(** [destroy].  The loops over the [Map]s detach listeners and clear
    timers one by one; the order of the rounds does not matter. *)
Definition destroy (s : YEH * Browser) : YEH * Browser :=
  let '(this, b) :=
    if abortController s.1 then abort s
    else (s.1, map_fold (λ _ entry b, removeTracked entry b) s.2
                        (eventListeners s.1)) in
  let this1 := setEventListeners ∅ this in
  let this2 := setEventHandlerMap ∅ this1 in
  let this3 := setDistanceCache ∅ this2 in
  let b1 :=
    map_fold (λ _ ref b, match objects (host b) !! ref with
                         | Some timerData => clearTimerData timerData b
                         | None => b
                         end)
             b (throttleTimers this3) in
  let this4 := setThrottleTimers ∅ this3 in
  let b2 :=
    map_fold (λ _ timerId b, clearBrowserTimeout timerId b)
             b1 (debounceTimers this4) in
  (setDebounceTimers ∅ this4, b2).
End Registry.

(** ** Construction *)

(** The typed reading of the [eventMapping] argument.  It is exact on
    mappings that pass validation and carry no [options]; on other values,
    reachable only with validation switched off, it keeps what has the
    expected shape. *)
Definition decodeNumber (v : JSValue) : option JSNumber :=
  match v with JSNumeric n => Some n | _ => None end.

Definition decodeString (v : JSValue) : option string :=
  match v with JSString s => Some s | _ => None end.

Definition decodeEventConfig (v : JSValue) : option EventConfig :=
  match v with
  | JSString type => Some (ConfigString type)
  | JSObject _ =>
      match getProperty v "type" with
      | JSString type =>
          Some (ConfigObject
                  (mkEventConfigObject type
                     (decodeString (getProperty v "handler"))
                     (decodeNumber (getProperty v "throttle"))
                     (decodeNumber (getProperty v "debounce"))))
      | _ => None
      end
  | _ => None
  end.

Definition decodeConfigs (v : JSValue) : list EventConfig :=
  match v with
  | JSArray items => omap decodeEventConfig items
  | _ => []
  end.

Definition decodeMapping (v : JSValue) : list (string * list EventConfig) :=
  (λ kv, (kv.1, decodeConfigs kv.2)) <$> entries v.

Definition decodeStrings (v : JSValue) (otherwise : list string)
  : list string :=
  match v with
  | JSArray items => omap decodeString items
  | _ => otherwise
  end.

Definition defaultPassiveEvents : list string :=
  ["scroll"; "touchstart"; "touchmove"; "touchend"; "touchcancel";
   "wheel"; "mousewheel"; "pointermove"; "pointerenter"; "pointerleave";
   "resize"; "orientationchange"; "load"; "beforeunload"; "unload"].

Definition defaultTargetResolutionEvents : list string :=
  ["click"; "touchstart"; "touchend"; "mousedown"; "mouseup"].

(** How a call of [new YEH(...)] ends, with the browser as it is then. *)
Inductive Completion : Type :=
| Thrown (e : ConfigError) (b : Browser)
| Constructed (this : YEH) (b : Browser).

Section Construction.
Variable querySelectorAll : string → list Node.
(** The result of [YEH.isPassiveSupported()]. *)
Variable passiveSupport : bool.
(** The names of the methods of the class being instantiated. *)
Variable methodsOfClass : list string.
(** The text a value that is no string gives in a template literal,
    [`${value}`]. *)
Variable templateText : JSValue → string.

(** The fields as the constructor sets them before it validates.
    [handlerPrefix] keeps the configured value whatever its type; the field
    holds what [registerEventListener] reads of it: nothing for a falsy
    value, else its text in the template literal.  The actionable options
    are arrays of strings when validation passes; without validation a
    value of another shape is read as far as it has that shape. *)
Definition initialFields (eventMapping : JSValue)
    (aliases : list (string * list (string * string))) (config : Config)
  : YEH :=
  mkYEH (decodeMapping eventMapping) aliases (cfg_methods config)
        methodsOfClass (cfg_enableGlobalFallback config)
        (cfg_methodsFirst config) ∅ [] ∅ ∅ ∅ false false
        (default defaultPassiveEvents (cfg_passiveEvents config))
        (match cfg_handlerPrefix config with
         | JSUndefined => Some "handle"
         | JSString prefix => if isEmpty prefix then None else Some prefix
         | value => if truthy value then Some (templateText value) else None
         end)
        (cfg_abortController config) (cfg_autoTargetResolution config)
        (default defaultTargetResolutionEvents
                 (cfg_targetResolutionEvents config))
        ∅ (cfg_enableDistanceCache config)
        (mkActionableConfig
           (decodeStrings (cfg_actionableAttributes config) ["data-action"])
           (decodeStrings (cfg_actionableClasses config) ["actionable"])
           (decodeStrings (cfg_actionableTags config) ["BUTTON"; "A"])
           (match cfg_enableActionableTargets config with
            | JSBoolean false => false
            | _ => true
            end)).

Definition detectPassiveSupport (this : YEH) : YEH :=
  mkYEH (eventMapping this) (aliases this) (methods this)
        (classMethods this) (enableGlobalFallback this) (methodsFirst this)
        (eventListeners this) (elementHandlers this) (eventHandlerMap this)
        (throttleTimers this) (debounceTimers this) (userHasInteracted this)
        passiveSupport (passiveEvents this) (handlerPrefix this)
        (abortController this) (autoTargetResolution this)
        (targetResolutionEvents this) (distanceCache this)
        (enableDistanceCache this) (actionableConfig this).

(** [constructor(eventMapping = {}, aliases = {}, config = {})]. *)
Definition constructor (eventMapping : JSValue)
    (aliases : list (string * list (string * string))) (config : Config)
    (b : Browser) : Completion :=
  let eventMapping := match eventMapping with
                      | JSUndefined => JSObject []
                      | _ => eventMapping
                      end in
  let this := initialFields eventMapping aliases config in
  match (if cfg_enableConfigValidation config
         then validateConfiguration eventMapping config
         else None) with
  | Some e => Thrown e b
  | None =>
      let '(this', b') :=
        registerEvents querySelectorAll (detectPassiveSupport this, b) in
      Constructed this' b'
  end.
End Construction.

Definition emptyPage : Browser := mkBrowser [] freshHost.

(** [`${value}`] for the primitive values; the examples put no array, object
    or function into a template literal. *)
Definition plainText (v : JSValue) : string :=
  match v with
  | JSUndefined => "undefined"
  | JSNull => "null"
  | JSBoolean true => "true"
  | JSBoolean false => "false"
  | JSNumeric NaN => "NaN"
  | JSNumeric (Finite z) => pretty z
  | JSNumeric PositiveInfinity => "Infinity"
  | JSNumeric NegativeInfinity => "-Infinity"
  | JSString s => s
  | JSArray _ | JSObject _ | JSFunction _ => ""
  end.

(** No pending timer of the browser has this id. *)
Definition cancelled (id : nat) (b : Browser) : Prop :=
  id ∉ timerId <$> pending (host b).

(** ** Example pages *)

Definition html := Element "HTML" "" "" 0 Document.
Definition body := Element "BODY" "" "" 1 html.

(** [<div id="a"><div><div><button/></div></div></div>] in [body]. *)
Definition panel := Element "DIV" "a" "" 0 body.
Definition outerDiv := Element "DIV" "" "" 0 panel.
Definition innerDiv := Element "DIV" "" "" 0 outerDiv.
Definition button := Element "BUTTON" "" "" 0 innerDiv.

Definition nestedPage (selector : string) : list Node :=
  if decide (selector = "#a > div") then [outerDiv]
  else if decide (selector = "#a > div > div") then [innerDiv]
  else [].

Definition nestedMapping : JSValue :=
  JSObject
    [("#a > div",
      JSArray [JSObject [("type", JSString "click");
                         ("handler", JSString "onOuter")]]);
     ("#a > div > div",
      JSArray [JSObject [("type", JSString "click");
                         ("handler", JSString "onInner")]])].

Definition nestedInstance : Completion :=
  constructor nestedPage true ["onOuter"; "onInner"] plainText
              nestedMapping [] defaultConfig emptyPage.

(** Two constructions with a well-formed mapping and one bad value
    elsewhere. *)
Definition prefixConfig : Config :=
  mkConfig [] false false None false false None true true
           (JSNumeric (Finite 42)) JSUndefined JSUndefined JSUndefined
           JSUndefined.

Definition handlerMapping : JSValue :=
  JSObject
    [("#app",
      JSArray [JSObject [("type", JSString "click");
                         ("handler", JSNumeric (Finite 42))]])].

(** [{ '#a > div': [{ type: 'click', throttle: NaN }] }]. *)
Definition nanMapping : JSValue :=
  JSObject
    [("#a > div",
      JSArray [JSObject [("type", JSString "click");
                         ("throttle", JSNumeric NaN)]])].

(** [{ handlerPrefix: 42, enableConfigValidation: false }] and
    [{ '#a > div': ['click'] }]. *)
Definition unvalidatedConfig : Config :=
  mkConfig [] false false None false false None false true
           (JSNumeric (Finite 42)) JSUndefined JSUndefined JSUndefined
           JSUndefined.

Definition clickMapping : JSValue :=
  JSObject [("#a > div", JSArray [JSString "click"])].

Definition instanceOf (c : Completion) : option YEH :=
  match c with Constructed this _ => Some this | Thrown _ _ => None end.

Definition noAttributes (n : Node) (a : string) : bool := false.

(** [button.closest(selector)] on the example page. *)
Definition nestedClosest (n : Node) (selector : string) : option Node :=
  if decide (selector = "#a > div") then Some outerDiv
  else if decide (selector = "#a > div > div") then Some innerDiv
  else None.

Definition outerRegistration : HandlerInfo :=
  mkHandlerInfo (node outerDiv) "onOuter" "#a > div"
    (ConfigObject (mkEventConfigObject "click" (Some "onOuter") None None)).

Definition innerRegistration : HandlerInfo :=
  mkHandlerInfo (node innerDiv) "onInner" "#a > div > div"
    (ConfigObject (mkEventConfigObject "click" (Some "onInner") None None)).

Definition click : Event := mkEvent "click" button.

(** A page where two selectors match the same element. *)
Definition cardPage (selector : string) : list Node :=
  if decide (selector = "#a > div > div") then [innerDiv]
  else if decide (selector = "div div div") then [innerDiv]
  else [].

Definition cardMapping : list (string * list EventConfig) :=
  [("#a > div > div", [ConfigString "click"]);
   ("div div div",
    [ConfigObject (mkEventConfigObject "click" (Some "onCard") None None)])].

Definition blankInstance (mapping : list (string * list EventConfig)) : YEH :=
  setEventMapping mapping
    (initialFields ["handleClick"; "onCard"] plainText (JSObject []) []
                   defaultConfig).

Definition cardInstance : YEH :=
  (registerEvents cardPage (blankInstance cardMapping, emptyPage)).1.

Definition cardState : YEH * Browser :=
  registerEvents cardPage (blankInstance cardMapping, emptyPage).

(** The same instance with a debounce timer pending under key ["k"]. *)
Definition timerState : YEH * Browser :=
  (setDebounceTimers {["k" := 1]} cardState.1,
   mkBrowser (listeners cardState.2)
             (mkHost 100 2
                     [mkPendingTimer 1 300 (DebounceElapsed tt "k" (mkEvent "input" button))]
                     ∅ 0 [])).

Definition cardFirst : HandlerInfo :=
  mkHandlerInfo (node innerDiv) "handleClick" "#a > div > div"
                (ConfigString "click").

Definition cardSecond : HandlerInfo :=
  mkHandlerInfo (node innerDiv) "onCard" "div div div"
    (ConfigObject (mkEventConfigObject "click" (Some "onCard") None None)).

(** The nested page with a second selector for the inner [div]: three
    registrations for [click], the last two on the same element. *)
Definition tiedPage (selector : string) : list Node :=
  if decide (selector = "div div div") then [innerDiv]
  else nestedPage selector.

Definition tiedMapping : JSValue :=
  JSObject
    [("#a > div",
      JSArray [JSObject [("type", JSString "click");
                         ("handler", JSString "onOuter")]]);
     ("#a > div > div",
      JSArray [JSObject [("type", JSString "click");
                         ("handler", JSString "onInner")]]);
     ("div div div",
      JSArray [JSObject [("type", JSString "click");
                         ("handler", JSString "onCard")]])].

(** [{ enableDistanceCache: false }]. *)
Definition uncachedConfig : Config :=
  mkConfig [] false false None false false None true false
           JSUndefined JSUndefined JSUndefined JSUndefined JSUndefined.

Definition tiedInstance (config : Config) : Completion :=
  constructor tiedPage true ["onOuter"; "onInner"; "onCard"] plainText
              tiedMapping [] config emptyPage.

Definition tiedClosest (n : Node) (selector : string) : option Node :=
  if decide (selector = "div div div") then Some innerDiv
  else nestedClosest n selector.

(** *** Events at a throttled listener of the page *)

(** The timer maps of the instance and the host of the page, as
    [this.throttle] and [this.debounce] work on them, and back. *)
Definition rateStateOf (s : YEH * Browser) : RateState unit Event :=
  mkRateState (throttleTimers s.1) (debounceTimers s.1) (host s.2).

Definition withRateState (r : RateState unit Event) (s : YEH * Browser)
  : YEH * Browser :=
  (setDebounceTimers (rs_debounceTimers r)
     (setThrottleTimers (rs_throttleTimers r) s.1),
   mkBrowser (listeners s.2) (rs_host r)).

(** Time passes until [t]: the timers due by then run. *)
Definition elapse (t : nat) (s : YEH * Browser) : YEH * Browser :=
  withRateState (advanceTo t (rateStateOf s)) s.

(** At time [t] an event reaches a listener
    [{ handleEvent: this.throttle((event) => this.handleEvent(event),
    delay, key) }].  The call of [handleEvent] it leads to is recorded in
    the host's [executions]. *)
Definition throttledEvent (delay : nat) (key : string) (event : Event)
    (t : nat) (s : YEH * Browser) : YEH * Browser :=
  withRateState
    (_throttleImplementation tt delay key event (advanceTo t (rateStateOf s)))
    s.

(** [new YEH({ '#a > div': [{ type: 'mousemove', throttle: 100 }] })] on
    the nested page. *)
Definition throttledMapping : JSValue :=
  JSObject
    [("#a > div",
      JSArray [JSObject [("type", JSString "mousemove");
                         ("throttle", JSNumeric (Finite 100))]])].

Definition throttledInstance : Completion :=
  constructor nestedPage true ["handleMousemove"] plainText throttledMapping
              [] defaultConfig emptyPage.

Definition mousemove : Event := mkEvent "mousemove" button.

(** The key of the throttled listener of [throttledInstance]. *)
Definition mousemoveKey : string :=
  throttleKey (listenerKey "#a > div" "mousemove" 0) "mousemove".

(** The instance after a [mousemove] at 0 and another at 10, at time
    105. *)
Definition movedOver (s : YEH * Browser) : YEH * Browser :=
  elapse 105 (throttledEvent 100 mousemoveKey mousemove 10
                (throttledEvent 100 mousemoveKey mousemove 0 s)).

(** ** Further methods of the class *)

(** [element.id]. *)
Definition idOf (n : Node) : string :=
  match n with
  | Element _ id _ _ _ | Orphan _ id _ => id
  | Document => ""
  end.

(** [selector.startsWith('#')], [selector.startsWith('.')] and
    [selector.slice(1)]. *)
Definition startsWith (c : ascii) (s : string) : bool :=
  match s with
  | String c' _ => Ascii.eqb c' c
  | EmptyString => false
  end.

Definition slice1 (s : string) : string :=
  match s with
  | String _ r => r
  | EmptyString => EmptyString
  end.

(** One round of the fallback loop of [findClosest]: does [current] match
    the simple selector? *)
Definition matchesSimple (selector : string) (current : Node) : bool :=
  let isIdSelector := startsWith "#" selector in
  let isClassSelector := startsWith "." selector in
  let cleanSelector := slice1 selector in
  if isIdSelector && bool_decide (idOf current = cleanSelector) then true
  else if isClassSelector
          && includes (classTokens (classNameOf current) "") cleanSelector
  then true
  else negb isIdSelector && negb isClassSelector
       && match tagNameOf current with
          | Some tagName =>
              negb (isEmpty tagName)
              && bool_decide (toLowerCase tagName = toLowerCase selector)
          | None => false
          end.

(** The fallback of [findClosest] for a page without [Element.closest]:
    [while (current && current !== document)
       { if (...) return current; current = current.parentElement; }
     return null]. *)
Fixpoint findClosestLegacy (selector : string) (current : Node)
  : option Node :=
  match current with
  | Document => None
  | Orphan _ _ _ =>
      if matchesSimple selector current then Some current else None
  | Element _ _ _ _ p =>
      if matchesSimple selector current then Some current
      else match p with
           | Document => None
           | _ => findClosestLegacy selector p
           end
  end.

(** [current.parentElement]. *)
Definition parentElement (n : Node) : option Node :=
  match n with
  | Element _ _ _ _ Document => None
  | Element _ _ _ _ p => Some p
  | Document | Orphan _ _ _ => None
  end.

(** [k] applications of [parentElement]. *)
Fixpoint elementAncestor (k : nat) (n : Node) : option Node :=
  match k with
  | 0 => Some n
  | S k' => match parentElement n with
            | Some p => elementAncestor k' p
            | None => None
            end
  end.

(** [on(type, handler, target)]:
    [this.addEvent(target || 'document', { type, handler }); return this].
    [subscribe] is the same call. *)
Definition on (querySelectorAll : string → list Node) (type : string)
    (handler : option string) (target : option string)
    (s : YEH * Browser) : YEH * Browser :=
  (addEvent querySelectorAll
            (match target with
             | Some t => if isEmpty t then "document" else t
             | None => "document"
             end)
            (ConfigObject (mkEventConfigObject type handler None None)) s).2.

Definition subscribe (querySelectorAll : string → list Node) (type : string)
    (handler : option string) (target : option string)
    (s : YEH * Browser) : YEH * Browser :=
  on querySelectorAll type handler target s.

(** What the registry keeps true of [eventHandlerMap]: no event type is
    mapped to an empty list, every candidate is filed under the type of
    its configuration, it sits on an element its selector matches, and the
    handler name it carries is the one [registerEventListener] derives from
    the configuration. *)
Definition registryInvariant (querySelectorAll : string → list Node)
    (this : YEH) : Prop :=
  ∀ eventType handlers,
    eventHandlerMap this !! eventType = Some handlers →
    handlers ≠ []
    ∧ ∀ h, h ∈ handlers →
           configType (hi_config h) = eventType
           ∧ hi_element h ∈ getElements querySelectorAll (hi_selector h)
           ∧ hi_handler h = handlerMethodName this (hi_config h) eventType.

(** The fields the constructor reads from its arguments and the page. *)
Definition settings (this : YEH) :=
  (aliases this, methods this, classMethods this, enableGlobalFallback this,
   methodsFirst this, passiveSupported this, passiveEvents this,
   handlerPrefix this, autoTargetResolution this, targetResolutionEvents this,
   enableDistanceCache this, actionableConfig this).

(** Calls of the public methods, and of [handleEvent] by the browser. *)
Inductive Call : Type :=
| CallAddEvent (target : string) (eventConfig : EventConfig)
| CallRemoveEvent (target eventType : string)
| CallOn (type : string) (handler target : option string)
| CallHandleEvent (event : Event)
| CallClearDistanceCache
| CallResetUserInteracted
| CallAbort
| CallDestroy.

Section Calls.
Variable querySelectorAll : string → list Node.
Variable windowFunctions : list string.
Variable hasAttribute : Node → string → bool.
Variable closest : Node → string → option Node.

Definition perform (s : YEH * Browser) (c : Call) : YEH * Browser :=
  match c with
  | CallAddEvent target eventConfig =>
      (addEvent querySelectorAll target eventConfig s).2
  | CallRemoveEvent target eventType =>
      (removeEvent querySelectorAll target eventType s).2
  | CallOn type handler target => on querySelectorAll type handler target s
  | CallHandleEvent event =>
      ((handleEvent windowFunctions hasAttribute closest s.1 event).1, s.2)
  | CallClearDistanceCache => (clearDistanceCache s.1, s.2)
  | CallResetUserInteracted => (resetUserInteracted s.1, s.2)
  | CallAbort => abort s
  | CallDestroy => destroy s
  end.
End Calls.

(** The name under which a resolved handler was found. *)
Definition referencedName (r : HandlerRef) : string :=
  match r with
  | ClassMethod name | ScopedMethod _ name | GlobalMethod name
  | WindowFunction name => name
  end.

(** The three tests of one round of the loop of [findActionableTarget]. *)
Definition actionable (hasAttribute : Node → string → bool) (this : YEH)
    (n : Node) : bool :=
  hasActionableAttribute hasAttribute this n
  || hasActionableClass this n
  || hasActionableTag this n.

(** The two tests made on the boundary. *)
Definition actionableBoundary (hasAttribute : Node → string → bool)
    (this : YEH) (n : Node) : bool :=
  hasActionableAttribute hasAttribute this n || hasActionableClass this n.

(** An [<svg>] inside the button of the example page. *)
Definition icon := Element "svg" "" "" 0 button.

(** [s'] is [s] after registrations of [eventConfig] under [selector] on
    some of [elements], in their order: candidates and DOM listeners were
    appended, nothing else moved. *)
Definition registeredOn (elements : list EventTarget) (selector : string)
    (eventConfig : EventConfig) (s s' : YEH * Browser) : Prop :=
  let eventType := configType eventConfig in
  (∀ type, type ≠ eventType →
           eventHandlerMap s'.1 !! type = eventHandlerMap s.1 !! type)
  ∧ (∃ added,
       default [] (eventHandlerMap s'.1 !! eventType)
       = default [] (eventHandlerMap s.1 !! eventType) ++ added
       ∧ hi_element <$> added `sublist_of` elements
       ∧ Forall (λ h, hi_selector h = selector
                      ∧ hi_config h = eventConfig
                      ∧ hi_handler h
                        = handlerMethodName s.1 eventConfig eventType)
                added)
  ∧ (∃ attached,
       listeners s'.2 = listeners s.2 ++ attached
       ∧ dl_target <$> attached `sublist_of` elements
       ∧ Forall (λ l, dl_type l = eventType
                      ∧ hasSignal (dl_options l) = abortController s.1)
                attached)
  ∧ host s'.2 = host s.2
  ∧ settings s'.1 = settings s.1
  ∧ abortController s'.1 = abortController s.1.

(** The page holds the listeners of [b] and, after them, only listeners
    that were attached with the signal of the instance's controller. *)
Definition underSignal (b : Browser) (s : YEH * Browser) : Prop :=
  abortController s.1 = true
  ∧ ∃ attached,
      listeners s.2 = listeners b ++ attached
      ∧ Forall (λ l, hasSignal (dl_options l) = true) attached.

(** A page on which another script listens already, and a configuration
    with [abortController: true]. *)
Definition busyPage : Browser :=
  mkBrowser [mkDomListener window "resize" (Debounced (Finite 50) "other")
                           OptionsFalse]
            freshHost.

Definition signalConfig : Config :=
  mkConfig [] false false None true false None true true
           JSUndefined JSUndefined JSUndefined JSUndefined JSUndefined.

(** ** States of a throttled key *)

(** Calls at least [delay] apart. *)
Fixpoint spaced {A : Type} (delay : nat) (calls : list (nat * A)) : Prop :=
  match calls with
  | [] => True
  | (t, _) :: rest =>
      match rest with
      | [] => True
      | (t', _) :: _ => t + delay ≤ t' ∧ spaced delay rest
      end
  end.

(** After a leading call at [t0] and no call since: the key holds an
    object whose cooldown timer is the only pending timer. *)
Definition cooling {F A : Type} (delay : nat) (key : string)
    (s : RateState F A) (t0 : nat) (log : list (nat * F * A)) : Prop :=
  ∃ id ref a,
    0 < id ∧ id < nextTimerId (rs_host s)
    ∧ now (rs_host s) = t0
    ∧ pending (rs_host s)
      = [mkPendingTimer id (t0 + delay) (CooldownExpired key)]
    ∧ rs_throttleTimers s !! key = Some ref
    ∧ objects (rs_host s) !! ref = Some (mkTimerData id a None)
    ∧ executions (rs_host s) = log.

(** After a leading call at [t0] and further calls during its cooldown,
    the last of them at [t] with [a]: the cooldown timer and one trailing
    timer are pending, and the object holds the last arguments. *)
Definition trailing {F A : Type} (fn : F) (delay : nat) (key : string)
    (s : RateState F A) (t0 t : nat) (a : A) (log : list (nat * F * A))
  : Prop :=
  ∃ id ref id',
    0 < id ∧ id < id' ∧ id' < nextTimerId (rs_host s)
    ∧ now (rs_host s) = t
    ∧ pending (rs_host s)
      = [mkPendingTimer id (t0 + delay) (CooldownExpired key);
         mkPendingTimer id' (t + delay) (TrailingEdge fn key ref)]
    ∧ rs_throttleTimers s !! key = Some ref
    ∧ objects (rs_host s) !! ref = Some (mkTimerData id a (Some id'))
    ∧ executions (rs_host s) = log.

(** ** Reading validation results *)

(** A rate that does not rate-limit: absent, or [NaN] (which validation
    lets through and which is falsy). *)
Definition absentRate (v : JSValue) : Prop :=
  v = JSUndefined ∨ v = JSNumeric NaN.

(** The selector and the index an error message names. *)
Definition errorPlace (e : ConfigError) : option (string * option nat) :=
  match e with
  | SelectorNotString selector | ConfigNotArray selector
  | ConfigEmpty selector => Some (selector, None)
  | EventTypeEmpty selector index | EventConfigNotObject selector index
  | EventTypeInvalid selector index | ThrottleInvalid selector index
  | DebounceInvalid selector index | ThrottleAndDebounce selector index
  | HandlerNotString selector index => Some (selector, Some index)
  | _ => None
  end.



(** The registration [registerEventListener] files for an element. *)
Definition registrationOf (this : YEH) (element : EventTarget)
    (selector : string) (eventConfig : EventConfig) : HandlerInfo :=
  mkHandlerInfo element
    (handlerMethodName this eventConfig (configType eventConfig))
    selector eventConfig.

(** The registrations of one event type that a mapping asks for, in the
    order of [registerEvents]: by selector, then by matched element, then
    by position in the selector's list. *)
Definition candidatesOf (querySelectorAll : string → list Node)
    (this : YEH) (eventType : string)
    (mapping : list (string * list EventConfig)) : list HandlerInfo :=
  mapping ≫= λ entry,
    getElements querySelectorAll entry.1 ≫= λ element,
      filter (λ c, configType c = eventType) entry.2 ≫= λ eventConfig,
        [registrationOf this element entry.1 eventConfig].

(** A page and an instance on which two different pairs of selector and
    event type give the same listener key. *)
Definition underscorePage (selector : string) : list Node :=
  if decide (selector = ".btn_primary") then [button]
  else if decide (selector = ".btn") then [innerDiv]
  else [].

Definition underscoreState : YEH * Browser :=
  registerEvents underscorePage
    (blankInstance [(".btn_primary", [ConfigString "click"])], emptyPage).

(** *** Statistics *)






(** [options.passive] of an attached listener. *)
Definition isPassive (o : ListenerOptions) : bool :=
  match o with
  | Options passive _ => passive
  | OptionsFalse => false
  end.

(** A DOM listener as [registerEvents] attaches it for an entry of the
    mapping. *)
Definition attachedFor (querySelectorAll : string → list Node)
    (mapping : list (string * list EventConfig))
    (passiveSupport : bool) (passive : list string) (signal : bool)
    (l : DomListener) : Prop :=
  ∃ selector events eventConfig index,
    (selector, events) ∈ mapping
    ∧ eventConfig ∈ events
    ∧ dl_target l ∈ getElements querySelectorAll selector
    ∧ dl_type l = configType eventConfig
    ∧ dl_listener l
      = createWrappedHandler eventConfig
          (listenerKey selector (configType eventConfig) index)
          (configType eventConfig)
    ∧ hasSignal (dl_options l) = signal
    ∧ (dl_type l ≠ "" →
       isPassive (dl_options l)
       = passiveSupport && includes passive (dl_type l)).

(** No event configuration of the mapping carries an [options] object.
    [getEventOptions] is modelled for such configurations; with validation
    enabled they are read exactly by [decodeMapping]. *)
Definition withoutOptions (eventMapping : JSValue) : bool :=
  forallb (λ entry,
             match entry.2 with
             | JSArray items =>
                 forallb (λ item, negb (truthy (getProperty item "options")))
                         items
             | _ => true
             end)
          (entries eventMapping).

(** ** Registering and unregistering, element by element *)







(** * Properties *)

(** ** The tree *)

Lemma ancestor_depth k n c : ancestor k n = Some c → depth n = k + depth c.
Proof.
  revert n. induction k as [|k IH]; intros n H; simpl in H.
  - by inversion H.
  - destruct n as [|t i cl ix p|t i cl]; simpl in H; try discriminate.
    simpl. by rewrite (IH p H).
Qed.

(** A node is reached from another by one hop count only. *)
Lemma ancestor_unique j k n c :
  ancestor j n = Some c → ancestor k n = Some c → j = k.
Proof.
  intros Hj Hk. apply ancestor_depth in Hj, Hk. lia.
Qed.

Lemma contains_refl c : contains c c = true.
Proof. destruct c; simpl; repeat case_decide; done. Qed.

Lemma climb_refl c d : climb c c d = d.
Proof. destruct c; simpl; repeat case_decide; done. Qed.

Lemma contains_ancestor c n :
  contains c n = true ↔ ∃ k, ancestor k n = Some c.
Proof.
  split.
  - induction n as [|t i cl ix p IH|t i cl]; simpl;
      (destruct (decide (_ = c)) as [->|Hne]; [intros _; by exists 0|]);
      try discriminate.
    intros H. destruct (IH H) as [k Hk]. by exists (S k).
  - intros [k Hk]. revert n Hk. induction k as [|k IH]; intros n Hk.
    + simpl in Hk. inversion Hk as [Heq]. apply contains_refl.
    + destruct n as [|t i cl ix p|t i cl]; simpl in Hk; try discriminate.
      simpl. destruct (decide (_ = c)); [done|]. by apply IH.
Qed.

(** The loop counts the hops up to the container. *)
Lemma climb_ancestor k n c d :
  ancestor k n = Some c → climb n c d = d + k.
Proof.
  revert n d. induction k as [|k IH]; intros n d Hk.
  - simpl in Hk. inversion Hk. subst. rewrite climb_refl. lia.
  - destruct n as [|t i cl ix p|t i cl]; simpl in Hk; try discriminate.
    simpl. destruct (decide (_ = c)) as [Heq|Hne].
    + assert (ancestor 0 (Element t i cl ix p) = Some c) as H0
        by (simpl; by rewrite Heq).
      assert (ancestor (S k) (Element t i cl ix p) = Some c) as HS by done.
      pose proof (ancestor_unique _ _ _ _ H0 HS). lia.
    + rewrite (IH p (S d) Hk). lia.
Qed.

(** C4. [calculateDOMDistance] is 1000 for [document] and [window]; for any
    other container it is [Infinity] when the container does not contain
    the origin, and otherwise the number of [parentNode] hops from the
    origin up to the container (the only [k] with [ancestor k origin =
    container]), which is 0 when origin and container are the same node. *)
Theorem calculateDOMDistance_spec (origin : Node) (container : EventTarget) :
  (container = window ∨ container = document →
     calculateDOMDistance origin container = Fin 1000)
  ∧ (∀ c, container = node c → c ≠ Document → contains c origin = false →
       calculateDOMDistance origin container = Infinity)
  ∧ (∀ c, container = node c → c ≠ Document → contains c origin = true →
       ∃ k, calculateDOMDistance origin container = Fin k
            ∧ ancestor k origin = Some c
            ∧ (∀ j, ancestor j origin = Some c → j = k)
            ∧ (origin = c → k = 0)).
Proof.
  split; [|split].
  - intros [-> | ->]; reflexivity.
  - intros c -> Hdoc Hnot. unfold calculateDOMDistance.
    rewrite decide_False by done. by rewrite Hnot.
  - intros c -> Hdoc Hin. unfold calculateDOMDistance.
    rewrite decide_False by done. rewrite Hin. simpl.
    apply contains_ancestor in Hin as [k Hk].
    exists k. rewrite (climb_ancestor k origin c 0 Hk).
    repeat split; auto.
    + intros j Hj. by apply (ancestor_unique j k origin c).
    + intros ->. by apply (ancestor_unique k 0 c c).
Qed.

Lemma calculateDOMDistance_spec_witness :
  calculateDOMDistance button window = Fin 1000
  ∧ calculateDOMDistance button document = Fin 1000
  ∧ calculateDOMDistance body (node innerDiv) = Infinity
  ∧ (∃ k, calculateDOMDistance button (node outerDiv) = Fin k
          ∧ ancestor k button = Some outerDiv
          ∧ (∀ j, ancestor j button = Some outerDiv → j = k)
          ∧ (button = outerDiv → k = 0)).
Proof.
  split; [|split; [|split]].
  - destruct (calculateDOMDistance_spec button window) as (H & _ & _).
    apply H. by left.
  - destruct (calculateDOMDistance_spec button document) as (H & _ & _).
    apply H. by right.
  - destruct (calculateDOMDistance_spec body (node innerDiv)) as (_ & H & _).
    apply (H innerDiv); [reflexivity | discriminate | vm_compute; reflexivity].
  - destruct (calculateDOMDistance_spec button (node outerDiv)) as (_ & _ & H).
    apply (H outerDiv); [reflexivity | discriminate | vm_compute; reflexivity].
Defined.

(** ** The distance cache *)

Lemma calculateDistanceWithCache_disabled cache target container :
  calculateDistanceWithCache false cache target container
  = (calculateDOMDistance target container, cache).
Proof. reflexivity. Qed.

Lemma calculateDistanceWithCache_miss cache target container :
  cache !! cacheKey target container = None →
  calculateDistanceWithCache true cache target container
  = (calculateDOMDistance target container,
     <[cacheKey target container := calculateDOMDistance target container]>
       cache).
Proof. intros H. unfold calculateDistanceWithCache. simpl. by rewrite H. Qed.

Lemma calculateDistanceWithCache_hit cache target container d :
  cache !! cacheKey target container = Some d →
  calculateDistanceWithCache true cache target container = (d, cache).
Proof. intros H. unfold calculateDistanceWithCache. simpl. by rewrite H. Qed.

(** The cache only grows, and afterwards it holds what was returned. *)
Lemma calculateDistanceWithCache_grows enable cache target container :
  cache ⊆ (calculateDistanceWithCache enable cache target container).2.
Proof.
  unfold calculateDistanceWithCache. destruct enable; simpl; [|done].
  destruct (cache !! _) eqn:E; simpl; [done|]. by apply insert_subseteq.
Qed.

Lemma calculateDistanceWithCache_stored cache target container :
  (calculateDistanceWithCache true cache target container).2
    !! cacheKey target container
  = Some (calculateDistanceWithCache true cache target container).1.
Proof.
  unfold calculateDistanceWithCache. simpl.
  destruct (cache !! _) eqn:E; simpl; [done|]. by rewrite lookup_insert_eq.
Qed.

(** C2. Cache transparency fails on the code: two different elements get
    the same key ([div[0]] for a [div] and for its first child [div]), and
    from an empty cache the lookup for the inner one returns the distance
    memoized for the outer one (2) instead of its own distance (1). *)
Theorem distance_cache_key_collision :
  outerDiv ≠ innerDiv
  ∧ getElementKey (node outerDiv) = getElementKey (node innerDiv)
  ∧ (calculateDistanceWithCache true
       (calculateDistanceWithCache true ∅ button (node outerDiv)).2
       button (node innerDiv)).1 = Fin 2
  ∧ calculateDOMDistance button (node innerDiv) = Fin 1.
Proof. repeat split; [discriminate | vm_compute; reflexivity ..]. Qed.

(** ** Closest-match selection *)

(** The loop is the comparison [keepCloser] run over the distances seen. *)
Lemma findClosestHandler_fold enable target handlers :
  ∀ cache acc,
    foldl (closestStep enable target) (acc.1, acc.2, cache) handlers
    = (foldl keepCloser acc
             (zip handlers (distancesSeen enable cache target handlers)),
       cacheAfter enable cache target handlers).
Proof.
  induction handlers as [|h rest IH]; intros cache [ch cd]; simpl; [done|].
  destruct (calculateDistanceWithCache enable cache target (hi_element h))
    as [d cache'] eqn:E.
  simpl. unfold keepCloser at 2. simpl.
  destruct (bool_decide (d ≠ Infinity) && Distance_ltb d cd);
    apply (IH cache' (_, _)).
Qed.

Lemma findClosestHandler_keepCloser enable cache target handlers :
  findClosestHandler enable cache target handlers
  = (foldl keepCloser (None, Infinity)
           (zip handlers (distancesSeen enable cache target handlers)),
     cacheAfter enable cache target handlers).
Proof. apply (findClosestHandler_fold enable target handlers cache (None, Infinity)). Qed.

Lemma keepCloser_firstLeast (l : list (HandlerInfo * Distance)) :
  (foldl keepCloser (None, Infinity) l = (None, Infinity)
   ∧ ∀ j h d, l !! j = Some (h, d) → d = Infinity)
  ∨ ∃ i h m, foldl keepCloser (None, Infinity) l = (Some h, Fin m)
             ∧ firstLeast l i h m.
Proof.
  induction l as [|[h d] l IH] using rev_ind.
  - left. split; [done|]. intros j h d H. by rewrite lookup_nil in H.
  - rewrite foldl_app. simpl. destruct IH as [[-> Hall] | (i & h0 & m & -> & Hi & Hle)].
    + unfold keepCloser. simpl. destruct d as [n|]; simpl.
      * right. exists (length l), h, n. split; [done|]. split.
        -- by rewrite lookup_app_r, Nat.sub_diag.
        -- intros j h' d' Hj. destruct (decide (j < length l)) as [Hlt|Hge].
           ++ rewrite lookup_app_l in Hj by done. left. eauto.
           ++ rewrite lookup_app_r in Hj by lia.
              destruct (j - length l) as [|k] eqn:Ek; simpl in Hj; [|done].
              inversion Hj; subst. right. exists n. repeat split; [lia|lia].
      * left. split; [done|]. intros j h' d' Hj.
        destruct (decide (j < length l)) as [Hlt|Hge].
        -- rewrite lookup_app_l in Hj by done. eauto.
        -- rewrite lookup_app_r in Hj by lia.
           destruct (j - length l) as [|k]; simpl in Hj; [|done].
           by inversion Hj.
    + assert (i < length l) as Hil by (by eapply lookup_lt_Some).
      unfold keepCloser. simpl. destruct d as [n|]; simpl.
      * destruct (n <? m) eqn:Hnm.
        -- apply Nat.ltb_lt in Hnm. right. exists (length l), h, n.
           split; [done|]. split.
           ++ by rewrite lookup_app_r, Nat.sub_diag.
           ++ intros j h' d' Hj. destruct (decide (j < length l)) as [Hlt|Hge].
              ** rewrite lookup_app_l in Hj by done.
                 destruct (Hle j h' d' Hj) as [->|(m' & -> & Hm & _)];
                   [by left|]. right. exists m'. repeat split; lia.
              ** rewrite lookup_app_r in Hj by lia.
                 destruct (j - length l) as [|k] eqn:Ek; simpl in Hj; [|done].
                 inversion Hj; subst. right. exists n. repeat split; lia.
        -- apply Nat.ltb_ge in Hnm. right. exists i, h0, m.
           split; [done|]. split.
           ++ by rewrite lookup_app_l.
           ++ intros j h' d' Hj. destruct (decide (j < length l)) as [Hlt|Hge].
              ** rewrite lookup_app_l in Hj by done. eauto.
              ** rewrite lookup_app_r in Hj by lia.
                 destruct (j - length l) as [|k] eqn:Ek; simpl in Hj; [|done].
                 inversion Hj; subst. right. exists n. repeat split; lia.
      * right. exists i, h0, m. split; [done|]. split.
        -- by rewrite lookup_app_l.
        -- intros j h' d' Hj. destruct (decide (j < length l)) as [Hlt|Hge].
           ++ rewrite lookup_app_l in Hj by done. eauto.
           ++ rewrite lookup_app_r in Hj by lia.
              destruct (j - length l) as [|k]; simpl in Hj; [|done].
              inversion Hj. by left.
Qed.

Lemma distancesSeen_length enable target handlers :
  ∀ cache, length (distancesSeen enable cache target handlers) = length handlers.
Proof.
  induction handlers as [|h rest IH]; intros cache; simpl; [done|].
  destruct (calculateDistanceWithCache _ _ _ _). simpl. by rewrite IH.
Qed.

Lemma distancesSeen_disabled cache target handlers :
  distancesSeen false cache target handlers
  = (λ h, calculateDOMDistance target (hi_element h)) <$> handlers.
Proof.
  induction handlers as [|h rest IH]; simpl; [done|]. by rewrite IH.
Qed.

Lemma distancesSeen_faithful target handlers :
  ∀ cache,
    cacheFaithful cache target handlers →
    distancesSeen true cache target handlers
    = (λ h, calculateDOMDistance target (hi_element h)) <$> handlers.
Proof.
  induction handlers as [|h rest IH]; intros cache [Hheld Hkeys]; simpl;
    [done|].
  unfold calculateDistanceWithCache. simpl.
  destruct (cache !! cacheKey target (hi_element h)) as [d|] eqn:E.
  - rewrite (Hheld h d) by (done || by left). f_equal. apply IH. split.
    + intros h' d' Hin. apply Hheld. by right.
    + intros h1 h2 H1 H2. apply Hkeys; by right.
  - f_equal. apply IH. split.
    + intros h' d' Hin Hd'.
      destruct (decide (cacheKey target (hi_element h)
                        = cacheKey target (hi_element h'))) as [Heq|Hne].
      * rewrite Heq, lookup_insert_eq in Hd'. inversion Hd'; subst.
        apply Hkeys; [by left | by right | done].
      * rewrite lookup_insert_ne in Hd' by done.
        apply (Hheld h' d'); [by right|done].
    + intros h1 h2 H1 H2. apply Hkeys; by right.
Qed.

(** Whenever the cache is off or faithful, the loop sees the distances
    [calculateDOMDistance] gives. *)
Lemma distancesSeen_true enable cache target handlers :
  enable = false ∨ cacheFaithful cache target handlers →
  distancesSeen enable cache target handlers
  = (λ h, calculateDOMDistance target (hi_element h)) <$> handlers.
Proof.
  intros [-> | H]; [apply distancesSeen_disabled|].
  destruct enable; [by apply distancesSeen_faithful|].
  apply distancesSeen_disabled.
Qed.

(** What the loop returns, in terms of the candidates and the distances
    it saw: nothing when every distance is [Infinity], otherwise the
    first candidate at the least finite distance. *)
Lemma findClosestHandler_spec enable cache target handlers :
  let seen := distancesSeen enable cache target handlers in
  let result := (findClosestHandler enable cache target handlers).1 in
  (result = (None, Infinity) ∧ ∀ k d, seen !! k = Some d → d = Infinity)
  ∨ ∃ i h m,
      result = (Some h, Fin m)
      ∧ handlers !! i = Some h ∧ seen !! i = Some (Fin m)
      ∧ ∀ k d, seen !! k = Some d →
               d = Infinity ∨ ∃ m', d = Fin m' ∧ m ≤ m' ∧ (k < i → m < m').
Proof.
  intros seen result. subst result.
  rewrite findClosestHandler_keepCloser. simpl. fold seen.
  assert (∀ k d, seen !! k = Some d →
                 ∃ h, zip handlers seen !! k = Some (h, d)) as Hzip.
  { intros k d Hk.
    assert (k < length handlers) as Hlt.
    { rewrite <- (distancesSeen_length enable target handlers cache).
      by eapply lookup_lt_Some. }
    destruct (lookup_lt_is_Some_2 handlers k Hlt) as [h Hh].
    exists h. apply lookup_zip_with_Some. by exists h, d. }
  destruct (keepCloser_firstLeast (zip handlers seen))
    as [[-> Hall] | (i & h & m & -> & Hi & Hle)].
  - left. split; [done|]. intros k d Hk.
    destruct (Hzip k d Hk) as [h Hh]. eauto.
  - right. exists i, h, m.
    apply lookup_zip_with_Some in Hi as (x & y & Hxy & Hx & Hy).
    inversion Hxy; subst. repeat split; auto.
    intros k d Hk. destruct (Hzip k d Hk) as [h' Hh']. eauto.
Qed.

(** A second pass over the same candidates sees the same distances. *)
Lemma cacheAfter_grows enable target handlers :
  ∀ cache, cache ⊆ cacheAfter enable cache target handlers.
Proof.
  induction handlers as [|h rest IH]; intros cache; simpl; [done|].
  etrans; [|apply IH]. apply calculateDistanceWithCache_grows.
Qed.

Lemma distancesSeen_again enable target handlers :
  ∀ cache,
    distancesSeen enable (cacheAfter enable cache target handlers) target
                  handlers
    = distancesSeen enable cache target handlers
    ∧ cacheAfter enable (cacheAfter enable cache target handlers) target
                 handlers
      = cacheAfter enable cache target handlers.
Proof.
  destruct enable.
  - induction handlers as [|h rest IH]; intros cache; simpl; [done|].
    pose proof (calculateDistanceWithCache_stored cache target (hi_element h))
      as Hst.
    destruct (calculateDistanceWithCache true cache target (hi_element h))
      as [d c1] eqn:E. simpl in *.
    pose proof (cacheAfter_grows true target rest c1) as Hsub.
    pose proof (lookup_weaken _ _ _ _ Hst Hsub) as Hhit.
    rewrite (calculateDistanceWithCache_hit _ _ _ _ Hhit). simpl.
    destruct (IH c1) as [-> ->]. done.
  - induction handlers as [|h rest IH]; intros cache; simpl; [done|].
    destruct (IH cache) as [-> ->]. done.
Qed.

(** ** Dispatch *)

Lemma checkUserInteraction_fields this event :
  eventHandlerMap (checkUserInteraction this event) = eventHandlerMap this
  ∧ distanceCache (checkUserInteraction this event) = distanceCache this
  ∧ enableDistanceCache (checkUserInteraction this event)
    = enableDistanceCache this
  ∧ passiveEvents (checkUserInteraction this event) = passiveEvents this.
Proof. unfold checkUserInteraction. by destruct (_ && _). Qed.

Lemma checkUserInteraction_flag this event :
  userHasInteracted (checkUserInteraction this event)
  = userHasInteracted this
    || negb (includes (passiveEvents this) (ev_type event)).
Proof.
  unfold checkUserInteraction.
  destruct (userHasInteracted this) eqn:E; simpl; [done|].
  destruct (includes _ _); simpl; [done|reflexivity].
Qed.

Section Dispatch.
Variable windowFunctions : list string.
Variable hasAttribute : Node → string → bool.
Variable closest : Node → string → option Node.

Local Abbreviation dispatch :=
  (handleEvent windowFunctions hasAttribute closest).

(** The candidates of an event: [this.eventHandlerMap.get(event.type)],
    empty when there is no entry. *)
Lemma handleEvent_run this event :
  let handlers := default [] (eventHandlerMap this !! ev_type event) in
  selected (dispatch this event).2
  = (findClosestHandler (enableDistanceCache this) (distanceCache this)
                        (ev_target event) handlers).1.1
  ∧ (dispatch this event).1
    = match handlers with
      | [] => this
      | _ => setDistanceCache
               (cacheAfter (enableDistanceCache this) (distanceCache this)
                           (ev_target event) handlers)
               (checkUserInteraction this event)
      end.
Proof.
  unfold handleEvent.
  destruct (eventHandlerMap this !! ev_type event) as [[|h hs]|]; simpl;
    [done| |done].
  destruct (checkUserInteraction_fields this event) as (_ & -> & -> & _).
  change (foldl _ (closestStep _ _ _ h) hs)
    with (findClosestHandler (enableDistanceCache this) (distanceCache this)
                             (ev_target event) (h :: hs)).
  change (cacheAfter _ _ _ hs)
    with (cacheAfter (enableDistanceCache this) (distanceCache this)
                     (ev_target event) (h :: hs)).
  rewrite findClosestHandler_keepCloser.
  destruct (foldl keepCloser _ _) as [[r|] cd]; simpl; [|done].
  destruct (resolveHandler _ _ _ _); simpl; [|done].
  destruct (_ && _); simpl; [|done].
  destruct (findActionableTarget _ _ _ _); simpl; [done| |done].
  by destruct (ac_enabled _).
Qed.

Lemma handleEvent_none_invoked this event :
  selected (dispatch this event).2 = None →
  invoked (dispatch this event).2 = false.
Proof. by destruct (dispatch this event).2. Qed.

(** With the cache switched off, or faithful, dispatch settles on the
    first candidate at the least finite [calculateDOMDistance], and on none
    (invoking nothing) exactly when no candidate has a finite distance. *)
Lemma handleEvent_closest this event :
  let handlers := default [] (eventHandlerMap this !! ev_type event) in
  let distance h := calculateDOMDistance (ev_target event) (hi_element h) in
  enableDistanceCache this = false
  ∨ cacheFaithful (distanceCache this) (ev_target event) handlers →
  (selected (dispatch this event).2 = None
   ∧ invoked (dispatch this event).2 = false
   ∧ ∀ h, h ∈ handlers → distance h = Infinity)
  ∨ ∃ i h m,
      selected (dispatch this event).2 = Some h
      ∧ handlers !! i = Some h ∧ distance h = Fin m
      ∧ ∀ k h', handlers !! k = Some h' →
                distance h' = Infinity
                ∨ ∃ m', distance h' = Fin m' ∧ m ≤ m' ∧ (k < i → m < m').
Proof.
  intros handlers distance Hok.
  destruct (handleEvent_run this event) as [Hsel _]. fold handlers in Hsel.
  pose proof (findClosestHandler_spec (enableDistanceCache this)
                (distanceCache this) (ev_target event) handlers) as Hspec.
  simpl in Hspec.
  rewrite (distancesSeen_true _ _ _ _ Hok) in Hspec.
  destruct Hspec as [[Hres Hall] | (i & h & m & Hres & Hi & Hd & Hle)].
  - left. rewrite Hres in Hsel. simpl in Hsel. split; [done|]. split.
    + by apply handleEvent_none_invoked.
    + intros h Hh. apply list_elem_of_lookup in Hh as [k Hk].
      apply (Hall k). by rewrite list_lookup_fmap, Hk.
  - right. exists i, h, m. rewrite Hres in Hsel. simpl in Hsel.
    rewrite list_lookup_fmap, Hi in Hd. simpl in Hd. inversion Hd as [Hd'].
    repeat split; auto.
    intros k h' Hk. apply (Hle k). by rewrite list_lookup_fmap, Hk.
Qed.

(** The tie-break of the loop, on the distances it obtains from
    [calculateDistanceWithCache]: when several candidates of the
    dispatched type are at the same least finite value, dispatch settles
    on the one registered first, and dispatching the same event again
    settles on the same one.  With the cache switched off, or faithful for
    the candidates, those values are [calculateDOMDistance], and every run
    with these candidates settles on that same one. *)
Theorem tie_break_first_registered
    (this : YEH) (event : Event) (handlers : list HandlerInfo)
    (i j m : nat) (first other : HandlerInfo) :
  let seen := distancesSeen (enableDistanceCache this) (distanceCache this)
                            (ev_target event) handlers in
  eventHandlerMap this !! ev_type event = Some handlers →
  handlers !! i = Some first → handlers !! j = Some other → i < j →
  seen !! i = Some (Fin m) → seen !! j = Some (Fin m) →
  (∀ k d, seen !! k = Some d → Distance_ltb d (Fin m) = false) →
  (∀ k, k < i → seen !! k ≠ Some (Fin m)) →
  selected (dispatch this event).2 = Some first
  ∧ selected (dispatch (dispatch this event).1 event).2 = Some first
  ∧ (enableDistanceCache this = false
     ∨ cacheFaithful (distanceCache this) (ev_target event) handlers →
     seen = ((λ h, calculateDOMDistance (ev_target event) (hi_element h))
             <$> handlers)
     ∧ ∀ other_run,
         eventHandlerMap other_run !! ev_type event = Some handlers →
         enableDistanceCache other_run = false
         ∨ cacheFaithful (distanceCache other_run) (ev_target event) handlers →
         selected (dispatch other_run event).2 = Some first).
Proof.
  intros seen Hmap Hi Hj Hij Hsi Hsj Hmin Hfirst.
  assert ((findClosestHandler (enableDistanceCache this) (distanceCache this)
             (ev_target event) handlers).1.1 = Some first) as Hsel.
  { pose proof (findClosestHandler_spec (enableDistanceCache this)
                  (distanceCache this) (ev_target event) handlers) as Hspec.
    simpl in Hspec. fold seen in Hspec.
    destruct Hspec as [[_ Hall] | (i' & h & m' & -> & Hi' & Hd' & Hle)].
    - specialize (Hall i _ Hsi). discriminate.
    - simpl. destruct (Hle i _ Hsi) as [?|(m0 & Hm0 & Hle0 & Hlt0)];
        [discriminate|]. inversion Hm0; subst m0.
      pose proof (Hmin i' _ Hd') as Hge. simpl in Hge.
      apply Nat.ltb_ge in Hge.
      assert (m' = m) as -> by lia.
      destruct (Nat.lt_trichotomy i i') as [Hlt | [-> | Hgt]].
      + specialize (Hlt0 Hlt). lia.
      + congruence.
      + by destruct (Hfirst i' Hgt). }
  destruct (handleEvent_run this event) as [Hrun Hstate].
  rewrite Hmap in Hrun, Hstate. simpl in Hrun, Hstate.
  split; [by rewrite Hrun|]. split.
  2:{ intros Hok.
      assert (seen = ((λ h, calculateDOMDistance (ev_target event)
                                                 (hi_element h))
                      <$> handlers)) as Hseen
        by (subst seen; by apply distancesSeen_true).
      split; [exact Hseen|]. intros other_run Hmap' Hok'.
      destruct (handleEvent_run other_run event) as [-> _].
      rewrite Hmap'. simpl.
      rewrite findClosestHandler_keepCloser in Hsel |- *. simpl in *.
      rewrite (distancesSeen_true _ _ _ _ Hok'). fold seen in Hsel.
      by rewrite <- Hseen. }
  destruct (handleEvent_run (dispatch this event).1 event) as [Hrun2 _].
  rewrite Hrun2, Hstate. clear Hrun2.
  destruct handlers as [|h0 hs] eqn:Eh; [by rewrite lookup_nil in Hi|].
  rewrite <- Eh in *.
  destruct (checkUserInteraction_fields this event) as (Hm & _ & He & _).
  simpl. rewrite Hm, He, Hmap. simpl.
  rewrite findClosestHandler_keepCloser. simpl.
  destruct (distancesSeen_again (enableDistanceCache this) (ev_target event)
              handlers (distanceCache this)) as [-> _].
  rewrite findClosestHandler_keepCloser in Hsel. exact Hsel.
Qed.
End Dispatch.

Lemma tie_break_first_registered_witness :
  selected (handleEvent [] noAttributes nestedClosest cardInstance click).2
  = Some cardFirst
  ∧ selected (handleEvent [] noAttributes nestedClosest
                (handleEvent [] noAttributes nestedClosest cardInstance click).1
                click).2
    = Some cardFirst
  ∧ (enableDistanceCache cardInstance = false
     ∨ cacheFaithful (distanceCache cardInstance) (ev_target click)
                     [cardFirst; cardSecond] →
     distancesSeen (enableDistanceCache cardInstance)
                   (distanceCache cardInstance) (ev_target click)
                   [cardFirst; cardSecond]
     = ((λ h, calculateDOMDistance (ev_target click) (hi_element h))
        <$> [cardFirst; cardSecond])
     ∧ ∀ other_run,
         eventHandlerMap other_run !! ev_type click
         = Some [cardFirst; cardSecond] →
         enableDistanceCache other_run = false
         ∨ cacheFaithful (distanceCache other_run) (ev_target click)
                         [cardFirst; cardSecond] →
         selected (handleEvent [] noAttributes nestedClosest other_run
                               click).2 = Some cardFirst).
Proof.
  apply (tie_break_first_registered [] noAttributes nestedClosest
           cardInstance click [cardFirst; cardSecond] 0 1 1
           cardFirst cardSecond).
  - vm_compute. reflexivity.
  - reflexivity.
  - reflexivity.
  - lia.
  - vm_compute. reflexivity.
  - vm_compute. reflexivity.
  - intros k d H.
    assert (d = Fin 1) as ->; [|reflexivity].
    destruct k as [|[|k]]; vm_compute in H; congruence.
  - intros k Hk. lia.
Defined.

(** C5. The tie-break fails on the code when a candidate ahead of the tied
    ones shares their cache key.  On the nested page with three
    registrations for [click] (the outer [div], 2 hops from the button,
    then the inner [div] twice, 1 hop each) the two registrations of the
    inner [div] are tied at the least distance, and the first of them,
    [onInner], is the one to select.  All three containers get the cache
    key [div[0]]: a click on the button, dispatched on a freshly
    constructed instance, reads the distance memoized for the outer [div]
    for all three and invokes [onOuter].  The same instance built with
    [enableDistanceCache: false] invokes [onInner]. *)
Theorem tie_break_defeated_by_cache_key :
  ∃ this b,
    tiedInstance defaultConfig = Constructed this b
    ∧ eventHandlerMap this !! "click"
      = Some [outerRegistration; innerRegistration; cardSecond]
    ∧ ((λ h, calculateDOMDistance button (hi_element h))
       <$> [outerRegistration; innerRegistration; cardSecond])
      = [Fin 2; Fin 1; Fin 1]
    ∧ distancesSeen (enableDistanceCache this) (distanceCache this) button
                    [outerRegistration; innerRegistration; cardSecond]
      = [Fin 2; Fin 2; Fin 2]
    ∧ (handleEvent [] noAttributes tiedClosest this click).2
      = Invoked outerRegistration (ClassMethod "onOuter") button
                (Some outerDiv)
    ∧ ∃ uncached b',
        tiedInstance uncachedConfig = Constructed uncached b'
        ∧ eventHandlerMap uncached !! "click"
          = Some [outerRegistration; innerRegistration; cardSecond]
        ∧ (handleEvent [] noAttributes tiedClosest uncached click).2
          = Invoked innerRegistration (ClassMethod "onInner") button
                    (Some innerDiv).
Proof.
  do 2 eexists. split; [vm_compute; reflexivity|].
  do 4 (split; [vm_compute; reflexivity|]).
  do 2 eexists. split; [vm_compute; reflexivity|].
  split; vm_compute; reflexivity.
Qed.

(** C1. Closest-match selection fails on the code when two candidates share
    a cache key.  On the example page the registrations are the outer
    [div] (2 hops from the button) and the inner [div] (1 hop); a click on
    the button, dispatched on a freshly constructed instance, invokes the
    handler of the outer one. *)
Theorem closest_match_defeated_by_cache_key :
  ∃ this b,
    nestedInstance = Constructed this b
    ∧ eventHandlerMap this !! "click"
      = Some [outerRegistration; innerRegistration]
    ∧ (handleEvent [] noAttributes nestedClosest this click).2
      = Invoked outerRegistration (ClassMethod "onOuter") button
                (Some outerDiv)
    ∧ calculateDOMDistance button (hi_element outerRegistration) = Fin 2
    ∧ calculateDOMDistance button (hi_element innerRegistration) = Fin 1.
Proof.
  do 2 eexists. split; [vm_compute; reflexivity|].
  repeat split; vm_compute; reflexivity.
Qed.

(** ** Loops keep what every round keeps *)

Lemma forEachIndexed_invariant {St X : Type} (P : St → Prop)
    (f : St → X → nat → St) (l : list X) :
  (∀ s x i, P s → P (f s x i)) →
  ∀ i s, P s → P (forEachIndexed f l i s).
Proof.
  intros Hf. induction l as [|x rest IH]; intros i s Hs; simpl; [done|].
  apply IH. by apply Hf.
Qed.

Lemma foldl_invariant {St X : Type} (P : St → Prop) (f : St → X → St)
    (l : list X) :
  (∀ s x, P s → P (f s x)) → ∀ s, P s → P (foldl f s l).
Proof.
  intros Hf. induction l as [|x rest IH]; intros s Hs; simpl; [done|].
  apply IH. by apply Hf.
Qed.

(** ** The interaction flag *)

Lemma registerEventListener_flag element eventConfig key selector s :
  userHasInteracted (registerEventListener element eventConfig key selector s).1
  = userHasInteracted s.1.
Proof. by destruct s. Qed.

Lemma registerEvents_flag querySelectorAll s :
  userHasInteracted (registerEvents querySelectorAll s).1
  = userHasInteracted s.1.
Proof.
  unfold registerEvents.
  apply (foldl_invariant
           (λ s', userHasInteracted s'.1 = userHasInteracted s.1));
    [|done].
  intros s1 [sel events] H1.
  apply (forEachIndexed_invariant
           (λ s', userHasInteracted s'.1 = userHasInteracted s.1));
    [|done].
  intros s2 element index H2.
  apply (foldl_invariant
           (λ s', userHasInteracted s'.1 = userHasInteracted s.1));
    [|done].
  intros s3 eventConfig H3. by rewrite registerEventListener_flag.
Qed.

Lemma constructor_flag querySelectorAll passiveSupport methodsOfClass
    templateText eventMapping aliases config b this b' :
  constructor querySelectorAll passiveSupport methodsOfClass
              templateText eventMapping aliases config b = Constructed this b' →
  userHasInteracted this = false.
Proof.
  unfold constructor.
  destruct (if cfg_enableConfigValidation config then _ else _); [done|].
  destruct (registerEvents _ _) as [this' b''] eqn:E. intros H.
  inversion H; subst.
  change this with (this, b').1. rewrite <- E.
  by rewrite registerEvents_flag.
Qed.

(** C10, as first worded, fails where the type of the event has no
    candidate: [handleEvent] returns before [checkUserInteraction].  A
    [keydown] on the button of the card page, for which nothing is
    registered, is no passive event and leaves the flag [false]. *)
Lemma userHasInteracted_needs_candidates :
  eventHandlerMap cardInstance !! "keydown" = None
  ∧ includes (passiveEvents cardInstance) "keydown" = false
  ∧ userHasInteracted cardInstance = false
  ∧ userHasInteracted
      (handleEvent [] noAttributes nestedClosest cardInstance
                   (mkEvent "keydown" button)).1 = false.
Proof. vm_compute. done. Qed.

(** C10, amended. The flag is [false] on a constructed instance.  Handling
    an event whose type has at least one registered candidate leaves the
    flag at [flag || type not in passiveEvents]: it becomes true exactly for
    a type outside [passiveEvents] and is unchanged for a type inside.
    Handling an event whose type has no candidate changes nothing, the flag
    included.  [hasUserInteracted] reads the flag and [resetUserInteracted]
    sets it to [false], touching nothing else. *)
Theorem userHasInteracted_flag
    (querySelectorAll : string → list Node) (passiveSupport : bool)
    (methodsOfClass windowFunctions : list string)
    (templateText : JSValue → string)
    (hasAttribute : Node → string → bool)
    (closest : Node → string → option Node)
    (this : YEH) (event : Event) :
  let after := (handleEvent windowFunctions hasAttribute closest this event).1 in
  let candidates := default [] (eventHandlerMap this !! ev_type event) in
  (∀ eventMapping aliases config b this0 b0,
     constructor querySelectorAll passiveSupport methodsOfClass templateText
                 eventMapping aliases config b = Constructed this0 b0 →
     hasUserInteracted this0 = false)
  ∧ userHasInteracted (checkUserInteraction this event)
    = userHasInteracted this
      || negb (includes (passiveEvents this) (ev_type event))
  ∧ (candidates ≠ [] →
     userHasInteracted after
     = userHasInteracted this
       || negb (includes (passiveEvents this) (ev_type event)))
  ∧ (candidates ≠ [] → userHasInteracted this = false →
     (userHasInteracted after = true
      ↔ includes (passiveEvents this) (ev_type event) = false))
  ∧ (candidates ≠ [] →
     includes (passiveEvents this) (ev_type event) = true →
     userHasInteracted after = userHasInteracted this)
  ∧ (candidates = [] → after = this)
  ∧ hasUserInteracted this = userHasInteracted this
  ∧ resetUserInteracted this = setUserHasInteracted false this
  ∧ hasUserInteracted (resetUserInteracted this) = false.
Proof.
  intros after candidates.
  assert (candidates ≠ [] →
          userHasInteracted after
          = userHasInteracted this
            || negb (includes (passiveEvents this) (ev_type event)))
    as Hafter.
  { intros Hne. subst after.
    destruct (handleEvent_run windowFunctions hasAttribute closest this event)
      as [_ ->].
    fold candidates. destruct candidates; [done|]. simpl.
    apply checkUserInteraction_flag. }
  split; [intros; by eapply constructor_flag|].
  split; [apply checkUserInteraction_flag|].
  split; [done|]. split; [|split; [|split; [|done]]].
  - intros Hne Hfalse. rewrite (Hafter Hne), Hfalse. simpl.
    by destruct (includes _ _).
  - intros Hne Hp. rewrite (Hafter Hne), Hp. simpl. by rewrite orb_false_r.
  - intros Hnil. subst after.
    destruct (handleEvent_run windowFunctions hasAttribute closest this event)
      as [_ ->].
    fold candidates. by rewrite Hnil.
Qed.

Lemma userHasInteracted_flag_witness :
  userHasInteracted
    (handleEvent [] noAttributes nestedClosest cardInstance click).1 = true
  ∧ userHasInteracted
      (handleEvent [] noAttributes nestedClosest
                   (setEventHandlerMap
                      {["scroll" := [cardFirst]]} cardInstance)
                   (mkEvent "scroll" button)).1 = false
  ∧ (handleEvent [] noAttributes nestedClosest cardInstance
                 (mkEvent "keydown" button)).1 = cardInstance.
Proof.
  split; [|split].
  - destruct (userHasInteracted_flag cardPage true [] [] plainText
                noAttributes nestedClosest cardInstance click)
      as (_ & _ & H & _).
    rewrite H; [vm_compute; reflexivity | by vm_compute].
  - destruct (userHasInteracted_flag cardPage true [] [] plainText
                noAttributes nestedClosest
                (setEventHandlerMap {["scroll" := [cardFirst]]} cardInstance)
                (mkEvent "scroll" button))
      as (_ & _ & H & _).
    rewrite H; [vm_compute; reflexivity | by vm_compute].
  - destruct (userHasInteracted_flag cardPage true [] [] plainText
                noAttributes nestedClosest cardInstance
                (mkEvent "keydown" button))
      as (_ & _ & _ & _ & _ & H & _).
    apply H. by vm_compute.
Defined.

(** ** The registry *)

Lemma objGet_objSet_eq {V : Type} (o : list (string * V)) k v :
  objGet (objSet o k v) k = Some v.
Proof.
  induction o as [|[k' v'] rest IH]; simpl.
  - by rewrite decide_True.
  - destruct (decide (k' = k)); simpl.
    + by rewrite decide_True.
    + by rewrite decide_False.
Qed.


Lemma objSet_same {V : Type} (o : list (string * V)) k v :
  objGet o k = Some v → objSet o k v = o.
Proof.
  induction o as [|[k' v'] rest IH]; simpl; [done|].
  destruct (decide (k' = k)) as [->|Hk]; intros H.
  - by inversion H.
  - by rewrite IH.
Qed.




Lemma configType_normalize eventConfig :
  configType (normalize eventConfig) = configType eventConfig.
Proof. by destruct eventConfig. Qed.

(** Filtering by event type: nothing goes when no configuration has the
    type, something goes when one has. *)
Lemma filter_type_none configs eventType :
  existsb (λ c, bool_decide (configType c = eventType)) configs = false →
  filter (λ c, configType c ≠ eventType) configs = configs.
Proof.
  induction configs as [|c rest IH]; simpl; [done|].
  intros H. apply orb_false_iff in H as [Hc Hrest].
  apply bool_decide_eq_false in Hc.
  rewrite filter_cons, decide_True by done. by rewrite IH.
Qed.



(** Registering and unregistering listeners leaves [eventMapping] alone. *)
Lemma registerEventListener_eventMapping element eventConfig key selector s :
  eventMapping (registerEventListener element eventConfig key selector s).1
  = eventMapping s.1.
Proof. by destruct s. Qed.

Lemma registerSingleEvent_eventMapping querySelectorAll selector eventConfig s :
  eventMapping (registerSingleEvent querySelectorAll selector eventConfig s).1
  = eventMapping s.1.
Proof.
  unfold registerSingleEvent.
  apply (forEachIndexed_invariant
           (λ s', eventMapping s'.1 = eventMapping s.1)); [|done].
  intros s1 element index H1. destruct (eventListeners s1.1 !! _); [done|].
  by rewrite registerEventListener_eventMapping.
Qed.

Lemma cleanupEventTimers_eventMapping key eventType s :
  eventMapping (cleanupEventTimers key eventType s).1 = eventMapping s.1.
Proof.
  destruct s as [this b]. unfold cleanupEventTimers.
  destruct (throttleTimers this !! _); simpl;
    destruct (debounceTimers _ !! _); done.
Qed.

Lemma unregisterElement_eventMapping selector eventType s element index :
  eventMapping (unregisterElement selector eventType s element index).1
  = eventMapping s.1.
Proof.
  destruct s as [this b]. unfold unregisterElement.
  rewrite cleanupEventTimers_eventMapping. simpl.
  destruct (weakGet _ _) as [events|]; [|done].
  by destruct (filter _ events).
Qed.

Lemma cleanHandlerMap_eventMapping eventType this element :
  eventMapping (cleanHandlerMap eventType this element) = eventMapping this.
Proof.
  unfold cleanHandlerMap. destruct (eventHandlerMap this !! _) as [hs|]; [|done].
  by destruct (filter _ hs).
Qed.

Lemma unregisterSingleEvent_eventMapping querySelectorAll selector eventType s :
  eventMapping (unregisterSingleEvent querySelectorAll selector eventType s).1
  = eventMapping s.1.
Proof.
  unfold unregisterSingleEvent.
  destruct (forEachIndexed _ _ _ _) as [this1 b1] eqn:E. simpl.
  transitivity (eventMapping this1).
  - apply (foldl_invariant (λ t, eventMapping t = eventMapping this1));
      [|done].
    intros t el Ht. by rewrite cleanHandlerMap_eventMapping.
  - change this1 with (this1, b1).1. rewrite <- E.
    apply (forEachIndexed_invariant
             (λ s', eventMapping s'.1 = eventMapping s.1)); [|done].
    intros s1 el i H1. by rewrite unregisterElement_eventMapping.
Qed.

(** The candidates of [eventType]. *)
Lemma cleanHandlerMap_candidates eventType this element :
  default [] (eventHandlerMap (cleanHandlerMap eventType this element)
                !! eventType)
  = filter (λ h, hi_element h ≠ element)
           (default [] (eventHandlerMap this !! eventType)).
Proof.
  unfold cleanHandlerMap.
  destruct (eventHandlerMap this !! eventType) as [hs|] eqn:E; simpl.
  - destruct (filter _ hs) as [|h rest] eqn:Ef; simpl.
    + by rewrite lookup_delete_eq.
    + by rewrite lookup_insert_eq.
  - by rewrite E.
Qed.

Lemma cleanHandlerMap_all eventType elements :
  ∀ this h,
    h ∈ default [] (eventHandlerMap (foldl (cleanHandlerMap eventType) this
                                           elements) !! eventType) →
    (hi_element h ∉ elements)
    ∧ h ∈ default [] (eventHandlerMap this !! eventType).
Proof.
  induction elements as [|el rest IH]; intros this h Hh; simpl in *.
  - split; [apply not_elem_of_nil|done].
  - destruct (IH _ h Hh) as [Hrest Hin].
    rewrite cleanHandlerMap_candidates in Hin.
    apply list_elem_of_filter in Hin as [Hne Hin].
    split; [|done]. by apply not_elem_of_cons.
Qed.


(** ** Teardown *)

Lemma clearBrowserTimeout_cancelled id b : cancelled id (clearBrowserTimeout id b).
Proof.
  unfold cancelled. simpl. intros H.
  apply list_elem_of_fmap in H as (t & Ht & Hin).
  apply list_elem_of_filter in Hin as [Hne _]. done.
Qed.

Lemma clearBrowserTimeout_keeps id id' b :
  cancelled id b → cancelled id (clearBrowserTimeout id' b).
Proof.
  unfold cancelled. simpl. intros Hc H. apply Hc.
  apply list_elem_of_fmap in H as (t & Ht & Hin).
  apply list_elem_of_filter in Hin as [_ Hin].
  apply list_elem_of_fmap. eauto.
Qed.

Lemma clearBrowserTimeout_objects id b :
  objects (host (clearBrowserTimeout id b)) = objects (host b).
Proof. reflexivity. Qed.

Lemma clearTimerData_keeps id timerData b :
  cancelled id b → cancelled id (clearTimerData timerData b).
Proof.
  intros H. unfold clearTimerData.
  destruct (trailingTimeout timerData) as [t|];
    destruct (timeout timerData =? 0); try destruct (t =? 0);
    repeat apply clearBrowserTimeout_keeps; done.
Qed.

Lemma clearTimerData_objects timerData b :
  objects (host (clearTimerData timerData b)) = objects (host b).
Proof.
  unfold clearTimerData.
  destruct (trailingTimeout timerData) as [t|];
    destruct (timeout timerData =? 0); try destruct (t =? 0); done.
Qed.

Lemma clearTimerData_cancelled timerData b :
  (timeout timerData ≠ 0 →
   cancelled (timeout timerData) (clearTimerData timerData b))
  ∧ ∀ t, trailingTimeout timerData = Some t → t ≠ 0 →
         cancelled t (clearTimerData timerData b).
Proof.
  unfold clearTimerData. split.
  - intros Hne. apply Nat.eqb_neq in Hne. rewrite Hne.
    destruct (trailingTimeout timerData) as [t|];
      [destruct (t =? 0); [|apply clearBrowserTimeout_keeps]|];
      apply clearBrowserTimeout_cancelled.
  - intros t0 -> Hne. apply Nat.eqb_neq in Hne. rewrite Hne.
    apply clearBrowserTimeout_cancelled.
Qed.

(** The loop over [debounceTimers]. *)
Lemma clear_debounce_timers (m : gmap string nat) b :
  let b' := map_fold (λ _ timerId b, clearBrowserTimeout timerId b) b m in
  (∀ id, cancelled id b → cancelled id b')
  ∧ ∀ key id, m !! key = Some id → cancelled id b'.
Proof.
  simpl.
  apply (map_fold_weak_ind
           (λ b' m, (∀ id, cancelled id b → cancelled id b')
                    ∧ ∀ key id, m !! key = Some id → cancelled id b')).
  - split; [done|]. intros key id H. by rewrite lookup_empty in H.
  - intros key id m' r Hfresh [Hkeep Hall]. split.
    + intros id' H. apply clearBrowserTimeout_keeps. by apply Hkeep.
    + intros key' id' H. destruct (decide (key = key')) as [->|Hne].
      * rewrite lookup_insert_eq in H. inversion H; subst.
        apply clearBrowserTimeout_cancelled.
      * rewrite lookup_insert_ne in H by done.
        apply clearBrowserTimeout_keeps. by eapply Hall.
Qed.

(** The loop over [throttleTimers]. *)
Lemma clear_throttle_timers (m : gmap string nat) b :
  let b' := map_fold (λ _ ref b, match objects (host b) !! ref with
                                 | Some timerData => clearTimerData timerData b
                                 | None => b
                                 end) b m in
  objects (host b') = objects (host b)
  ∧ (∀ id, cancelled id b → cancelled id b')
  ∧ ∀ key ref timerData,
      m !! key = Some ref → objects (host b) !! ref = Some timerData →
      (timeout timerData ≠ 0 → cancelled (timeout timerData) b')
      ∧ ∀ t, trailingTimeout timerData = Some t → t ≠ 0 → cancelled t b'.
Proof.
  simpl.
  apply (map_fold_weak_ind
           (λ b' m,
              objects (host b') = objects (host b)
              ∧ (∀ id, cancelled id b → cancelled id b')
              ∧ ∀ key ref timerData,
                  m !! key = Some ref →
                  objects (host b) !! ref = Some timerData →
                  (timeout timerData ≠ 0 → cancelled (timeout timerData) b')
                  ∧ ∀ t, trailingTimeout timerData = Some t → t ≠ 0 →
                         cancelled t b')).
  - split; [done|]. split; [done|]. intros key ref td H.
    by rewrite lookup_empty in H.
  - intros key ref m' r Hfresh (Hobj & Hkeep & Hall). rewrite Hobj.
    split; [|split].
    + destruct (objects (host b) !! ref); [|done].
      by rewrite clearTimerData_objects.
    + intros id H. destruct (objects (host b) !! ref);
        [apply clearTimerData_keeps|]; by apply Hkeep.
    + intros key' ref' td H Htd.
      destruct (decide (key = key')) as [->|Hne].
      * rewrite lookup_insert_eq in H. inversion H; subst. rewrite Htd.
        apply clearTimerData_cancelled.
      * rewrite lookup_insert_ne in H by done.
        destruct (Hall key' ref' td H Htd) as [H1 H2].
        destruct (objects (host b) !! ref); [|done]. split.
        -- intros Hne0. apply clearTimerData_keeps. by apply H1.
        -- intros t1 Ht Hne0. apply clearTimerData_keeps. by eapply H2.
Qed.

Lemma removeTracked_host entry b : host (removeTracked entry b) = host b.
Proof.
  unfold removeTracked.
  apply (foldl_invariant (λ b', host b' = host b)); [|done].
  intros b' e H. done.
Qed.

(** What the first step of [destroy] (detaching the listeners) leaves
    alone. *)
Lemma detach_keeps (this : YEH) (b : Browser) :
  let s0 := if abortController this then abort (this, b)
            else (this, map_fold (λ _ entry b, removeTracked entry b) b
                                 (eventListeners this)) in
  host s0.2 = host b
  ∧ throttleTimers s0.1 = throttleTimers this
  ∧ debounceTimers s0.1 = debounceTimers this
  ∧ eventMapping s0.1 = eventMapping this
  ∧ userHasInteracted s0.1 = userHasInteracted this
  ∧ abortController s0.1 = false.
Proof.
  simpl. unfold abort. destruct (abortController this) eqn:E; simpl.
  - done.
  - repeat split; try done.
    apply (map_fold_weak_ind (λ b' _, host b' = host b)); [done|].
    intros key entry m r _ Hr. by rewrite removeTracked_host.
Qed.

(** What [destroy] does clear: the listener tracking map, the per-event
    handler map, the distance cache and both timer maps are empty
    afterwards, every timer those maps held is cancelled, no event finds
    a candidate, and a second [destroy] changes nothing.  [eventMapping]
    and the interaction flag stay as they were. *)
Theorem destroy_clears_tracking
    (windowFunctions : list string) (hasAttribute : Node → string → bool)
    (closest : Node → string → option Node) (s : YEH * Browser) :
  let s' := destroy s in
  (eventListeners s'.1 = ∅ ∧ eventHandlerMap s'.1 = ∅
   ∧ distanceCache s'.1 = ∅
   ∧ throttleTimers s'.1 = ∅ ∧ debounceTimers s'.1 = ∅)
  ∧ (∀ key id, debounceTimers s.1 !! key = Some id → cancelled id s'.2)
  ∧ (∀ key ref timerData,
       throttleTimers s.1 !! key = Some ref →
       objects (host s.2) !! ref = Some timerData →
       (timeout timerData ≠ 0 → cancelled (timeout timerData) s'.2)
       ∧ ∀ t, trailingTimeout timerData = Some t → t ≠ 0 → cancelled t s'.2)
  ∧ (∀ event, handleEvent windowFunctions hasAttribute closest s'.1 event
              = (s'.1, NoCandidates))
  ∧ destroy s' = s'
  ∧ eventMapping s'.1 = eventMapping s.1
  ∧ (∀ target eventType,
       hasEvent s'.1 target eventType = hasEvent s.1 target eventType)
  ∧ userHasInteracted s'.1 = userHasInteracted s.1.
Proof.
  destruct s as [this b]. simpl.
  assert (eventMapping (destroy (this, b)).1 = eventMapping this) as Hmapping.
  { unfold destroy. simpl.
    destruct (detach_keeps this b) as (_ & _ & _ & Hm & _).
    simpl in Hm. by destruct (if abortController this then _ else _). }
  split; [|split; [|split; [|split; [|split; [|split; [|split]]]]]].
  - unfold destroy. simpl.
    by destruct (if abortController this then _ else _).
  - intros key id Hid. unfold destroy. simpl.
    destruct (detach_keeps this b) as (_ & _ & Hd & _). simpl in Hd.
    destruct (if abortController this then _ else _) as [this0 b0].
    simpl in *. rewrite Hd.
    by eapply (clear_debounce_timers (debounceTimers this)).
  - intros key ref td Href Htd. unfold destroy. simpl.
    destruct (detach_keeps this b) as (Hh & Ht & _). simpl in Hh, Ht.
    destruct (if abortController this then _ else _) as [this0 b0].
    simpl in *. rewrite Ht.
    destruct (clear_throttle_timers (throttleTimers this) b0)
      as (_ & _ & Hall). simpl in Hall.
    rewrite Hh in Hall. destruct (Hall key ref td Href Htd) as [H1 H2].
    split.
    + intros Hne. apply clear_debounce_timers. by apply H1.
    + intros t Htr Hne. apply clear_debounce_timers. by eapply H2.
  - intros event. unfold handleEvent.
    assert (eventHandlerMap (destroy (this, b)).1 = ∅) as ->.
    { unfold destroy. simpl.
      by destruct (if abortController this then _ else _). }
    by rewrite lookup_empty.
  - unfold destroy at 1. simpl.
    assert (abortController (destroy (this, b)).1 = false) as Hac.
    { unfold destroy. simpl.
      destruct (detach_keeps this b) as (_ & _ & _ & _ & _ & Hac).
      simpl in Hac. by destruct (if abortController this then _ else _). }
    rewrite Hac.
    assert (eventListeners (destroy (this, b)).1 = ∅
            ∧ throttleTimers (destroy (this, b)).1 = ∅
            ∧ debounceTimers (destroy (this, b)).1 = ∅
            ∧ eventHandlerMap (destroy (this, b)).1 = ∅
            ∧ distanceCache (destroy (this, b)).1 = ∅)
      as (Hl & Ht & Hd & Hh & Hc).
    { unfold destroy. simpl.
      by destruct (if abortController this then _ else _). }
    destruct (destroy (this, b)) as [[ ] b']. simpl in *. subst.
    by rewrite !map_fold_empty.
  - done.
  - intros target eventType. unfold hasEvent. by rewrite Hmapping.
  - unfold destroy. simpl.
    destruct (detach_keeps this b) as (_ & _ & _ & _ & Hu & _). simpl in Hu.
    by destruct (if abortController this then _ else _).
Qed.

(** C9. Teardown fails on the code in two places.  [destroy] never touches
    [eventMapping]: on the instance built from
    [{ '#a > div': [{ type: 'mousemove', throttle: 100 }] }] the pair is
    still reported by [hasEvent] after [destroy], and [addEvent] for it
    answers [false], although no candidate and no listener is left.  And
    [destroy] cancels only the timers its maps hold: after a [mousemove]
    at 0 and another at 10 the cooldown timer has dropped the key from
    [throttleTimers] at 100, the trailing timer set at 10 is still
    pending, [destroy] at 105 leaves it pending, and at 110 it calls
    [handleEvent] on the destroyed instance. *)
Theorem destroy_leaves_registrations :
  ∃ this b,
    throttledInstance = Constructed this b
    ∧ listeners b
      = [mkDomListener (node outerDiv) "mousemove"
                       (Throttled (Finite 100) mousemoveKey) OptionsFalse]
    ∧ throttleTimers (movedOver (this, b)).1 = ∅
    ∧ timerId <$> pending (host (movedOver (this, b)).2) = [2]
    ∧ let destroyed := destroy (movedOver (this, b)) in
      eventListeners destroyed.1 = ∅
      ∧ eventHandlerMap destroyed.1 = ∅
      ∧ listeners destroyed.2 = []
      ∧ hasEvent destroyed.1 "#a > div" "mousemove" = true
      ∧ (addEvent nestedPage "#a > div" (ConfigString "mousemove")
                  destroyed).1 = false
      ∧ pending (host destroyed.2)
        = [mkPendingTimer 2 110 (TrailingEdge tt mousemoveKey 0)]
      ∧ executions (host destroyed.2) = [(0, tt, mousemove)]
      ∧ executions (host (elapse 110 destroyed).2)
        = [(0, tt, mousemove); (110, tt, mousemove)].
Proof.
  do 2 eexists. split; [vm_compute; reflexivity|].
  repeat split; vm_compute; reflexivity.
Qed.

(** ** Configuration validation *)

Lemma validType_test ty :
  negb (truthy ty) || negb (isString ty) = false ↔ validType ty.
Proof.
  unfold validType. split.
  - destruct ty as [| |b|n|t|l|o|f]; simpl; try (destruct b); try done;
      try (by rewrite orb_true_r).
    destruct t; simpl; [done|]. intros _. eexists. split; done.
  - intros (t & -> & Ht). simpl. by destruct t.
Qed.

Lemma faultyRate_test v :
  v ≠ JSNumeric NaN →
  negb (isUndefined v) && notPositiveNumber v = true ↔ faultyRate v.
Proof.
  intros Hnan. unfold faultyRate.
  assert (∀ w, w ≠ JSUndefined → positiveNumber w = False →
               negb (isUndefined w) && true = true
               ↔ w ≠ JSUndefined ∧ ¬ positiveNumber w) as Hother.
  { intros w Hw ->. destruct w; simpl; try done; split; auto. }
  destruct v as [| |b|n|t|l|o|f]; simpl.
  - split; [done|]. by intros [? _].
  - by apply (Hother JSNull).
  - by apply (Hother (JSBoolean b)).
  - destruct n as [|z| |]; simpl.
    + done.
    + split.
      * intros H. apply Z.leb_le in H. split; [done|]. lia.
      * intros [_ H]. apply Z.leb_le. lia.
    + split; [done|]. intros [_ H]. by destruct H.
    + split; [intros _; split; [done|tauto] | done].
  - by apply (Hother (JSString t)).
  - by apply (Hother (JSArray l)).
  - by apply (Hother (JSObject o)).
  - by apply (Hother (JSFunction f)).
Qed.

Lemma faultyHandler_test h :
  negb (isUndefined h) && negb (isString h) = true
  ↔ h ≠ JSUndefined ∧ isString h = false.
Proof.
  destruct h; simpl; split; try done; try (by intros [? ?]); by split.
Qed.

Lemma validateEventConfig_fault selector e index :
  getProperty e "throttle" ≠ JSNumeric NaN →
  getProperty e "debounce" ≠ JSNumeric NaN →
  validateEventConfig selector e index ≠ None ↔ faultyEntry e.
Proof.
  intros Ht Hd. unfold faultyEntry.
  destruct e as [| |b|n|t|l|props|f].
  - simpl. split; [intros _; by left | done].
  - simpl. split; [intros _; by left | done].
  - simpl. destruct b; split; try done; intros _; by left.
  - simpl. rewrite orb_true_r. split; [intros _; by left | done].
  - simpl. destruct (isBlank t) eqn:E; split; try done.
    + intros _. by left.
    + intros [H|H]; [done|destruct H].
  - simpl. split; [intros _; by left | done].
  - pose proof (validType_test (getProperty (JSObject props) "type")) as Hty.
    pose proof (faultyRate_test _ Ht) as Hth.
    pose proof (faultyRate_test _ Hd) as Hdb.
    pose proof (faultyHandler_test (getProperty (JSObject props) "handler"))
      as Hh.
    unfold validateEventConfig, listedEntryFault, faultyHandler.
    change (negb (truthy (JSObject props))
            || negb (String.eqb (typeof (JSObject props)) "object"))
      with false. cbv iota.
    destruct (negb (truthy (getProperty (JSObject props) "type"))
              || negb (isString (getProperty (JSObject props) "type")))
      eqn:E1.
    { split; [|done]. intros _. left. left. intros Hv.
      apply Hty in Hv. congruence. }
    destruct (negb (isUndefined (getProperty (JSObject props) "throttle"))
              && notPositiveNumber (getProperty (JSObject props) "throttle"))
      eqn:E2.
    { split; [|done]. intros _. left. right. left. by apply Hth. }
    destruct (negb (isUndefined (getProperty (JSObject props) "debounce"))
              && notPositiveNumber (getProperty (JSObject props) "debounce"))
      eqn:E3.
    { split; [|done]. intros _. left. right. right. left. by apply Hdb. }
    destruct (truthy (getProperty (JSObject props) "throttle")
              && truthy (getProperty (JSObject props) "debounce")) eqn:E4.
    { split; [|done]. intros _. left. right. right. right.
      by apply andb_true_iff in E4. }
    destruct (negb (isUndefined (getProperty (JSObject props) "handler"))
              && negb (isString (getProperty (JSObject props) "handler")))
      eqn:E5.
    { split; [|done]. intros _. right. by apply Hh. }
    split; [done|]. intros [[H|[H|[H|H]]]|H].
    + destruct H. by apply Hty.
    + apply Hth in H. congruence.
    + apply Hdb in H. congruence.
    + destruct H as [H1 H2]. rewrite H1, H2 in E4. done.
    + apply Hh in H. congruence.
  - simpl. split; [intros _; by left | done].
Qed.

Lemma validateEach_fault selector items :
  (∀ e, e ∈ items → getProperty e "throttle" ≠ JSNumeric NaN
                    ∧ getProperty e "debounce" ≠ JSNumeric NaN) →
  ∀ index,
    validateEach selector items index ≠ None
    ↔ ∃ e, e ∈ items ∧ faultyEntry e.
Proof.
  induction items as [|e rest IH]; intros Hnan index; simpl.
  - split; [done|]. intros (e & He & _). by apply elem_of_nil in He.
  - destruct (Hnan e) as [Ht Hd]; [by left|].
    pose proof (validateEventConfig_fault selector e index Ht Hd) as He.
    destruct (validateEventConfig selector e index) as [err|].
    + split; [|done]. intros _. exists e. split; [by left|]. by apply He.
    + rewrite IH by (intros; apply Hnan; by right). split.
      * intros (e' & Hin & Hf). exists e'. split; [by right|done].
      * intros (e' & Hin & Hf). apply elem_of_cons in Hin as [->|Hin].
        -- apply He in Hf. done.
        -- by exists e'.
Qed.

Lemma validateSelectorConfig_fault selector config :
  (∀ items e, config = JSArray items → e ∈ items →
              getProperty e "throttle" ≠ JSNumeric NaN
              ∧ getProperty e "debounce" ≠ JSNumeric NaN) →
  validateSelectorConfig selector config ≠ None
  ↔ faultyConfig faultyEntry selector config.
Proof.
  intros Hnan. unfold validateSelectorConfig, faultyConfig.
  destruct selector as [|c r]; simpl.
  { split; [by left|done]. }
  destruct config as [| |b|n|t|items|props|f];
    try (split; [intros _; by right | done]).
  destruct items as [|e rest].
  { split; [intros _; by right | done]. }
  rewrite validateEach_fault by (intros; by eapply Hnan).
  split; [by right|]. by intros [?|?].
Qed.

Lemma validateSelectors_fault (mapping : list (string * JSValue)) :
  (∀ selector items e, (selector, JSArray items) ∈ mapping → e ∈ items →
                       getProperty e "throttle" ≠ JSNumeric NaN
                       ∧ getProperty e "debounce" ≠ JSNumeric NaN) →
  validateSelectors mapping ≠ None
  ↔ ∃ selector config, (selector, config) ∈ mapping
                       ∧ faultyConfig faultyEntry selector config.
Proof.
  induction mapping as [|[selector config] rest IH]; intros Hnan; simpl.
  - split; [done|]. intros (? & ? & H & _). by apply elem_of_nil in H.
  - assert (validateSelectorConfig selector config ≠ None
            ↔ faultyConfig faultyEntry selector config) as Hc.
    { apply validateSelectorConfig_fault. intros items e -> He.
      eapply Hnan; [by left|done]. }
    destruct (validateSelectorConfig selector config) as [err|].
    + split; [|done]. intros _. exists selector, config.
      split; [by left|]. by apply Hc.
    + rewrite IH by (intros; eapply Hnan; [by right|done]). split.
      * intros (s' & c' & Hin & Hf). exists s', c'. split; [by right|done].
      * intros (s' & c' & Hin & Hf). apply elem_of_cons in Hin as [Heq|Hin].
        -- inversion Heq; subst. apply Hc in Hf. done.
        -- by exists s', c'.
Qed.

Lemma validateStringArray_fault v notArray invalid :
  validateStringArray v notArray invalid ≠ None ↔ faultyStringArray v.
Proof.
  unfold faultyStringArray.
  destruct v as [| |b|n|t|items|props|f]; simpl;
    try (split; [intros _; split; [done|]; by intros (? & ? & _) | done]).
  - split; [done|]. by intros [? _].
  - destruct (forallb _ items) eqn:E.
    + split; [done|]. intros [_ H]. destruct H. exists items. split; [done|].
      intros x Hx. rewrite forallb_forall in E.
      apply list_elem_of_In in Hx. specialize (E x Hx).
      destruct x; try done. eexists. split; [done|].
      by apply negb_true_iff.
    + split; [|done]. intros _. split; [done|].
      intros (items' & Heq & Hall). inversion Heq; subst items'.
      assert (forallb (λ x, match x with
                            | JSString s => negb (isBlank s)
                            | _ => false
                            end) items = true) as Habs; [|congruence].
      apply forallb_forall. intros x Hx. apply list_elem_of_In in Hx.
      destruct (Hall x Hx) as (s0 & -> & Hs). by rewrite Hs.
Qed.

Lemma orElse_fault a b : orElse a b ≠ None ↔ a ≠ None ∨ b ≠ None.
Proof. destruct a; simpl; split; auto. by intros [?|?]. Qed.

Lemma validateActionableConfig_fault config :
  validateActionableConfig config ≠ None ↔ faultyOptions config.
Proof.
  unfold validateActionableConfig, faultyOptions.
  rewrite !orElse_fault, !validateStringArray_fault.
  assert ((match cfg_enableActionableTargets config with
           | JSUndefined | JSBoolean _ => None
           | _ => Some EnableActionableTargetsNotBoolean
           end ≠ None)
          ↔ cfg_enableActionableTargets config ≠ JSUndefined
            ∧ ∀ b, cfg_enableActionableTargets config ≠ JSBoolean b) as ->.
  { destruct (cfg_enableActionableTargets config); split; try done;
      try (by intros [? _]).
    intros [_ H]. by destruct (H b). }
  assert ((match cfg_handlerPrefix config with
           | JSUndefined | JSString _ => None
           | _ => Some HandlerPrefixNotString
           end ≠ None)
          ↔ cfg_handlerPrefix config ≠ JSUndefined
            ∧ isString (cfg_handlerPrefix config) = false) as ->.
  { destruct (cfg_handlerPrefix config); simpl; split; try done;
      by intros [? ?]. }
  done.
Qed.

Lemma validateConfiguration_fault eventMapping config :
  ratesAreNumbers eventMapping →
  validateConfiguration eventMapping config ≠ None
  ↔ faultyMapping faultyEntry eventMapping ∨ faultyOptions config.
Proof.
  intros Hnan. unfold validateConfiguration, faultyMapping.
  destruct (truthy eventMapping) eqn:Et; simpl;
    [|split; [intros _; left; by left | done]].
  destruct (String.eqb (typeof eventMapping) "object") eqn:Eo; simpl.
  - apply String.eqb_eq in Eo.
    rewrite orElse_fault, validateActionableConfig_fault,
      (validateSelectors_fault _ Hnan).
    split.
    + intros [H|H]; [left; right; by right | by right].
    + intros [[H|[H|H]]|H]; [done|done|by left|by right].
  - apply String.eqb_neq in Eo. split; [|done].
    intros _. left. right. by left.
Qed.

(** C7, amended. For an event mapping none of whose throttle or debounce
    values is [NaN]: with validation enabled the constructor throws
    exactly when the mapping is not a non-null object, a selector is
    empty, a selector's list is not an array or is empty, an entry is a
    blank string, is neither a string nor a non-null object or has no
    non-empty string [type], a throttle or debounce value is present but
    not a positive number, both are set, a [handler] is present but not a
    string, or one of the actionable options or [handlerPrefix] has the
    wrong type; with validation disabled it does not throw; and when it
    throws the browser is as before: no listener was attached. *)
Theorem constructor_throws_exactly
    (querySelectorAll : string → list Node) (passiveSupport : bool)
    (methodsOfClass : list string) (templateText : JSValue → string)
    (eventMapping : JSValue)
    (aliases : list (string * list (string * string))) (config : Config)
    (b : Browser) :
  let mapping := match eventMapping with
                 | JSUndefined => JSObject []
                 | _ => eventMapping
                 end in
  let outcome := constructor querySelectorAll passiveSupport methodsOfClass
                             templateText eventMapping aliases config b in
  ratesAreNumbers mapping →
  ((∃ e b', outcome = Thrown e b')
   ↔ cfg_enableConfigValidation config = true
     ∧ (faultyMapping faultyEntry mapping ∨ faultyOptions config))
  ∧ (∀ e b', outcome = Thrown e b' → b' = b).
Proof.
  intros mapping outcome Hnan. subst outcome. unfold constructor.
  fold mapping.
  pose proof (validateConfiguration_fault mapping config Hnan) as Hv.
  destruct (cfg_enableConfigValidation config); simpl.
  - destruct (validateConfiguration mapping config) as [err|].
    + split.
      * split; [intros _; split; [done|]; by apply Hv | eauto].
      * intros e b' H. by inversion H.
    + split.
      * split.
        -- intros (e & b' & H). by destruct (registerEvents _ _).
        -- intros [_ H]. apply Hv in H. done.
      * intros e b' H. by destruct (registerEvents _ _).
  - split.
    + split; [|by intros [? _]].
      intros (e & b' & H). by destruct (registerEvents _ _).
    + intros e b' H. by destruct (registerEvents _ _).
Qed.

(** C7, as stated, fails: the constructor also throws for faults the
    specification does not name.  With an empty mapping and [handlerPrefix: 42],
    and with a mapping whose only fault is [handler: 42], none of the
    listed conditions holds and the constructor throws.  And with
    [throttle: NaN], a value that is present and not a positive number,
    it does not throw. *)
Lemma constructor_throws_beyond_listed :
  ¬ faultyMapping listedEntryFault (JSObject [])
  ∧ constructor nestedPage true [] plainText (JSObject []) [] prefixConfig
                emptyPage
    = Thrown HandlerPrefixNotString emptyPage
  ∧ ¬ faultyMapping listedEntryFault handlerMapping
  ∧ constructor nestedPage true [] plainText handlerMapping [] defaultConfig
                emptyPage
    = Thrown (HandlerNotString "#app" 0) emptyPage
  ∧ faultyMapping listedEntryFault nanMapping
  ∧ instanceOf (constructor nestedPage true ["handleClick"] plainText
                            nanMapping [] defaultConfig emptyPage)
    ≠ None.
Proof.
  split; [|split; [reflexivity|split; [|split; [reflexivity|split]]]].
  - intros [H|[H|(sel & cfg & H & _)]]; [done|done|].
    by apply elem_of_nil in H.
  - intros [H|[H|(sel & cfg & H & Hf)]]; [done|done|].
    apply list_elem_of_singleton in H. inversion H; subst.
    destruct Hf as [Hf|(e & He & Hf)]; [done|].
    apply list_elem_of_singleton in He. subst e.
    destruct Hf as [Hf|[[Hf _]|[[Hf _]|[Hf _]]]]; vm_compute in Hf;
      try done.
    apply Hf. by exists "click".
  - right. right. eexists _, _. split; [by apply list_elem_of_singleton|].
    right. eexists. split; [by apply list_elem_of_singleton|].
    right. left. split; [done|]. by intros [].
  - by vm_compute.
Qed.

(** Without validation [handlerPrefix] is used as it was given: the
    number 42 names the handler [42Click]. *)
Lemma handlerPrefix_kept_as_given :
  ∃ this b,
    constructor nestedPage true [] plainText clickMapping [] unvalidatedConfig
                emptyPage
    = Constructed this b
    ∧ hi_handler <$> default [] (eventHandlerMap this !! "click")
      = ["42Click"].
Proof. do 2 eexists. split; vm_compute; reflexivity. Qed.

(** ** Debounce *)

Section Debounce.
Context {F A : Type}.
Variable fn : F.
Variable delay : nat.
Variable key : string.

Local Abbreviation debounced := (_debounceImplementation (A:=A) fn delay key).
Local Abbreviation awaiting := (awaiting (A:=A) fn delay key).

Lemma debounce_first t a :
  awaiting (debounced a (advanceTo t freshRateState)) t a [].
Proof.
  exists 1. unfold advanceTo, _debounceImplementation. simpl.
  rewrite lookup_empty. simpl. rewrite Nat.max_0_r.
  repeat split. by rewrite lookup_insert_eq.
Qed.

Lemma debounce_next s t a log t' a' :
  awaiting s t a log → t ≤ t' →
  awaiting (debounced a' (advanceTo t' s)) t' a'
           (if t + delay <=? t' then log ++ [(t + delay, fn, a)] else log).
Proof.
  intros (id & Hnow & Hpend & Hkey & Hlog) Hle.
  destruct s as [thr deb [nw nid pend objs nobj ex]]. simpl in *. subst.
  unfold advanceTo. simpl.
  destruct (t + delay <=? t') eqn:E.
  - apply Nat.leb_le in E.
    unfold _debounceImplementation, onHost, applyFunction, clearTimeout,
      setNow, setTimeout. simpl.
    rewrite lookup_delete_eq. simpl.
    rewrite filter_cons, decide_False by (simpl; auto). rewrite filter_nil.
    rewrite (Nat.max_l (t + delay) t) by lia.
    rewrite (Nat.max_l t' (t + delay)) by lia.
    exists nid. simpl. split; [done|]. split; [done|].
    split; [by rewrite lookup_insert_eq|done].
  - apply Nat.leb_gt in E.
    unfold _debounceImplementation, onHost, applyFunction, clearTimeout,
      setNow, setTimeout. simpl. rewrite Hkey. simpl.
    rewrite filter_cons, decide_False by (simpl; auto). rewrite filter_nil.
    rewrite (Nat.max_l t' t) by lia.
    exists nid. simpl. split; [done|]. split; [done|].
    split; [by rewrite lookup_insert_eq|done].
Qed.

Lemma debounce_last s t a log :
  awaiting s t a log →
  executions (rs_host (drain s)) = log ++ [(t + delay, fn, a)]
  ∧ pending (rs_host (drain s)) = [].
Proof.
  intros (id & Hnow & Hpend & Hkey & Hlog).
  destruct s as [thr deb [nw nid pend objs nobj ex]]. simpl in *. subst.
  unfold drain, advanceTo. simpl. rewrite Nat.max_0_r, Nat.leb_refl. simpl.
  rewrite filter_cons, decide_False by (simpl; auto). rewrite filter_nil.
  by rewrite (Nat.max_l (t + delay) t) by lia.
Qed.

Lemma debounce_rest calls :
  ∀ s t a log,
    awaiting s t a log → inTimeOrder ((t, a) :: calls) →
    let final :=
      drain (foldl (λ s call, debounced call.2 (advanceTo call.1 s)) s calls) in
    executions (rs_host final)
    = log ++ ((λ e, (e.1, fn, e.2)) <$> debounceExpected delay ((t, a) :: calls))
    ∧ pending (rs_host final) = [].
Proof.
  induction calls as [|[t' a'] rest IH]; intros s t a log Hs Hord.
  - simpl. by apply debounce_last.
  - destruct Hord as [Hle Hord].
    change (foldl _ s ((t', a') :: rest))
      with (foldl (λ s call, debounced call.2 (advanceTo call.1 s))
                  (debounced a' (advanceTo t' s)) rest).
    destruct (IH _ t' a' _ (debounce_next s t a log t' a' Hs Hle) Hord)
      as [Hex Hpend].
    split; [|exact Hpend]. rewrite Hex.
    change (debounceExpected delay ((t, a) :: (t', a') :: rest))
      with (if t + delay <=? t'
            then (t + delay, a) :: debounceExpected delay ((t', a') :: rest)
            else debounceExpected delay ((t', a') :: rest)).
    destruct (t + delay <=? t'); [|done].
    rewrite fmap_cons. simpl. by rewrite <- app_assoc.
Qed.

(** C6. A function debounced with delay 200 and called at times 0, 50 and
    100 runs once, at time 300, with the arguments of the call at 100, and
    no timer is left.  In general, for calls in time order under one key,
    each call cancels the timer of the call before it, and exactly those
    calls run (at their time plus the delay, with their own arguments)
    that are followed by no call before their timer is due. *)
Theorem debounce_runs_last_call (a0 a1 a2 : A) (calls : list (nat * A)) :
  (delay = 200 →
   executions (rs_host (simulate debounced [(0, a0); (50, a1); (100, a2)]))
   = [(300, fn, a2)]
   ∧ pending (rs_host (simulate debounced [(0, a0); (50, a1); (100, a2)]))
     = [])
  ∧ (inTimeOrder calls →
     executions (rs_host (simulate debounced calls))
     = ((λ e, (e.1, fn, e.2)) <$> debounceExpected delay calls)
     ∧ pending (rs_host (simulate debounced calls)) = [])
  ∧ (∀ s t a log t' a',
       awaiting s t a log → t ≤ t' → t' < t + delay →
       awaiting (debounced a' (advanceTo t' s)) t' a' log).
Proof.
  assert (∀ calls : list (nat * A),
            inTimeOrder calls →
            executions (rs_host (simulate debounced calls))
            = ((λ e, (e.1, fn, e.2)) <$> debounceExpected delay calls)
            ∧ pending (rs_host (simulate debounced calls)) = []) as Hgen.
  { intros cs Hord. unfold simulate. destruct cs as [|[t a] rest].
    - by split.
    - change (foldl _ freshRateState ((t, a) :: rest))
        with (foldl (λ s call, debounced call.2 (advanceTo call.1 s))
                    (debounced a (advanceTo t freshRateState)) rest).
      apply (debounce_rest rest _ t a [] (debounce_first t a) Hord). }
  split; [|split; [apply Hgen|]].
  - intros Hd.
    destruct (Hgen [(0, a0); (50, a1); (100, a2)]) as [Hex Hpend];
      [simpl; lia|].
    split; [|exact Hpend]. rewrite Hex. subst delay. reflexivity.
  - intros s t a log t' a' Hs Hle Hlt.
    pose proof (debounce_next s t a log t' a' Hs Hle) as H.
    assert ((t + delay <=? t') = false) as E by (apply Nat.leb_gt; lia).
    by rewrite E in H.
Qed.
End Debounce.

Lemma debounce_runs_last_call_witness :
  executions
    (rs_host (simulate (_debounceImplementation "search" 200 "input")
                       [(0, "y"); (50, "ye"); (100, "yeh")]))
  = [(300, "search", "yeh")].
Proof.
  destruct (debounce_runs_last_call "search" 200 "input" "y" "ye" "yeh" [])
    as [H _].
  by destruct (H eq_refl).
Defined.

(** ** Throttle *)

(** C3. The throttle property fails on the code.  With delay 100 and calls
    at 0, 10 and 109 the wrapped function runs three times: at 0 with the
    first arguments, at 109 with the third (the cooldown timer has removed
    the key at 100, so the call is a leading edge again) and at 110 with
    the second (the trailing timer set at 10 still fires).  For every
    delay from 1 to 300 the three calls at 0, 10 and 10 + delay - 1 give
    three executions. *)
Theorem throttle_runs_three_times {F A : Type} (fn : F) (a0 a1 a2 : A) :
  executions
    (rs_host (simulate (_throttleImplementation fn 100 "scroll")
                       [(0, a0); (10, a1); (109, a2)]))
  = [(0, fn, a0); (109, fn, a2); (110, fn, a1)]
  ∧ pending
      (rs_host (simulate (_throttleImplementation fn 100 "scroll")
                         [(0, a0); (10, a1); (109, a2)])) = []
  ∧ forallb
      (λ d, length
              (executions
                 (rs_host (simulate (_throttleImplementation fn d "scroll")
                             [(0, a0); (10, a1); (10 + d - 1, a2)])))
            =? 3)
      (seq 1 300) = true.
Proof. repeat split; vm_compute; reflexivity. Qed.

(** ** The theorems at work on the example pages *)

Lemma destroy_clears_tracking_witness :
  cancelled 1 (destroy timerState).2
  ∧ destroy (destroy timerState) = destroy timerState.
Proof.
  destruct (destroy_clears_tracking [] noAttributes nestedClosest timerState)
    as (_ & Hdebounce & _ & _ & Hagain & _).
  split; [|exact Hagain].
  apply (Hdebounce "k"). vm_compute. reflexivity.
Defined.

Lemma constructor_throws_exactly_witness :
  ((∃ e b', constructor nestedPage true [] plainText handlerMapping []
                        defaultConfig emptyPage = Thrown e b')
   ↔ cfg_enableConfigValidation defaultConfig = true
     ∧ (faultyMapping faultyEntry handlerMapping ∨ faultyOptions defaultConfig))
  ∧ (∀ e b', constructor nestedPage true [] plainText handlerMapping []
                         defaultConfig emptyPage = Thrown e b' →
              b' = emptyPage).
Proof.
  apply (constructor_throws_exactly nestedPage true [] plainText
           handlerMapping [] defaultConfig emptyPage).
  intros selector items e Hin He.
  apply list_elem_of_singleton in Hin. inversion Hin; subst.
  apply list_elem_of_singleton in He. subst e.
  vm_compute. split; discriminate.
Defined.

(** * Further properties of the code *)

(** ** Distances between nested containers *)

Lemma ancestor_compose j k n m c :
  ancestor j n = Some m → ancestor k m = Some c → ancestor (j + k) n = Some c.
Proof.
  revert n. induction j as [|j IH]; intros n Hj Hk; simpl in *.
  - by inversion Hj; subst.
  - destruct (parentNode n) as [p|]; [|done]. by apply IH.
Qed.

Lemma ancestor_split j k n c :
  ancestor (j + k) n = Some c →
  ∃ m, ancestor j n = Some m ∧ ancestor k m = Some c.
Proof.
  revert n. induction j as [|j IH]; intros n H; simpl in *.
  - by exists n.
  - destruct (parentNode n) as [p|]; [|done]. by apply IH.
Qed.

Lemma distance_of_ancestor k t c :
  c ≠ Document → ancestor k t = Some c →
  calculateDOMDistance t (node c) = Fin k.
Proof.
  intros Hdoc Hk. unfold calculateDOMDistance.
  rewrite decide_False by done.
  assert (contains c t = true) as -> by (apply contains_ancestor; eauto).
  simpl. by rewrite (climb_ancestor k t c 0 Hk).
Qed.

(** X1. For an element container that contains the target, the distance is the
    difference of the two depths in the tree. *)
Theorem distance_is_depth_difference (t c : Node) :
  c ≠ Document → contains c t = true →
  calculateDOMDistance t (node c) = Fin (depth t - depth c)
  ∧ depth c ≤ depth t.
Proof.
  intros Hdoc Hin. apply contains_ancestor in Hin as [k Hk].
  pose proof (ancestor_depth k t c Hk) as Hd.
  rewrite (distance_of_ancestor k t c Hdoc Hk).
  split; [f_equal|]; lia.
Qed.

Lemma distance_is_depth_difference_witness :
  calculateDOMDistance button (node outerDiv) = Fin (depth button - depth outerDiv)
  ∧ depth outerDiv ≤ depth button.
Proof.
  apply (distance_is_depth_difference button outerDiv);
    [discriminate | vm_compute; reflexivity].
Defined.

(** X2. Distances add up along nested containers: through a container [m]
    between the target and an outer container [c], the distance to [c] is
    the distance to [m] plus the distance from [m] to [c]. *)
Theorem distance_adds_up (t m c : Node) :
  m ≠ Document → c ≠ Document →
  contains m t = true → contains c m = true →
  ∃ k1 k2,
    calculateDOMDistance t (node m) = Fin k1
    ∧ calculateDOMDistance m (node c) = Fin k2
    ∧ calculateDOMDistance t (node c) = Fin (k1 + k2).
Proof.
  intros Hm Hc Htm Hmc.
  apply contains_ancestor in Htm as [k1 H1].
  apply contains_ancestor in Hmc as [k2 H2].
  exists k1, k2.
  rewrite (distance_of_ancestor k1 t m Hm H1),
    (distance_of_ancestor k2 m c Hc H2),
    (distance_of_ancestor (k1 + k2) t c Hc (ancestor_compose _ _ _ _ _ H1 H2)).
  done.
Qed.

Lemma distance_adds_up_witness :
  ∃ k1 k2,
    calculateDOMDistance button (node innerDiv) = Fin k1
    ∧ calculateDOMDistance innerDiv (node panel) = Fin k2
    ∧ calculateDOMDistance button (node panel) = Fin (k1 + k2).
Proof.
  apply (distance_adds_up button innerDiv panel);
    [discriminate | discriminate | vm_compute; reflexivity ..].
Defined.

(** X3. Two different element containers of one target are nested in one
    another and never at the same distance; the inner one is strictly
    closer.  So a tie between candidates needs the same element twice, or
    [document]/[window]. *)
Theorem distinct_containers_never_tie (t c1 c2 : Node) :
  c1 ≠ Document → c2 ≠ Document → c1 ≠ c2 →
  contains c1 t = true → contains c2 t = true →
  calculateDOMDistance t (node c1) ≠ calculateDOMDistance t (node c2)
  ∧ (contains c1 c2 = true ∨ contains c2 c1 = true)
  ∧ (contains c1 c2 = true →
     Distance_ltb (calculateDOMDistance t (node c2))
                  (calculateDOMDistance t (node c1)) = true).
Proof.
  intros Hd1 Hd2 Hne H1 H2.
  apply contains_ancestor in H1 as [k1 H1].
  apply contains_ancestor in H2 as [k2 H2].
  rewrite (distance_of_ancestor k1 t c1 Hd1 H1),
    (distance_of_ancestor k2 t c2 Hd2 H2).
  split; [|split].
  - intros Heq. inversion Heq; subst. congruence.
  - destruct (Nat.le_gt_cases k1 k2) as [Hle|Hgt].
    + right. replace k2 with (k1 + (k2 - k1)) in H2 by lia.
      apply ancestor_split in H2 as (m & Hm & Hrest).
      apply contains_ancestor. exists (k2 - k1). congruence.
    + left. replace k1 with (k2 + (k1 - k2)) in H1 by lia.
      apply ancestor_split in H1 as (m & Hm & Hrest).
      apply contains_ancestor. exists (k1 - k2). congruence.
  - intros Hin. apply contains_ancestor in Hin as [j Hj].
    pose proof (ancestor_compose _ _ _ _ _ H2 Hj) as H1'.
    pose proof (ancestor_unique _ _ _ _ H1 H1') as ->.
    simpl. apply Nat.ltb_lt.
    destruct j; [|lia]. simpl in Hj. congruence.
Qed.

Lemma distinct_containers_never_tie_witness :
  calculateDOMDistance button (node outerDiv)
  ≠ calculateDOMDistance button (node innerDiv)
  ∧ (contains outerDiv innerDiv = true ∨ contains innerDiv outerDiv = true)
  ∧ (contains outerDiv innerDiv = true →
     Distance_ltb (calculateDOMDistance button (node innerDiv))
                  (calculateDOMDistance button (node outerDiv)) = true).
Proof.
  apply (distinct_containers_never_tie button outerDiv innerDiv);
    [discriminate | discriminate | discriminate | vm_compute; reflexivity ..].
Defined.

(** ** The cache keeps what it memoized *)

Lemma lookups_grow (pairs : list (Node * EventTarget)) :
  ∀ cache,
    cache ⊆ foldl (λ c p, (calculateDistanceWithCache true c p.1 p.2).2)
                  cache pairs.
Proof.
  induction pairs as [|[t c] rest IH]; intros cache; simpl; [done|].
  etrans; [|apply IH]. apply calculateDistanceWithCache_grows.
Qed.

(** X4. Once a pair was looked up, any number of later lookups (of any pairs)
    leave its answer as it was: the same value comes back and the cache is
    not written. *)
Theorem memoized_distance_is_stable
    (cache : gmap string Distance) (t : Node) (c : EventTarget)
    (pairs : list (Node * EventTarget)) :
  let first := calculateDistanceWithCache true cache t c in
  let later := foldl (λ c p, (calculateDistanceWithCache true c p.1 p.2).2)
                     first.2 pairs in
  calculateDistanceWithCache true later t c = (first.1, later).
Proof.
  intros first later.
  apply calculateDistanceWithCache_hit.
  eapply lookup_weaken; [apply calculateDistanceWithCache_stored|].
  apply lookups_grow.
Qed.

(** ** What dispatch leaves alone *)

Lemma cacheAfter_disabled cache target handlers :
  cacheAfter false cache target handlers = cache.
Proof. induction handlers as [|h rest IH]; simpl; [done|apply IH]. Qed.

Lemma checkUserInteraction_frame this event :
  let this' := checkUserInteraction this event in
  eventMapping this' = eventMapping this
  ∧ eventListeners this' = eventListeners this
  ∧ elementHandlers this' = elementHandlers this
  ∧ throttleTimers this' = throttleTimers this
  ∧ debounceTimers this' = debounceTimers this
  ∧ abortController this' = abortController this.
Proof. simpl. unfold checkUserInteraction. by destruct (_ && _). Qed.

(** X5. [handleEvent] writes the interaction flag and the distance cache and
    nothing else: the mapping, the candidates, the listener tracking and
    the timer maps are as before; the cache only grows, and stays as it is
    when caching is off; a flag that is set stays set. *)
Theorem handleEvent_frame
    (windowFunctions : list string) (hasAttribute : Node → string → bool)
    (closest : Node → string → option Node) (this : YEH) (event : Event) :
  let this' := (handleEvent windowFunctions hasAttribute closest this event).1 in
  eventMapping this' = eventMapping this
  ∧ eventHandlerMap this' = eventHandlerMap this
  ∧ eventListeners this' = eventListeners this
  ∧ elementHandlers this' = elementHandlers this
  ∧ throttleTimers this' = throttleTimers this
  ∧ debounceTimers this' = debounceTimers this
  ∧ distanceCache this ⊆ distanceCache this'
  ∧ (enableDistanceCache this = false →
     distanceCache this' = distanceCache this)
  ∧ (userHasInteracted this = true → userHasInteracted this' = true).
Proof.
  simpl.
  destruct (handleEvent_run windowFunctions hasAttribute closest this event)
    as [_ ->].
  pose proof (cacheAfter_grows (enableDistanceCache this) (ev_target event)
                (default [] (eventHandlerMap this !! ev_type event))
                (distanceCache this)) as Hgrow.
  pose proof (cacheAfter_disabled (distanceCache this) (ev_target event)
                (default [] (eventHandlerMap this !! ev_type event)))
    as Hoff.
  destruct (default [] (eventHandlerMap this !! ev_type event)) as [|h hs].
  { do 8 (split; [done|]). done. }
  remember (h :: hs) as handlers eqn:Eh. clear Eh.
  destruct (checkUserInteraction_frame this event)
    as (H1 & H2 & H3 & H4 & H5 & _).
  destruct (checkUserInteraction_fields this event) as (H6 & _).
  unfold setDistanceCache.
  cbn [eventMapping eventHandlerMap eventListeners elementHandlers
       throttleTimers debounceTimers distanceCache userHasInteracted].
  do 6 (split; [done|]).
  split; [done|]. split.
  - intros E. by rewrite E.
  - intros Hflag. by rewrite checkUserInteraction_flag, Hflag.
Qed.

(** ** The invoked handler *)

(** X6. Whatever [handleEvent] invokes is the handler of a registered candidate
    of the event's type: the candidate's distance, as the loop saw it, is
    finite, the handler is what [resolveHandler] finds for the candidate's
    handler name, the third argument is [findClosest] of the target and
    the candidate's selector, and without automatic target resolution for
    this event type the second argument is the event's target. *)
Theorem invoked_handler_is_registered
    (windowFunctions : list string) (hasAttribute : Node → string → bool)
    (closest : Node → string → option Node) (this : YEH) (event : Event)
    (registration : HandlerInfo) (handler : HandlerRef)
    (resolvedTarget : Node) (actualClosestElement : option Node) :
  (handleEvent windowFunctions hasAttribute closest this event).2
  = Invoked registration handler resolvedTarget actualClosestElement →
  let handlers := default [] (eventHandlerMap this !! ev_type event) in
  (∃ i m, handlers !! i = Some registration
          ∧ distancesSeen (enableDistanceCache this) (distanceCache this)
                          (ev_target event) handlers !! i = Some (Fin m))
  ∧ resolveHandler windowFunctions this (hi_handler registration)
                   (ev_type event) = Some handler
  ∧ actualClosestElement
    = findClosest closest (ev_target event) (hi_selector registration)
  ∧ (autoTargetResolution this
     && includes (targetResolutionEvents this) (ev_type event) = false →
     resolvedTarget = ev_target event).
Proof.
  intros Hinv handlers.
  destruct (handleEvent_run windowFunctions hasAttribute closest this event)
    as [Hsel _]. fold handlers in Hsel.
  rewrite Hinv in Hsel. simpl in Hsel.
  split.
  { pose proof (findClosestHandler_spec (enableDistanceCache this)
                  (distanceCache this) (ev_target event) handlers) as Hspec.
    simpl in Hspec.
    destruct Hspec as [[Hres _] | (i & h & m & Hres & Hi & Hd & _)];
      rewrite Hres in Hsel; simpl in Hsel; [done|].
    inversion Hsel; subst. eauto. }
  clear Hsel. revert Hinv. unfold handleEvent. clear handlers.
  destruct (eventHandlerMap this !! ev_type event) as [[|h0 hs]|];
    [done| |done].
  destruct (findClosestHandler _ _ _ _) as [[ch cd] cache].
  destruct ch as [r|]; [|done].
  assert (∀ c u,
            resolveHandler windowFunctions
              (setDistanceCache c (checkUserInteraction u event))
            = resolveHandler windowFunctions u) as Hres.
  { intros c u. unfold checkUserInteraction. by destruct (_ && _). }
  rewrite Hres.
  assert (∀ c u,
            autoTargetResolution
              (setDistanceCache c (checkUserInteraction u event))
            = autoTargetResolution u
            ∧ targetResolutionEvents
                (setDistanceCache c (checkUserInteraction u event))
              = targetResolutionEvents u) as Hauto.
  { intros c u. unfold checkUserInteraction. by destruct (_ && _). }
  destruct (Hauto cache this) as [-> ->].
  destruct (resolveHandler windowFunctions this (hi_handler r) (ev_type event))
    as [hd|] eqn:Er; [|done].
  destruct (autoTargetResolution this
            && includes (targetResolutionEvents this) (ev_type event)).
  - destruct (findActionableTarget _ _ _ _); [| |done].
    + intros H. inversion H; subst. by rewrite Er.
    + destruct (ac_enabled _); [done|].
      intros H. inversion H; subst. by rewrite Er.
  - intros H. inversion H; subst. by rewrite Er.
Qed.

Lemma invoked_handler_is_registered_witness :
  resolveHandler [] cardInstance (hi_handler cardFirst) (ev_type click)
  = Some (ClassMethod "handleClick").
Proof.
  destruct (invoked_handler_is_registered [] noAttributes nestedClosest
              cardInstance click cardFirst (ClassMethod "handleClick")
              button (Some innerDiv)) as (_ & H & _);
    [vm_compute; reflexivity|exact H].
Defined.

(** ** Where a handler is looked up *)

Lemma firstSome_None {T : Type} (a b : option T) :
  firstSome a b = None ↔ a = None ∧ b = None.
Proof. destruct a, b; simpl; intuition congruence. Qed.

(** X7. [resolveHandler] finds nothing exactly when the class, the methods
    object and the window all have nothing under the alias-resolved name;
    [methodsFirst] matters only when both the class and the methods object
    have the name; a window function is returned only with
    [enableGlobalFallback], when neither of the other two has the name;
    and what is returned is always found under the resolved name. *)
Theorem resolveHandler_order
    (windowFunctions : list string) (this : YEH)
    (handlerName eventType : string) :
  let name := resolveMethodName this handlerName eventType in
  let inClass := resolveInClass this name in
  let inMethods := resolveInMethods this name eventType in
  let inWindow := resolveInWindow windowFunctions this name in
  let result := resolveHandler windowFunctions this handlerName eventType in
  (result = None ↔ inClass = None ∧ inMethods = None ∧ inWindow = None)
  ∧ (∀ c m, inClass = Some c → inMethods = Some m →
            result = Some (if methodsFirst this then m else c))
  ∧ (inMethods = None → result = firstSome inClass inWindow)
  ∧ (inClass = None → result = firstSome inMethods inWindow)
  ∧ (∀ r, result = Some r → referencedName r = name)
  ∧ (∀ n, result = Some (WindowFunction n) →
          enableGlobalFallback this = true ∧ n ∈ windowFunctions
          ∧ inClass = None ∧ inMethods = None)
  ∧ (∀ n, result = Some (GlobalMethod n) →
          ∀ functions,
            objGet (methods this) eventType = Some (MethodScope functions) →
            n ∉ functions).
Proof.
  intros name inClass inMethods inWindow result.
  assert (result = if methodsFirst this
                   then firstSome inMethods (firstSome inClass inWindow)
                   else firstSome inClass (firstSome inMethods inWindow))
    as Hresult by reflexivity.
  assert (∀ r, inClass = Some r → r = ClassMethod name) as Hclass.
  { subst inClass. unfold resolveInClass.
    destruct (includes _ _); naive_solver. }
  assert (∀ r, inMethods = Some r →
               r = ScopedMethod eventType name
               ∨ r = GlobalMethod name
                 ∧ ∀ functions,
                     objGet (methods this) eventType
                     = Some (MethodScope functions) →
                     name ∉ functions) as Hmethods.
  { subst inMethods. unfold resolveInMethods. intros r.
    destruct (objGet (methods this) eventType) as [[|functions]|].
    - destruct (objGet (methods this) name) as [[|]|]; naive_solver.
    - unfold includes. case_bool_decide as Hin; [naive_solver|].
      destruct (objGet (methods this) name) as [[|]|]; naive_solver.
    - destruct (objGet (methods this) name) as [[|]|]; naive_solver. }
  assert (∀ r, inWindow = Some r →
               r = WindowFunction name
               ∧ enableGlobalFallback this = true
               ∧ name ∈ windowFunctions) as Hwindow.
  { subst inWindow. unfold resolveInWindow, includes. intros r.
    destruct (enableGlobalFallback this); simpl; [|done].
    case_bool_decide; naive_solver. }
  clearbody result inClass inMethods inWindow.
  split.
  { rewrite Hresult.
    destruct (methodsFirst this); rewrite !firstSome_None; tauto. }
  split.
  { intros c m -> ->. rewrite Hresult. by destruct (methodsFirst this). }
  split.
  { intros ->. rewrite Hresult.
    destruct (methodsFirst this), inClass; done. }
  split.
  { intros ->. rewrite Hresult.
    destruct (methodsFirst this), inMethods; done. }
  split.
  { intros r. rewrite Hresult.
    destruct (methodsFirst this), inClass as [c|], inMethods as [m|],
      inWindow as [w|]; simpl; intros [= <-];
      repeat match goal with
             | H : ∀ r, Some ?x = Some r → _ |- _ =>
                 specialize (H x eq_refl)
             | H : ∀ r, None = Some r → _ |- _ => clear H
             end; intuition (subst; simpl in *; eauto; congruence). }
  split.
  { intros n. rewrite Hresult.
    destruct (methodsFirst this), inClass as [c|], inMethods as [m|],
      inWindow as [w|]; simpl; intros [= E];
      repeat match goal with
             | H : ∀ r, Some ?x = Some r → _ |- _ =>
                 specialize (H x eq_refl)
             | H : ∀ r, None = Some r → _ |- _ => clear H
             end; intuition (subst; simpl in *; eauto; congruence). }
  intros n. rewrite Hresult.
  destruct (methodsFirst this), inClass as [c|], inMethods as [m|],
    inWindow as [w|]; simpl; intros [= E];
    repeat match goal with
           | H : ∀ r, Some ?x = Some r → _ |- _ =>
               specialize (H x eq_refl)
           | H : ∀ r, None = Some r → _ |- _ => clear H
           end;
    repeat match goal with
           | H : _ ∧ _ |- _ => destruct H
           | H : _ ∨ _ |- _ => destruct H
           end; subst; try congruence;
    match goal with
    | H : GlobalMethod _ = GlobalMethod _ |- _ => injection H as <-
    end; done.
Qed.

(** ** Walks towards the root *)

(** [classList] splits [className] on ASCII white space only: a tab or a
    line feed ends a token, a vertical tab or a no-break space is part of
    one. *)
Lemma classTokens_ascii_whitespace :
  classTokens ("btn" +:+ String (Ascii.ascii_of_nat 9) "primary"
                     +:+ String (Ascii.ascii_of_nat 10) " active") ""
  = ["btn"; "primary"; "active"]
  ∧ classTokens ("actionable" +:+ String (Ascii.ascii_of_nat 11) "foo") ""
    = ["actionable" +:+ String (Ascii.ascii_of_nat 11) "foo"]
  ∧ classTokens ("a" +:+ String (Ascii.ascii_of_nat 160) "b") ""
    = ["a" +:+ String (Ascii.ascii_of_nat 160) "b"].
Proof. repeat split; vm_compute; reflexivity. Qed.

Lemma parentElement_element n p :
  parentElement n = Some p → p ≠ Document.
Proof. destruct n as [|t i c x [| |]|]; simpl; naive_solver. Qed.

Lemma elementAncestor_document k :
  ∀ n, elementAncestor k n = Some Document → n = Document ∧ k = 0.
Proof.
  induction k as [|k IH]; intros n; cbn [elementAncestor].
  - naive_solver.
  - destruct (parentElement n) as [p|] eqn:Ep; [|done].
    intros Hk. destruct (IH p Hk) as [-> _].
    by apply parentElement_element in Ep.
Qed.

Lemma findClosestLegacy_element selector t i c x p :
  findClosestLegacy selector (Element t i c x p)
  = if matchesSimple selector (Element t i c x p)
    then Some (Element t i c x p)
    else match parentElement (Element t i c x p) with
         | Some q => findClosestLegacy selector q
         | None => None
         end.
Proof. destruct p; reflexivity. Qed.

Lemma parentElement_parent t i c x p q :
  parentElement (Element t i c x p) = Some q → q = p.
Proof. destruct p; simpl; naive_solver. Qed.

(** X8. The fallback loop of [findClosest] returns the nearest element on the
    way up (the start included) that matches the simple selector, and
    [null] exactly when no element on the way up matches. *)
Theorem findClosestLegacy_nearest (selector : string) (current : Node) :
  match findClosestLegacy selector current with
  | Some n =>
      ∃ k, elementAncestor k current = Some n
           ∧ n ≠ Document
           ∧ matchesSimple selector n = true
           ∧ ∀ j m, j < k → elementAncestor j current = Some m →
                    matchesSimple selector m = false
  | None =>
      ∀ j m, elementAncestor j current = Some m → m ≠ Document →
             matchesSimple selector m = false
  end.
Proof.
  induction current as [|t i c x p IH|t i c];
    [|rewrite findClosestLegacy_element|cbn [findClosestLegacy]].
  - cbn [findClosestLegacy]. intros [|j] m; cbn; naive_solver.
  - destruct (matchesSimple selector (Element t i c x p)) eqn:E.
    { exists 0. split; [done|]. split; [done|]. split; [done|]. lia. }
    destruct (parentElement (Element t i c x p)) as [q|] eqn:Ep.
    + pose proof (parentElement_parent _ _ _ _ _ _ Ep) as ->.
      destruct (findClosestLegacy selector p) as [n|].
      * destruct IH as (k & Hk & Hn & Hm & Hbelow).
        exists (S k). cbn [elementAncestor]. rewrite Ep.
        split; [done|]. split; [done|]. split; [done|].
        intros [|j] m Hlt; cbn [elementAncestor].
        -- by intros [= <-].
        -- rewrite Ep. apply Hbelow. lia.
      * intros [|j] m; cbn [elementAncestor].
        -- by intros [= <-].
        -- rewrite Ep. apply IH.
    + intros [|j] m; cbn [elementAncestor].
      * by intros [= <-].
      * by rewrite Ep.
  - destruct (matchesSimple selector (Orphan t i c)) eqn:E.
    + exists 0. split; [done|]. split; [done|]. split; [done|]. lia.
    + intros [|j] m; cbn; [by intros [= <-]|done].
Qed.

Lemma actionableWalk_element hasAttribute this boundary t i c x p :
  actionableWalk hasAttribute this boundary (Element t i c x p)
  = if decide (node (Element t i c x p) = boundary)
    then AtBoundary (Element t i c x p)
    else if actionable hasAttribute this (Element t i c x p)
         then Found (Element t i c x p)
         else match parentElement (Element t i c x p) with
              | Some q => actionableWalk hasAttribute this boundary q
              | None => PastTheTop
              end.
Proof. destruct p; reflexivity. Qed.

Lemma actionableWalk_spec hasAttribute this boundary current :
  match actionableWalk hasAttribute this boundary current with
  | Found n =>
      ∃ k, elementAncestor k current = Some n
           ∧ n ≠ Document ∧ node n ≠ boundary
           ∧ actionable hasAttribute this n = true
           ∧ ∀ j m, j < k → elementAncestor j current = Some m →
                    node m ≠ boundary
                    ∧ actionable hasAttribute this m = false
  | AtBoundary n =>
      ∃ k, elementAncestor k current = Some n
           ∧ node n = boundary
           ∧ ∀ j m, j < k → elementAncestor j current = Some m →
                    node m ≠ boundary
                    ∧ actionable hasAttribute this m = false
  | PastTheTop =>
      ∀ j m, elementAncestor j current = Some m →
             node m ≠ boundary
             ∧ (m = Document ∨ actionable hasAttribute this m = false)
  end.
Proof.
  induction current as [|t i c x p IH|t i c];
    [|rewrite actionableWalk_element|].
  - cbn [actionableWalk]. destruct (decide (document = boundary)) as [E|E].
    + exists 0. split; [done|]. split; [done|]. lia.
    + intros [|j] m; cbn; naive_solver.
  - destruct (decide (node (Element t i c x p) = boundary)) as [E|E].
    { exists 0. split; [done|]. split; [done|]. lia. }
    destruct (actionable hasAttribute this (Element t i c x p)) eqn:Ea.
    { exists 0. do 4 (split; [done|]). lia. }
    destruct (parentElement (Element t i c x p)) as [q|] eqn:Ep.
    + pose proof (parentElement_parent _ _ _ _ _ _ Ep) as ->.
      destruct (actionableWalk hasAttribute this boundary p) as [n|n|].
      * destruct IH as (k & Hk & Hn & Hb & Hact & Hbelow).
        exists (S k). cbn [elementAncestor]. rewrite Ep.
        do 4 (split; [done|]).
        intros [|j] m Hlt; cbn [elementAncestor].
        -- by intros [= <-].
        -- rewrite Ep. apply Hbelow. lia.
      * destruct IH as (k & Hk & Hb & Hbelow).
        exists (S k). cbn [elementAncestor]. rewrite Ep.
        do 2 (split; [done|]).
        intros [|j] m Hlt; cbn [elementAncestor].
        -- by intros [= <-].
        -- rewrite Ep. apply Hbelow. lia.
      * intros [|j] m; cbn [elementAncestor].
        -- intros [= <-]. by split; [|right].
        -- rewrite Ep. apply IH.
    + intros [|j] m; cbn [elementAncestor].
      * intros [= <-]. by split; [|right].
      * by rewrite Ep.
  - cbn [actionableWalk].
    destruct (decide (node (Orphan t i c) = boundary)) as [E|E].
    { exists 0. split; [done|]. split; [done|]. lia. }
    fold (actionable hasAttribute this (Orphan t i c)).
    destruct (actionable hasAttribute this (Orphan t i c)) eqn:Ea.
    + exists 0. do 4 (split; [done|]). lia.
    + intros [|j] m; cbn; [|done]. intros [= <-]. by split; [|right].
Qed.

(** X9. With target resolution enabled, [findActionableTarget] returns the
    nearest element on the way up from the target, the boundary included,
    that passes the tests (on the boundary only attributes and classes
    count; tags do not); it returns [null] exactly when no element up to the
    boundary passes; and it throws only for [document] taken as its own
    boundary with at least one attribute configured. *)
Theorem findActionableTarget_nearest
    (hasAttribute : Node → string → bool) (this : YEH) (target : Node)
    (boundary : EventTarget) :
  ac_enabled (actionableConfig this) = true →
  match findActionableTarget hasAttribute this target boundary with
  | ActionableTarget n =>
      ∃ k, elementAncestor k target = Some n
           ∧ n ≠ Document
           ∧ (if decide (node n = boundary)
              then actionableBoundary hasAttribute this n
              else actionable hasAttribute this n) = true
           ∧ ∀ j m, j < k → elementAncestor j target = Some m →
                    node m ≠ boundary
                    ∧ actionable hasAttribute this m = false
  | NoActionableTarget =>
      ∀ j m, elementAncestor j target = Some m → m ≠ Document →
             (∀ i b, i < j → elementAncestor i target = Some b →
                     node b ≠ boundary) →
             (if decide (node m = boundary)
              then actionableBoundary hasAttribute this m
              else actionable hasAttribute this m) = false
  | TargetTypeError =>
      target = Document ∧ boundary = document
      ∧ ac_attributes (actionableConfig this) ≠ []
  end.
Proof.
  intros Henabled. unfold findActionableTarget. rewrite Henabled. simpl.
  pose proof (actionableWalk_spec hasAttribute this boundary target) as Hwalk.
  destruct (actionableWalk hasAttribute this boundary target) as [n|n|].
  - destruct Hwalk as (k & Hk & Hn & Hb & Hact & Hbelow).
    exists k. rewrite decide_False by done. done.
  - destruct Hwalk as (k & Hk & Hb & Hbelow).
    assert (∀ j m, elementAncestor j target = Some m →
                   (∀ i b, i < j → elementAncestor i target = Some b →
                           node b ≠ boundary) →
                   j < k ∨ j = k ∧ m = n) as Hupto.
    { intros j m Hj Hnone.
      destruct (Nat.lt_trichotomy j k) as [Hlt|[->|Hgt]]; [by left| |].
      - right. split; [done|]. congruence.
      - by destruct (Hnone k n Hgt Hk). }
    destruct n as [|t i c x p|t i c].
    + destruct (elementAncestor_document _ _ Hk) as [-> ->].
      destruct (ac_attributes (actionableConfig this)) eqn:Eattr; [|done].
      intros [|j] m; cbn; [by intros [= <-] Hm|done].
    + fold (actionableBoundary hasAttribute this (Element t i c x p)).
      destruct (actionableBoundary hasAttribute this (Element t i c x p))
        eqn:Ea.
      * exists k. rewrite decide_True by done. done.
      * intros j m Hj Hm Hnone.
        destruct (Hupto j m Hj Hnone) as [Hlt|[-> ->]].
        -- destruct (Hbelow j m Hlt Hj) as [Hnb Hna].
           by rewrite decide_False.
        -- by rewrite decide_True.
    + fold (actionableBoundary hasAttribute this (Orphan t i c)).
      destruct (actionableBoundary hasAttribute this (Orphan t i c)) eqn:Ea.
      * exists k. rewrite decide_True by done. done.
      * intros j m Hj Hm Hnone.
        destruct (Hupto j m Hj Hnone) as [Hlt|[-> ->]].
        -- destruct (Hbelow j m Hlt Hj) as [Hnb Hna].
           by rewrite decide_False.
        -- by rewrite decide_True.
  - intros j m Hj Hm _. destruct (Hwalk j m Hj) as [Hnb [->|Hna]]; [done|].
    by rewrite decide_False.
Qed.

Lemma findActionableTarget_nearest_witness :
  match findActionableTarget noAttributes cardInstance icon (node innerDiv)
  with
  | ActionableTarget n =>
      ∃ k, elementAncestor k icon = Some n
           ∧ n ≠ Document
           ∧ (if decide (node n = node innerDiv)
              then actionableBoundary noAttributes cardInstance n
              else actionable noAttributes cardInstance n) = true
           ∧ ∀ j m, j < k → elementAncestor j icon = Some m →
                    node m ≠ node innerDiv
                    ∧ actionable noAttributes cardInstance m = false
  | NoActionableTarget =>
      ∀ j m, elementAncestor j icon = Some m → m ≠ Document →
             (∀ i b, i < j → elementAncestor i icon = Some b →
                     node b ≠ node innerDiv) →
             (if decide (node m = node innerDiv)
              then actionableBoundary noAttributes cardInstance m
              else actionable noAttributes cardInstance m) = false
  | TargetTypeError =>
      icon = Document ∧ node innerDiv = document
      ∧ ac_attributes (actionableConfig cardInstance) ≠ []
  end.
Proof.
  apply findActionableTarget_nearest. vm_compute. reflexivity.
Defined.

(** ** What no call changes *)

Lemma handlerMethodName_prefix a b eventConfig eventType :
  handlerPrefix a = handlerPrefix b →
  handlerMethodName a eventConfig eventType
  = handlerMethodName b eventConfig eventType.
Proof. unfold handlerMethodName. by intros ->. Qed.

Lemma settings_prefix a b :
  settings a = settings b → handlerPrefix a = handlerPrefix b.
Proof. unfold settings. by intros [= _ _ _ _ _ _ _ -> _ _ _ _]. Qed.

Lemma registerEventListener_settings element eventConfig key selector s :
  settings (registerEventListener element eventConfig key selector s).1
  = settings s.1.
Proof. by destruct s. Qed.

Lemma cleanupEventTimers_settings key eventType s :
  settings (cleanupEventTimers key eventType s).1 = settings s.1.
Proof.
  destruct s as [this b]. unfold cleanupEventTimers.
  destruct (throttleTimers this !! _); simpl;
    destruct (debounceTimers _ !! _); done.
Qed.

Lemma cleanupEventTimers_candidates key eventType s :
  eventHandlerMap (cleanupEventTimers key eventType s).1
  = eventHandlerMap s.1.
Proof.
  destruct s as [this b]. unfold cleanupEventTimers.
  destruct (throttleTimers this !! _); simpl;
    destruct (debounceTimers _ !! _); done.
Qed.

Lemma unregisterElement_settings selector eventType s element index :
  settings (unregisterElement selector eventType s element index).1
  = settings s.1.
Proof.
  destruct s as [this b]. unfold unregisterElement.
  rewrite cleanupEventTimers_settings. simpl.
  destruct (weakGet _ _) as [events|]; [|done].
  by destruct (filter _ events).
Qed.

Lemma unregisterElement_candidates selector eventType s element index :
  eventHandlerMap (unregisterElement selector eventType s element index).1
  = eventHandlerMap s.1.
Proof.
  destruct s as [this b]. unfold unregisterElement.
  rewrite cleanupEventTimers_candidates. simpl.
  destruct (weakGet _ _) as [events|]; [|done].
  by destruct (filter _ events).
Qed.

Lemma cleanHandlerMap_settings eventType this element :
  settings (cleanHandlerMap eventType this element) = settings this.
Proof.
  unfold cleanHandlerMap.
  destruct (eventHandlerMap this !! eventType) as [hs|]; [|done].
  by destruct (filter _ hs).
Qed.

Lemma registerSingleEvent_settings querySelectorAll selector eventConfig s :
  settings (registerSingleEvent querySelectorAll selector eventConfig s).1
  = settings s.1.
Proof.
  unfold registerSingleEvent.
  apply (forEachIndexed_invariant (λ s', settings s'.1 = settings s.1));
    [|done].
  intros s1 element index H1. destruct (eventListeners s1.1 !! _); [done|].
  by rewrite registerEventListener_settings.
Qed.

Lemma unregisterSingleEvent_settings querySelectorAll selector eventType s :
  settings (unregisterSingleEvent querySelectorAll selector eventType s).1
  = settings s.1.
Proof.
  unfold unregisterSingleEvent.
  pose proof (forEachIndexed_invariant
                (λ s', settings s'.1 = settings s.1)
                (unregisterElement selector eventType)
                (getElements querySelectorAll selector)) as Hloop.
  destruct (forEachIndexed _ _ 0 s) as [this1 b1] eqn:E. simpl.
  transitivity (settings this1).
  - apply (foldl_invariant (λ t, settings t = settings this1)); [|done].
    intros t element Ht. by rewrite cleanHandlerMap_settings.
  - change this1 with (this1, b1).1. rewrite <- E. apply Hloop; [|done].
    intros s1 element index H1. by rewrite unregisterElement_settings.
Qed.

Lemma addEvent_settings querySelectorAll target eventConfig s :
  settings (addEvent querySelectorAll target eventConfig s).2.1
  = settings s.1.
Proof.
  destruct s as [this b]. unfold addEvent.
  destruct (hasEvent _ _ _); [done|]. simpl.
  by rewrite registerSingleEvent_settings.
Qed.

Lemma removeEvent_settings querySelectorAll target eventType s :
  settings (removeEvent querySelectorAll target eventType s).2.1
  = settings s.1.
Proof.
  destruct s as [this b]. unfold removeEvent.
  destruct (objGet _ _) as [configs|]; [|done].
  destruct (_ =? _); [done|]. simpl.
  rewrite unregisterSingleEvent_settings. simpl.
  by destruct (filter _ configs).
Qed.

Section Reachable.
Variable querySelectorAll : string → list Node.
Variable windowFunctions : list string.
Variable hasAttribute : Node → string → bool.
Variable closest : Node → string → option Node.

Local Abbreviation step :=
  (perform querySelectorAll windowFunctions hasAttribute closest).

Lemma handleEvent_settings this event :
  settings (handleEvent windowFunctions hasAttribute closest this event).1
  = settings this.
Proof.
  destruct (handleEvent_run windowFunctions hasAttribute closest this event)
    as [_ ->].
  destruct (default [] _); [done|].
  unfold checkUserInteraction. by destruct (_ && _).
Qed.

Lemma handleEvent_candidates this event :
  eventHandlerMap
    (handleEvent windowFunctions hasAttribute closest this event).1
  = eventHandlerMap this.
Proof.
  destruct (handleEvent_run windowFunctions hasAttribute closest this event)
    as [_ ->].
  destruct (default [] _); [done|].
  unfold checkUserInteraction. by destruct (_ && _).
Qed.

Lemma perform_settings s c : settings (step s c).1 = settings s.1.
Proof.
  destruct c; simpl.
  - apply addEvent_settings.
  - apply removeEvent_settings.
  - apply addEvent_settings.
  - apply handleEvent_settings.
  - done.
  - done.
  - destruct s as [this b]. unfold abort. by destruct (abortController this).
  - destruct s as [this b]. unfold destroy, abort. simpl.
    by destruct (abortController this).
Qed.

(** X10. The fields the constructor set from its arguments and from the page
    stay as they are whatever is called afterwards: the aliases, the
    methods, the resolution order, the passive events, the handler prefix,
    the target resolution settings and the cache switch are fixed for the
    life of the instance. *)
Theorem settings_never_change (s : YEH * Browser) (calls : list Call) :
  settings (foldl step s calls).1 = settings s.1.
Proof.
  revert s. induction calls as [|c rest IH]; intros s; simpl; [done|].
  by rewrite IH, perform_settings.
Qed.
End Reachable.

(** ** What the registry keeps true *)

Lemma registryInvariant_ext querySelectorAll a b :
  eventHandlerMap a = eventHandlerMap b →
  handlerPrefix a = handlerPrefix b →
  registryInvariant querySelectorAll a → registryInvariant querySelectorAll b.
Proof.
  intros Hm Hp Ha eventType hs Hhs. rewrite <- Hm in Hhs.
  destruct (Ha eventType hs Hhs) as [Hne Hall]. split; [done|].
  intros h Hh. destruct (Hall h Hh) as (H1 & H2 & H3).
  split; [done|]. split; [done|].
  rewrite H3. by apply handlerMethodName_prefix.
Qed.

Lemma forEachIndexed_elem_invariant {St X : Type} (P : St → Prop)
    (f : St → X → nat → St) (l : list X) :
  (∀ s x i, x ∈ l → P s → P (f s x i)) →
  ∀ i s, P s → P (forEachIndexed f l i s).
Proof.
  induction l as [|x rest IH]; intros Hf i s Hs; simpl; [done|].
  apply IH.
  - intros s' y j Hy. apply Hf. by apply elem_of_cons; right.
  - apply Hf; [by apply elem_of_cons; left|done].
Qed.

Lemma registerEventListener_invariant querySelectorAll element eventConfig
    key selector s :
  element ∈ getElements querySelectorAll selector →
  registryInvariant querySelectorAll s.1 →
  registryInvariant querySelectorAll
    (registerEventListener element eventConfig key selector s).1.
Proof.
  destruct s as [this b]. intros Hel Hinv eventType hs.
  cbn [registerEventListener fst eventHandlerMap setEventHandlerMap].
  destruct (decide (eventType = configType eventConfig)) as [->|Hne].
  - rewrite lookup_insert_eq. intros [= <-]. split.
    { by destruct (default [] _). }
    intros h Hh. apply elem_of_app in Hh as [Hh|Hh].
    + destruct (eventHandlerMap this !! configType eventConfig) as [old|] eqn:E;
        simpl in Hh; [|by apply elem_of_nil in Hh].
      destruct (Hinv _ _ E) as [_ Hall]. exact (Hall h Hh).
    + apply list_elem_of_singleton in Hh as ->. done.
  - rewrite lookup_insert_ne by done. intros E.
    destruct (Hinv _ _ E) as [Hnil Hall]. split; [done|].
    intros h Hh. exact (Hall h Hh).
Qed.

Lemma registerSingleEvent_invariant querySelectorAll selector eventConfig s :
  registryInvariant querySelectorAll s.1 →
  registryInvariant querySelectorAll
    (registerSingleEvent querySelectorAll selector eventConfig s).1.
Proof.
  intros Hinv. unfold registerSingleEvent.
  apply (forEachIndexed_elem_invariant
           (λ s', registryInvariant querySelectorAll s'.1)); [|done].
  intros s1 element index Hel H1.
  destruct (eventListeners s1.1 !! _); [done|].
  by apply registerEventListener_invariant.
Qed.

Lemma registerEvents_invariant querySelectorAll s :
  registryInvariant querySelectorAll s.1 →
  registryInvariant querySelectorAll (registerEvents querySelectorAll s).1.
Proof.
  intros Hinv. unfold registerEvents.
  apply (foldl_invariant (λ s', registryInvariant querySelectorAll s'.1));
    [|done].
  intros s1 [elementSelector events] H1.
  apply (forEachIndexed_elem_invariant
           (λ s', registryInvariant querySelectorAll s'.1)); [|done].
  intros s2 element index Hel H2.
  apply (foldl_invariant (λ s', registryInvariant querySelectorAll s'.1));
    [|done].
  intros s3 eventConfig H3. by apply registerEventListener_invariant.
Qed.

Lemma cleanHandlerMap_invariant querySelectorAll eventType this element :
  registryInvariant querySelectorAll this →
  registryInvariant querySelectorAll (cleanHandlerMap eventType this element).
Proof.
  intros Hinv. unfold cleanHandlerMap.
  destruct (eventHandlerMap this !! eventType) as [hs|] eqn:E; [|done].
  destruct (Hinv _ _ E) as [_ Hall].
  destruct (filter _ hs) as [|h0 rest] eqn:Ef; intros type handlers;
    cbn [eventHandlerMap setEventHandlerMap].
  - intros Hl. apply lookup_delete_Some in Hl as [Hne Hl].
    destruct (Hinv _ _ Hl) as [Hnil Hall']. split; [done|].
    intros h Hh. exact (Hall' h Hh).
  - destruct (decide (type = eventType)) as [->|Hne].
    + rewrite lookup_insert_eq. intros [= <-]. split; [done|].
      intros h Hh. rewrite <- Ef in Hh.
      apply list_elem_of_filter in Hh as [_ Hh]. exact (Hall h Hh).
    + rewrite lookup_insert_ne by done. intros Hl.
      destruct (Hinv _ _ Hl) as [Hnil Hall']. split; [done|].
      intros h Hh. exact (Hall' h Hh).
Qed.

Lemma unregisterSingleEvent_invariant querySelectorAll selector eventType s :
  registryInvariant querySelectorAll s.1 →
  registryInvariant querySelectorAll
    (unregisterSingleEvent querySelectorAll selector eventType s).1.
Proof.
  intros Hinv. unfold unregisterSingleEvent.
  pose proof (forEachIndexed_invariant
                (λ s', registryInvariant querySelectorAll s'.1)
                (unregisterElement selector eventType)
                (getElements querySelectorAll selector)) as Hloop.
  destruct (forEachIndexed _ _ 0 s) as [this1 b1] eqn:E. simpl.
  apply (foldl_invariant (registryInvariant querySelectorAll)).
  { intros t element Ht. by apply cleanHandlerMap_invariant. }
  change this1 with (this1, b1).1. rewrite <- E. apply Hloop; [|done].
  intros s1 element index H1.
  eapply registryInvariant_ext; [| |exact H1].
  - symmetry. apply unregisterElement_candidates.
  - symmetry. apply settings_prefix, unregisterElement_settings.
Qed.

Lemma addEvent_invariant querySelectorAll target eventConfig s :
  registryInvariant querySelectorAll s.1 →
  registryInvariant querySelectorAll
    (addEvent querySelectorAll target eventConfig s).2.1.
Proof.
  destruct s as [this b]. intros Hinv. unfold addEvent.
  destruct (hasEvent _ _ _); [done|]. simpl.
  apply registerSingleEvent_invariant. exact Hinv.
Qed.

Lemma removeEvent_invariant querySelectorAll target eventType s :
  registryInvariant querySelectorAll s.1 →
  registryInvariant querySelectorAll
    (removeEvent querySelectorAll target eventType s).2.1.
Proof.
  destruct s as [this b]. intros Hinv. unfold removeEvent.
  destruct (objGet _ _) as [configs|]; [|done].
  destruct (_ =? _); [exact Hinv|]. simpl.
  apply unregisterSingleEvent_invariant.
  destruct (filter _ configs); exact Hinv.
Qed.

Section Invariant.
Variable querySelectorAll : string → list Node.
Variable windowFunctions : list string.
Variable hasAttribute : Node → string → bool.
Variable closest : Node → string → option Node.

Local Abbreviation step :=
  (perform querySelectorAll windowFunctions hasAttribute closest).

Lemma perform_invariant s c :
  registryInvariant querySelectorAll s.1 →
  registryInvariant querySelectorAll (step s c).1.
Proof.
  intros Hinv. destruct c; simpl.
  - by apply addEvent_invariant.
  - by apply removeEvent_invariant.
  - by apply addEvent_invariant.
  - eapply registryInvariant_ext; [| |exact Hinv].
    + symmetry. apply handleEvent_candidates.
    + symmetry. apply settings_prefix, handleEvent_settings.
  - exact Hinv.
  - exact Hinv.
  - destruct s as [this b]. unfold abort.
    destruct (abortController this); exact Hinv.
  - destruct s as [this b]. unfold destroy, abort. simpl.
    destruct (abortController this); intros type handlers; simpl;
      by rewrite lookup_empty.
Qed.

(** X11. After a validated construction and whatever is called then, on a
    page that stays as it is: no event type is mapped to an empty candidate list, every
    candidate is filed under the event type of its configuration, sits on
    an element its selector matches, and carries the handler name that its
    configuration and the handler prefix give. *)
Theorem registry_invariant_holds
    (passiveSupport : bool) (methodsOfClass : list string)
    (templateText : JSValue → string) (eventMapping : JSValue)
    (aliases : list (string * list (string * string))) (config : Config)
    (b b' : Browser) (this : YEH) (calls : list Call) :
  cfg_enableConfigValidation config = true →
  constructor querySelectorAll passiveSupport methodsOfClass
              templateText eventMapping aliases config b = Constructed this b' →
  registryInvariant querySelectorAll (foldl step (this, b') calls).1.
Proof.
  intros _ Hnew.
  assert (registryInvariant querySelectorAll this) as Hstart.
  { revert Hnew. unfold constructor.
    destruct (if cfg_enableConfigValidation config then _ else _); [done|].
    destruct (registerEvents _ _) as [this1 b1] eqn:E. intros [= <- <-].
    change this1 with (this1, b1).1. rewrite <- E.
    apply registerEvents_invariant.
    intros type handlers. simpl. by rewrite lookup_empty. }
  clear Hnew. change this with (this, b').1 in Hstart.
  revert Hstart. generalize (this, b'). clear this b'.
  induction calls as [|c rest IH]; intros s Hs; simpl; [done|].
  apply IH. by apply perform_invariant.
Qed.
End Invariant.

Lemma registry_invariant_holds_witness :
  match nestedInstance with
  | Constructed this b' =>
      registryInvariant nestedPage
        (foldl (perform nestedPage [] noAttributes nestedClosest) (this, b')
               [CallOn "keyup" None (Some "#a > div");
                CallHandleEvent click;
                CallRemoveEvent "#a > div" "click"]).1
  | Thrown _ _ => False
  end.
Proof.
  destruct nestedInstance as [e b0|this b'] eqn:E.
  - vm_compute in E. discriminate E.
  - exact (registry_invariant_holds nestedPage [] noAttributes nestedClosest
             true ["onOuter"; "onInner"] plainText nestedMapping []
             defaultConfig emptyPage b' this _ eq_refl E).
Defined.

(** ** What a registration adds *)

Lemma getEventOptions_signal this eventConfig :
  hasSignal (getEventOptions this eventConfig) = abortController this.
Proof.
  unfold getEventOptions.
  destruct (passiveSupported this && _), (abortController this); done.
Qed.

Lemma registeredOn_refl elements selector eventConfig s :
  registeredOn elements selector eventConfig s s.
Proof.
  split; [done|]. split.
  { exists []. rewrite app_nil_r. split; [done|].
    split; [apply sublist_nil_l|done]. }
  split; [|done].
  exists []. rewrite app_nil_r. split; [done|].
  split; [apply sublist_nil_l|done].
Qed.

Lemma registerEventListener_registeredOn element eventConfig key selector s :
  registeredOn [element] selector eventConfig s
    (registerEventListener element eventConfig key selector s).
Proof.
  destruct s as [this b].
  split; [|split; [|split; [|split; [|split]]]]; try done.
  - intros type Hne. simpl. by rewrite lookup_insert_ne.
  - eexists [_]. simpl. rewrite lookup_insert_eq. simpl.
    split; [done|]. split; [done|]. by repeat constructor.
  - simpl. unfold addEventListener.
    destruct (bool_decide _ && existsb _ _).
    + exists []. rewrite app_nil_r. split; [done|].
      split; [apply sublist_nil_l|done].
    + eexists [_]. simpl. split; [done|]. split; [done|].
      repeat constructor. simpl. apply getEventOptions_signal.
  - simpl. unfold addEventListener.
    by destruct (bool_decide _ && existsb _ _).
Qed.

Lemma registeredOn_trans x elements selector eventConfig s1 s2 s3 :
  registeredOn [x] selector eventConfig s1 s2 →
  registeredOn elements selector eventConfig s2 s3 →
  registeredOn (x :: elements) selector eventConfig s1 s3.
Proof.
  intros (Ho1 & (ad1 & Ha1 & Hs1 & Hf1) & (at1 & Hl1 & Ht1 & Hg1)
          & Hh1 & Hset1 & Hab1)
         (Ho2 & (ad2 & Ha2 & Hs2 & Hf2) & (at2 & Hl2 & Ht2 & Hg2)
          & Hh2 & Hset2 & Hab2).
  split; [|split; [|split; [|split; [|split]]]].
  - intros type Hne. by rewrite Ho2, Ho1.
  - exists (ad1 ++ ad2). rewrite Ha2, Ha1, app_assoc. split; [done|].
    split.
    + rewrite fmap_app. change (x :: elements) with ([x] ++ elements).
      by apply sublist_app.
    + apply Forall_app. split; [done|].
      eapply Forall_impl; [exact Hf2|]. simpl.
      intros h (H1 & H2 & H3). split; [done|]. split; [done|].
      rewrite H3. apply handlerMethodName_prefix.
      by apply settings_prefix.
  - exists (at1 ++ at2). rewrite Hl2, Hl1, app_assoc. split; [done|].
    split.
    + rewrite fmap_app. change (x :: elements) with ([x] ++ elements).
      by apply sublist_app.
    + apply Forall_app. split; [done|].
      eapply Forall_impl; [exact Hg2|]. simpl.
      intros l [H1 H2]. split; [done|]. by rewrite H2.
  - by rewrite Hh2.
  - by rewrite Hset2.
  - by rewrite Hab2.
Qed.

Lemma registerSingleEvent_registeredOn querySelectorAll selector eventConfig s :
  registeredOn (getElements querySelectorAll selector) selector eventConfig s
    (registerSingleEvent querySelectorAll selector eventConfig s).
Proof.
  unfold registerSingleEvent.
  generalize (getElements querySelectorAll selector) as elements.
  generalize 0 as index. intros index elements. revert index s.
  induction elements as [|x rest IH]; intros index s; simpl.
  { apply registeredOn_refl. }
  eapply registeredOn_trans; [|apply IH].
  destruct (eventListeners s.1 !! _).
  - apply registeredOn_refl.
  - apply registerEventListener_registeredOn.
Qed.

(** X12. A successful [addEvent] only appends: the candidates that were there
    keep their places ahead of the new ones (and so their priority on a
    tie), the candidates of other event types and the listeners already
    attached are untouched, and what is added is for elements the target
    selector matches, at most one per element and in their order, with the
    target as selector and the normalized configuration. *)
Theorem addEvent_appends
    (querySelectorAll : string → list Node) (target : string)
    (eventConfig : EventConfig) (s s' : YEH * Browser) :
  addEvent querySelectorAll target eventConfig s = (true, s') →
  let eventType := configType eventConfig in
  (∀ type, type ≠ eventType →
           eventHandlerMap s'.1 !! type = eventHandlerMap s.1 !! type)
  ∧ (∃ added,
       default [] (eventHandlerMap s'.1 !! eventType)
       = default [] (eventHandlerMap s.1 !! eventType) ++ added
       ∧ hi_element <$> added
         `sublist_of` getElements querySelectorAll target
       ∧ ∀ h, h ∈ added →
              hi_selector h = target ∧ hi_config h = normalize eventConfig)
  ∧ (∃ attached,
       listeners s'.2 = listeners s.2 ++ attached
       ∧ dl_target <$> attached
         `sublist_of` getElements querySelectorAll target
       ∧ ∀ l, l ∈ attached → dl_type l = eventType)
  ∧ host s'.2 = host s.2.
Proof.
  destruct s as [this b]. unfold addEvent.
  destruct (hasEvent _ _ _); [done|]. intros [= <-]. simpl.
  pose proof (registerSingleEvent_registeredOn querySelectorAll target
                (normalize eventConfig)
                (setEventMapping
                   (objSet (eventMapping this) target
                      (default [] (objGet (eventMapping this) target)
                       ++ [normalize eventConfig])) this, b)) as Hreg.
  unfold registeredOn in Hreg. rewrite configType_normalize in Hreg.
  destruct Hreg as (Ho & (ad & Ha & Hs & Hf) & (att & Hl & Ht & Hg) & Hh & _).
  simpl in *. split; [exact Ho|]. split; [|split; [|exact Hh]].
  - exists ad. split; [exact Ha|]. split; [exact Hs|].
    intros h Hh'. rewrite Forall_forall in Hf.
    destruct (Hf h Hh') as (H1 & H2 & _). done.
  - exists att. split; [exact Hl|]. split; [exact Ht|].
    intros l Hl'. rewrite Forall_forall in Hg.
    by destruct (Hg l Hl').
Qed.

Lemma addEvent_appends_witness :
  ∃ added,
    default [] (eventHandlerMap
                  (addEvent cardPage "div div div" (ConfigString "keyup")
                            cardState).2.1 !! "keyup")
    = default [] (eventHandlerMap cardState.1 !! "keyup") ++ added
    ∧ hi_element <$> added `sublist_of` getElements cardPage "div div div".
Proof.
  destruct (addEvent_appends cardPage "div div div" (ConfigString "keyup")
              cardState
              (addEvent cardPage "div div div" (ConfigString "keyup")
                        cardState).2)
    as (_ & (added & Ha & Hs & _) & _); [vm_compute; reflexivity|].
  exists added. split; [exact Ha|exact Hs].
Defined.

(** ** What a removal takes away *)

Lemma cleanHandlerMap_other eventType this element type :
  type ≠ eventType →
  eventHandlerMap (cleanHandlerMap eventType this element) !! type
  = eventHandlerMap this !! type.
Proof.
  intros Hne. unfold cleanHandlerMap.
  destruct (eventHandlerMap this !! eventType) as [hs|]; [|done].
  destruct (filter _ hs); simpl.
  - by rewrite lookup_delete_ne.
  - by rewrite lookup_insert_ne.
Qed.

Lemma filter_all {X : Type} (P : X → Prop) `{!∀ x, Decision (P x)}
    (l : list X) :
  (∀ x, x ∈ l → P x) → filter P l = l.
Proof.
  induction l as [|x rest IH]; intros Hall; [done|].
  rewrite filter_cons_True by (apply Hall; apply elem_of_cons; by left).
  rewrite IH; [done|]. intros y Hy. apply Hall. apply elem_of_cons. by right.
Qed.

Lemma filter_none {X : Type} (P : X → Prop) `{!∀ x, Decision (P x)}
    (l : list X) :
  (∀ x, x ∈ l → ¬ P x) → filter P l = [].
Proof.
  induction l as [|x rest IH]; intros Hall; [done|].
  rewrite filter_cons_False by (apply Hall; apply elem_of_cons; by left).
  apply IH. intros y Hy. apply Hall. apply elem_of_cons. by right.
Qed.

Lemma cleanHandlerMap_fold eventType elements :
  ∀ this,
    default [] (eventHandlerMap (foldl (cleanHandlerMap eventType) this
                                       elements) !! eventType)
    = filter (λ h, hi_element h ∉ elements)
             (default [] (eventHandlerMap this !! eventType))
    ∧ ∀ type, type ≠ eventType →
              eventHandlerMap (foldl (cleanHandlerMap eventType) this
                                     elements) !! type
              = eventHandlerMap this !! type.
Proof.
  induction elements as [|el rest IH]; intros this; simpl.
  - split; [|done]. symmetry. apply filter_all.
    intros h _. apply not_elem_of_nil.
  - destruct (IH (cleanHandlerMap eventType this el)) as [Hc Ho]. split.
    + rewrite Hc, cleanHandlerMap_candidates, list_filter_filter.
      apply list_filter_iff. intros h. rewrite not_elem_of_cons. tauto.
    + intros type Hne. rewrite Ho by done. by apply cleanHandlerMap_other.
Qed.

Lemma removeFirst_sublist {X : Type} (p : X → bool) (l : list X) :
  removeFirst p l `sublist_of` l.
Proof.
  induction l as [|x rest IH]; simpl; [done|].
  destruct (p x); [by apply sublist_cons|by apply sublist_skip].
Qed.

Lemma clearTimerData_listeners timerData b :
  listeners (clearTimerData timerData b) = listeners b.
Proof.
  unfold clearTimerData.
  destruct (trailingTimeout timerData) as [t|];
    destruct (timeout timerData =? 0); try destruct (t =? 0); done.
Qed.

Lemma cleanupEventTimers_listeners key eventType s :
  listeners (cleanupEventTimers key eventType s).2 = listeners s.2.
Proof.
  destruct s as [this b]. unfold cleanupEventTimers.
  destruct (throttleTimers this !! _) as [ref|]; simpl.
  - destruct (debounceTimers _ !! _); simpl;
      destruct (objects (host b) !! ref); simpl;
      by rewrite ?clearTimerData_listeners.
  - by destruct (debounceTimers _ !! _).
Qed.

Lemma unregisterElement_listeners selector eventType s element index :
  listeners (unregisterElement selector eventType s element index).2
  `sublist_of` listeners s.2.
Proof.
  destruct s as [this b]. unfold unregisterElement.
  rewrite cleanupEventTimers_listeners. simpl.
  destruct (eventListeners this !! _) as [entry|]; [|done].
  destruct (find _ _); [|done]. apply removeFirst_sublist.
Qed.

Lemma unregisterSingleEvent_candidates querySelectorAll selector eventType s :
  let s' := unregisterSingleEvent querySelectorAll selector eventType s in
  default [] (eventHandlerMap s'.1 !! eventType)
  = filter (λ h, hi_element h ∉ getElements querySelectorAll selector)
           (default [] (eventHandlerMap s.1 !! eventType))
  ∧ (∀ type, type ≠ eventType →
             eventHandlerMap s'.1 !! type = eventHandlerMap s.1 !! type)
  ∧ listeners s'.2 `sublist_of` listeners s.2.
Proof.
  simpl. unfold unregisterSingleEvent.
  pose proof (forEachIndexed_invariant
                (λ s', eventHandlerMap s'.1 = eventHandlerMap s.1
                       ∧ listeners s'.2 `sublist_of` listeners s.2)
                (unregisterElement selector eventType)
                (getElements querySelectorAll selector)) as Hloop.
  destruct (forEachIndexed _ _ 0 s) as [this1 b1] eqn:E. simpl.
  assert (eventHandlerMap this1 = eventHandlerMap s.1
          ∧ listeners b1 `sublist_of` listeners s.2) as [Hmap Hsub].
  { change this1 with (this1, b1).1. change b1 with (this1, b1).2 at 2.
    rewrite <- E. apply Hloop; [|done].
    intros s1 element index [H1 H2]. split.
    - by rewrite unregisterElement_candidates.
    - etrans; [apply unregisterElement_listeners|exact H2]. }
  destruct (cleanHandlerMap_fold eventType
              (getElements querySelectorAll selector) this1) as [Hc Ho].
  rewrite Hc, Hmap. split; [done|]. split; [|done].
  intros type Hne. by rewrite Ho, Hmap.
Qed.

(** X13. A successful [removeEvent] leaves, of the candidates of the event
    type, exactly those that sit on no element of the target selector, in
    their order: also a candidate that was registered under another
    selector goes when it sits on such an element.  The candidates of other
    event types are untouched and no listener is attached. *)
Theorem removeEvent_filters
    (querySelectorAll : string → list Node) (target eventType : string)
    (s s' : YEH * Browser) :
  removeEvent querySelectorAll target eventType s = (true, s') →
  default [] (eventHandlerMap s'.1 !! eventType)
  = filter (λ h, hi_element h ∉ getElements querySelectorAll target)
           (default [] (eventHandlerMap s.1 !! eventType))
  ∧ (∀ type, type ≠ eventType →
             eventHandlerMap s'.1 !! type = eventHandlerMap s.1 !! type)
  ∧ listeners s'.2 `sublist_of` listeners s.2.
Proof.
  destruct s as [this b]. unfold removeEvent.
  destruct (objGet _ _) as [configs|]; [|done].
  destruct (_ =? _); [done|]. intros [= <-].
  pose proof (unregisterSingleEvent_candidates querySelectorAll target
                eventType
                (match filter (λ c, configType c ≠ eventType) configs with
                 | [] => setEventMapping
                           (objDelete
                              (eventMapping
                                 (setEventMapping
                                    (objSet (eventMapping this) target
                                       (filter (λ c, configType c ≠ eventType)
                                               configs)) this)) target)
                           (setEventMapping
                              (objSet (eventMapping this) target
                                 (filter (λ c, configType c ≠ eventType)
                                         configs)) this)
                 | _ => setEventMapping
                          (objSet (eventMapping this) target
                             (filter (λ c, configType c ≠ eventType) configs))
                          this
                 end, b)) as H.
  simpl in H.
  by destruct (filter (λ c, configType c ≠ eventType) configs).
Qed.

Lemma removeEvent_filters_witness :
  default [] (eventHandlerMap
                (removeEvent cardPage "div div div" "click" cardState).2.1
                !! "click")
  = filter (λ h, hi_element h ∉ getElements cardPage "div div div")
           (default [] (eventHandlerMap cardState.1 !! "click")).
Proof.
  destruct (removeEvent_filters cardPage "div div div" "click" cardState
              (removeEvent cardPage "div div div" "click" cardState).2)
    as (H & _); [vm_compute; reflexivity|exact H].
Defined.

(** ** Adding, then removing *)

Lemma objSet_objSet {V : Type} (o : list (string * V)) k v v' :
  objSet (objSet o k v) k v' = objSet o k v'.
Proof.
  induction o as [|[k0 v0] rest IH]; simpl.
  - by rewrite decide_True.
  - destruct (decide (k0 = k)) as [->|Hne]; simpl.
    + by rewrite decide_True.
    + by rewrite decide_False, IH.
Qed.

Lemma objDelete_objSet {V : Type} (o : list (string * V)) k v :
  objGet o k = None → objDelete (objSet o k v) k = o.
Proof.
  unfold objDelete. induction o as [|[k0 v0] rest IH]; simpl.
  - intros _. by rewrite filter_cons_False, filter_nil by (simpl; auto).
  - destruct (decide (k0 = k)) as [->|Hne]; [done|]. intros Hnone.
    rewrite filter_cons_True by done. by rewrite IH.
Qed.

Lemma default_nonempty_eq {X : Type} (a b : option (list X)) :
  a ≠ Some [] → b ≠ Some [] → default [] a = default [] b → a = b.
Proof. destruct a as [[|]|], b as [[|]|]; simpl; congruence. Qed.

Lemma hasEvent_after_addEvent querySelectorAll target eventConfig s :
  hasEvent (addEvent querySelectorAll target eventConfig s).2.1 target
           (configType eventConfig) = true.
Proof.
  destruct s as [this b]. unfold addEvent.
  rewrite configType_normalize.
  destruct (hasEvent this target (configType eventConfig)) eqn:E; [done|].
  cbn [snd]. unfold hasEvent.
  rewrite registerSingleEvent_eventMapping. simpl.
  rewrite objGet_objSet_eq, existsb_app. simpl.
  rewrite configType_normalize, bool_decide_eq_true_2 by done.
  by rewrite orb_true_r.
Qed.

(** X14. [on] keeps the first handler: once a type is registered for a target,
    a further [on] for the same type and target, also with another
    handler, changes nothing. *)
Theorem on_keeps_first_handler
    (querySelectorAll : string → list Node) (type : string)
    (handler handler' target : option string) (s : YEH * Browser) :
  on querySelectorAll type handler' target
     (on querySelectorAll type handler target s)
  = on querySelectorAll type handler target s.
Proof.
  unfold on.
  set (t := match target with
            | Some t => if isEmpty t then "document" else t
            | None => "document"
            end).
  pose proof (hasEvent_after_addEvent querySelectorAll t
                (ConfigObject (mkEventConfigObject type handler None None)) s)
    as Hhas.
  destruct (addEvent querySelectorAll t _ s).2 as [this1 b1].
  unfold addEvent. simpl in *. by rewrite Hhas.
Qed.

(** X15. Adding an event and removing it again gives back [eventMapping] and
    [eventHandlerMap] as they were, when the pair was not registered, the
    target's list was not empty-but-present, and no candidate of the event
    type sat on an element of the target before. *)
Theorem addEvent_then_removeEvent
    (querySelectorAll : string → list Node) (target : string)
    (eventConfig : EventConfig) (s : YEH * Browser) :
  hasEvent s.1 target (configType eventConfig) = false →
  objGet (eventMapping s.1) target ≠ Some [] →
  registryInvariant querySelectorAll s.1 →
  (∀ h, h ∈ default [] (eventHandlerMap s.1 !! configType eventConfig) →
        hi_element h ∉ getElements querySelectorAll target) →
  let added := addEvent querySelectorAll target eventConfig s in
  let removed :=
    removeEvent querySelectorAll target (configType eventConfig) added.2 in
  added.1 = true ∧ removed.1 = true
  ∧ eventMapping removed.2.1 = eventMapping s.1
  ∧ eventHandlerMap removed.2.1 = eventHandlerMap s.1.
Proof.
  intros Hhas Hlist Hinv Hfree. cbv zeta.
  set (eventType := configType eventConfig) in *.
  set (configs := default [] (objGet (eventMapping s.1) target)).
  assert (filter (λ c, configType c ≠ eventType) configs = configs) as Hkeep.
  { subst configs. unfold hasEvent in Hhas.
    destruct (objGet (eventMapping s.1) target) as [cs|]; [|done].
    by apply filter_type_none. }
  assert (addEvent querySelectorAll target eventConfig s
          = (true,
             registerSingleEvent querySelectorAll target
               (normalize eventConfig)
               (setEventMapping
                  (objSet (eventMapping s.1) target
                          (configs ++ [normalize eventConfig])) s.1,
                s.2))) as Hadded.
  { subst configs eventType. destruct s as [this b]. unfold addEvent.
    rewrite configType_normalize. simpl in Hhas. by rewrite Hhas. }
  pose proof (registerSingleEvent_registeredOn querySelectorAll target
                (normalize eventConfig)
                (setEventMapping
                   (objSet (eventMapping s.1) target
                           (configs ++ [normalize eventConfig])) s.1, s.2))
    as Hreg.
  pose proof (registerSingleEvent_eventMapping querySelectorAll target
                (normalize eventConfig)
                (setEventMapping
                   (objSet (eventMapping s.1) target
                           (configs ++ [normalize eventConfig])) s.1, s.2))
    as Hmap.
  pose proof (addEvent_invariant querySelectorAll target eventConfig s Hinv)
    as Hinv1.
  rewrite Hadded in Hinv1 |- *. cbn [fst snd] in Hinv1 |- *.
  destruct (registerSingleEvent _ _ _ _) as [this1 b1] eqn:E1.
  cbn [fst snd] in Hinv1, Hmap, Hreg |- *.
  unfold registeredOn in Hreg. rewrite configType_normalize in Hreg.
  fold eventType in Hreg.
  destruct Hreg as (Ho & (ad & Ha & Hs & Hf) & _).
  cbn [fst snd] in Ho, Ha.
  assert (filter (λ c, configType c ≠ eventType)
                 (configs ++ [normalize eventConfig]) = configs) as Hrem.
  { rewrite filter_app, Hkeep.
    rewrite (filter_cons_False _ (normalize eventConfig)), filter_nil.
    - apply app_nil_r.
    - rewrite configType_normalize. intros Hne. by apply Hne. }
  pose proof (removeEvent_invariant querySelectorAll target eventType
                (this1, b1) Hinv1) as Hinv2.
  assert (removeEvent querySelectorAll target eventType (this1, b1)
          = (true,
             unregisterSingleEvent querySelectorAll target eventType
               (match configs with
                | [] => setEventMapping
                          (objDelete (objSet (eventMapping this1) target [])
                                     target)
                          (setEventMapping
                             (objSet (eventMapping this1) target []) this1)
                | _ => setEventMapping
                         (objSet (eventMapping this1) target configs) this1
                end, b1))) as Hremoved.
  { unfold removeEvent. rewrite Hmap.
    cbn [eventMapping setEventMapping].
    rewrite objGet_objSet_eq, Hrem, length_app. simpl.
    rewrite (proj2 (Nat.eqb_neq _ _)) by lia.
    by destruct configs. }
  rewrite Hremoved in Hinv2 |- *. cbn [fst snd] in *.
  split; [done|]. split; [done|]. split.
  - rewrite unregisterSingleEvent_eventMapping. cbn [fst].
    rewrite Hmap. simpl. subst configs.
    destruct (objGet (eventMapping s.1) target) as [[|c cs]|] eqn:Eg;
      simpl; [done| |].
    + rewrite objSet_objSet. destruct s as [this b]. simpl in *.
      by rewrite objSet_same.
    + rewrite objSet_objSet. destruct s as [this b]. simpl in *.
      by rewrite objDelete_objSet.
  - destruct (unregisterSingleEvent_candidates querySelectorAll target
                eventType
                (match configs with
                 | [] => setEventMapping
                           (objDelete (objSet (eventMapping this1) target [])
                                      target)
                           (setEventMapping
                              (objSet (eventMapping this1) target []) this1)
                 | _ => setEventMapping
                          (objSet (eventMapping this1) target configs) this1
                 end, b1)) as (Hc & Hother & _).
    cbn [fst snd] in Hc, Hother.
    assert (eventHandlerMap
              (match configs with
               | [] => setEventMapping
                         (objDelete (objSet (eventMapping this1) target [])
                                    target)
                         (setEventMapping
                            (objSet (eventMapping this1) target []) this1)
               | _ => setEventMapping
                        (objSet (eventMapping this1) target configs) this1
               end) = eventHandlerMap this1) as Hsame by (by destruct configs).
    rewrite Hsame in Hc, Hother.
    apply map_eq. intros type.
    destruct (decide (type = eventType)) as [->|Hne].
    + apply default_nonempty_eq.
      * intros Hl. by destruct (Hinv2 _ _ Hl).
      * intros Hl. by destruct (Hinv _ _ Hl).
      * rewrite Hc, Ha, filter_app.
        rewrite (filter_all _ (default [] (eventHandlerMap s.1 !! eventType)))
          by exact Hfree.
        rewrite (filter_none _ ad); [apply app_nil_r|].
        intros h Hh Hnot. apply Hnot.
        eapply elem_of_sublist; [|exact Hs].
        apply list_elem_of_fmap. by exists h.
    + rewrite Hother by done. by apply Ho.
Qed.

Lemma addEvent_then_removeEvent_witness :
  eventMapping
    (removeEvent cardPage "div div div" "keyup"
       (addEvent cardPage "div div div" (ConfigString "keyup") cardState).2)
    .2.1
  = eventMapping cardState.1
  ∧ eventHandlerMap
      (removeEvent cardPage "div div div" "keyup"
         (addEvent cardPage "div div div" (ConfigString "keyup") cardState).2)
      .2.1
    = eventHandlerMap cardState.1.
Proof.
  destruct (addEvent_then_removeEvent cardPage "div div div"
              (ConfigString "keyup") cardState) as (_ & _ & Hm & Hc).
  - vm_compute. reflexivity.
  - intros H. vm_compute in H. discriminate H.
  - apply (registerEvents_invariant cardPage
             (blankInstance cardMapping, emptyPage)).
    intros type handlers H. simpl in H. by rewrite lookup_empty in H.
  - intros h Hh. vm_compute in Hh. by apply elem_of_nil in Hh.
  - split; [exact Hm|exact Hc].
Defined.

(** ** Teardown through the controller *)

Lemma underSignal_registeredOn b elements selector eventConfig s s' :
  underSignal b s → registeredOn elements selector eventConfig s s' →
  underSignal b s'.
Proof.
  intros [Hab (att & Hl & Hf)]
         (_ & _ & (att' & Hl' & _ & Hf') & _ & _ & Hab').
  split; [by rewrite Hab'|].
  exists (att ++ att'). rewrite Hl', Hl, app_assoc. split; [done|].
  apply Forall_app. split; [done|].
  eapply Forall_impl; [exact Hf'|]. simpl. intros l [_ H]. by rewrite H.
Qed.

Lemma registerEvents_underSignal querySelectorAll b s :
  underSignal b s → underSignal b (registerEvents querySelectorAll s).
Proof.
  intros Hs. unfold registerEvents.
  apply (foldl_invariant (underSignal b)); [|done].
  intros s1 [elementSelector events] H1.
  apply (forEachIndexed_invariant (underSignal b)); [|done].
  intros s2 element index H2.
  apply (foldl_invariant (underSignal b)); [|done].
  intros s3 eventConfig H3.
  eapply underSignal_registeredOn; [exact H3|].
  apply registerEventListener_registeredOn.
Qed.

Lemma addEvent_underSignal querySelectorAll b target eventConfig s :
  underSignal b s →
  underSignal b (addEvent querySelectorAll target eventConfig s).2.
Proof.
  destruct s as [this b0]. intros Hs. unfold addEvent.
  destruct (hasEvent _ _ _); [done|]. cbn [snd].
  eapply underSignal_registeredOn;
    [|apply registerSingleEvent_registeredOn]. exact Hs.
Qed.

Lemma clearTimers_listeners (this : YEH) (b : Browser) :
  listeners
    (map_fold (λ _ timerId b, clearBrowserTimeout timerId b)
       (map_fold (λ _ ref b, match objects (host b) !! ref with
                             | Some timerData => clearTimerData timerData b
                             | None => b
                             end)
                 b (throttleTimers this))
       (debounceTimers this))
  = listeners b.
Proof.
  apply (map_fold_weak_ind (λ b' _, listeners b' = listeners b)).
  - apply (map_fold_weak_ind (λ b' _, listeners b' = listeners b)); [done|].
    intros key ref m r _ Hr.
    destruct (objects (host r) !! ref); [|done].
    by rewrite clearTimerData_listeners.
  - intros key id m r _ Hr. done.
Qed.

(** X16. With [abortController: true] and a validated mapping whose
    configurations carry no [options], [destroy] detaches every listener the
    instance attached, those of the constructor and those of later
    [addEvent] calls, and leaves the listeners the page had before in
    place and in order. *)
Theorem destroy_detaches_through_signal
    (querySelectorAll : string → list Node) (passiveSupport : bool)
    (methodsOfClass : list string) (templateText : JSValue → string)
    (eventMapping : JSValue)
    (aliases : list (string * list (string * string))) (config : Config)
    (b b' : Browser) (this : YEH) (adds : list (string * EventConfig)) :
  cfg_enableConfigValidation config = true →
  withoutOptions eventMapping = true →
  cfg_abortController config = true →
  (∀ l, l ∈ listeners b → hasSignal (dl_options l) = false) →
  constructor querySelectorAll passiveSupport methodsOfClass
              templateText eventMapping aliases config b = Constructed this b' →
  let s := foldl (λ s add, (addEvent querySelectorAll add.1 add.2 s).2)
                 (this, b') adds in
  listeners (destroy s).2 = listeners b
  ∧ abortController (destroy s).1 = false.
Proof.
  intros _ _ Hcfg Hpage Hnew. cbv zeta.
  assert (underSignal b (this, b')) as Hstart.
  { revert Hnew. unfold constructor.
    destruct (if cfg_enableConfigValidation config then _ else _); [done|].
    destruct (registerEvents _ _) as [this1 b1] eqn:E. intros [= <- <-].
    rewrite <- E. apply registerEvents_underSignal.
    split; [exact Hcfg|]. exists []. by rewrite app_nil_r. }
  assert (underSignal b
            (foldl (λ s add, (addEvent querySelectorAll add.1 add.2 s).2)
                   (this, b') adds)) as Hs.
  { apply (foldl_invariant (underSignal b)); [|exact Hstart].
    intros s1 add H1. by apply addEvent_underSignal. }
  destruct (foldl _ _ adds) as [this2 b2].
  destruct Hs as [Hab (att & Hl & Hf)]. simpl in Hab, Hl.
  unfold destroy, abort. cbn [fst snd]. rewrite Hab.
  cbn [throttleTimers debounceTimers setEventListeners setEventHandlerMap
       setDistanceCache setThrottleTimers setAbortController
       setDebounceTimers abortController].
  split; [|done]. cbn [snd].
  rewrite (clearTimers_listeners this2). cbn [listeners].
  rewrite Hl, filter_app.
  rewrite (filter_all _ (listeners b)) by exact Hpage.
  rewrite (filter_none _ att); [apply app_nil_r|].
  intros l Hin. rewrite Forall_forall in Hf. rewrite (Hf l Hin). done.
Qed.

Lemma destroy_detaches_through_signal_witness :
  match constructor nestedPage true ["onOuter"; "onInner"] plainText
                    nestedMapping [] signalConfig busyPage with
  | Constructed this b' =>
      listeners
        (destroy
           (foldl (λ s add, (addEvent nestedPage add.1 add.2 s).2) (this, b')
                  [("#a > div", ConfigString "keyup")])).2
      = listeners busyPage
  | Thrown _ _ => False
  end.
Proof.
  destruct (constructor nestedPage true ["onOuter"; "onInner"] plainText
                        nestedMapping [] signalConfig busyPage)
    as [e b0|this b'] eqn:E.
  - vm_compute in E. discriminate E.
  - destruct (destroy_detaches_through_signal nestedPage true
                ["onOuter"; "onInner"] plainText nestedMapping []
                signalConfig busyPage b' this
                [("#a > div", ConfigString "keyup")]) as [H _].
    + reflexivity.
    + reflexivity.
    + reflexivity.
    + intros l Hl. vm_compute in Hl.
      apply list_elem_of_singleton in Hl as ->. reflexivity.
    + exact E.
    + exact H.
Defined.

(** ** Rate limiters: bursts, spaced calls and shared keys *)

Section EventLoop.
Context {F A : Type}.

Lemma runTimers_fire rounds t (s : RateState F A) tm :
  earliest (pending (rs_host s)) = Some tm → due tm ≤ t →
  runTimers (S rounds) t s
  = runTimers rounds t
      (fire (callback tm)
         (onHost (clearTimeout (timerId tm))
            (onHost (setNow (Nat.max (due tm) (now (rs_host s)))) s))).
Proof.
  intros He Hle. cbn [runTimers]. rewrite He.
  by rewrite (proj2 (Nat.leb_le _ _)) by done.
Qed.

Lemma runTimers_wait rounds t (s : RateState F A) tm :
  earliest (pending (rs_host s)) = Some tm → t < due tm →
  runTimers rounds t s = onHost (setNow (Nat.max t (now (rs_host s)))) s.
Proof.
  intros He Hlt. destruct rounds as [|rounds]; cbn [runTimers]; [done|].
  rewrite He. by rewrite (proj2 (Nat.leb_gt _ _)) by done.
Qed.

Lemma runTimers_idle rounds t (s : RateState F A) :
  pending (rs_host s) = [] →
  runTimers rounds t s = onHost (setNow (Nat.max t (now (rs_host s)))) s.
Proof.
  intros He. destruct rounds as [|rounds]; cbn [runTimers]; [done|].
  by rewrite He.
Qed.
End EventLoop.

Section Throttle.
Context {F A : Type}.
Variable fn : F.
Variable delay : nat.
Variable key : string.

Local Abbreviation throttled := (_throttleImplementation (A:=A) fn delay key).

Ltac runThrottle :=
  unfold drain;
  unfold _throttleImplementation, lookupTimerData, advanceTo, fire, onHost,
    applyFunction, clearTimeout, setNow, setTimeout, allocate, store;
  simpl.

Lemma throttle_first t a :
  cooling delay key (throttled a (advanceTo t freshRateState)) t [(t, fn, a)].
Proof.
  exists 1, 0, a. runThrottle. rewrite lookup_empty. simpl.
  rewrite Nat.max_0_r.
  split; [lia|]. split; [lia|]. split; [done|]. split; [done|].
  split; [by rewrite lookup_insert_eq|].
  split; [by rewrite lookup_insert_eq|done].
Qed.

Lemma throttle_leading s t log t' a' :
  cooling delay key s t log → t + delay ≤ t' →
  cooling delay key (throttled a' (advanceTo t' s)) t' (log ++ [(t', fn, a')]).
Proof.
  intros (id & ref & a & Hpos & Hid & Hnow & Hpend & Hkey & Hobj & Hlog) Hle.
  destruct s as [thr deb [nw nid pend objs nobj ex]]. simpl in *. subst.
  runThrottle.
  assert ((t + delay <=? t') = true) as E by (apply Nat.leb_le; lia).
  rewrite E. runThrottle.
  rewrite filter_cons, decide_False by (simpl; auto). rewrite filter_nil.
  runThrottle. rewrite lookup_delete_eq. simpl.
  rewrite (Nat.max_l (t + delay) t) by lia.
  rewrite (Nat.max_l t' (t + delay)) by lia.
  exists nid, nobj, a'. simpl.
  split; [lia|]. split; [lia|]. split; [done|]. split; [done|].
  split; [by rewrite lookup_insert_eq|].
  split; [by rewrite lookup_insert_eq|done].
Qed.

Lemma throttle_idle (s : RateState F A) t log :
  cooling delay key s t log →
  executions (rs_host (drain s)) = log
  ∧ pending (rs_host (drain s)) = []
  ∧ rs_throttleTimers (drain s) !! key = None.
Proof.
  intros (id & ref & a & Hpos & Hid & Hnow & Hpend & Hkey & Hobj & Hlog).
  destruct s as [thr deb [nw nid pend objs nobj ex]]. simpl in *. subst.
  runThrottle. rewrite Nat.max_0_r, Nat.leb_refl. runThrottle.
  rewrite filter_cons, decide_False by (simpl; auto). rewrite filter_nil.
  split; [done|]. split; [done|]. by rewrite lookup_delete_eq.
Qed.

Lemma throttle_within (s : RateState F A) t0 log t' a' :
  cooling delay key s t0 log → t0 ≤ t' → t' < t0 + delay →
  trailing fn delay key (throttled a' (advanceTo t' s)) t0 t' a' log.
Proof.
  intros (id & ref & a & Hpos & Hid & Hnow & Hpend & Hkey & Hobj & Hlog)
         Hle Hlt.
  destruct s as [thr deb [nw nid pend objs nobj ex]]. simpl in *. subst.
  runThrottle.
  assert ((t0 + delay <=? t') = false) as E by (apply Nat.leb_gt; lia).
  rewrite E. runThrottle. rewrite Hkey, Hobj. simpl.
  assert ((id =? 0) = false) as E0 by (apply Nat.eqb_neq; lia).
  rewrite E0. simpl.
  rewrite (Nat.max_l t' t0) by lia.
  exists id, ref, nid. simpl.
  split; [lia|]. split; [lia|]. split; [lia|]. split; [done|].
  split; [done|]. split; [done|].
  split; [by rewrite lookup_insert_eq|done].
Qed.

Lemma throttle_again (s : RateState F A) t0 t a log t' a' :
  trailing fn delay key s t0 t a log → t0 ≤ t → t ≤ t' → t' < t0 + delay →
  trailing fn delay key (throttled a' (advanceTo t' s)) t0 t' a' log.
Proof.
  intros (id & ref & id' & Hpos & Hid & Hid' & Hnow & Hpend & Hkey & Hobj
          & Hlog) H0 Hle Hlt.
  destruct s as [thr deb [nw nid pend objs nobj ex]]. simpl in *. subst.
  runThrottle.
  assert ((t + delay <? t0 + delay) = false) as E1
    by (apply Nat.ltb_ge; lia).
  rewrite E1. simpl.
  assert ((t0 + delay <=? t') = false) as E by (apply Nat.leb_gt; lia).
  rewrite E. runThrottle. rewrite Hkey, Hobj. simpl.
  assert ((id =? 0) = false) as E0 by (apply Nat.eqb_neq; lia).
  rewrite E0. simpl.
  rewrite filter_cons, decide_True by (simpl; lia).
  rewrite filter_cons, decide_False by (simpl; auto). rewrite filter_nil.
  simpl. rewrite (Nat.max_l t' t) by lia.
  exists id, ref, nid. simpl.
  split; [lia|]. split; [lia|]. split; [lia|]. split; [done|].
  split; [done|]. split; [done|].
  split; [by rewrite lookup_insert_eq|done].
Qed.

Lemma throttle_trailing_edge (s : RateState F A) t0 t a log :
  trailing fn delay key s t0 t a log → t0 ≤ t →
  executions (rs_host (drain s)) = log ++ [(t + delay, fn, a)]
  ∧ pending (rs_host (drain s)) = []
  ∧ rs_throttleTimers (drain s) !! key = None.
Proof.
  intros (id & ref & id' & Hpos & Hid & Hid' & Hnow & Hpend & Hkey & Hobj
          & Hlog) H0.
  destruct s as [thr deb [nw nid pend objs nobj ex]]. simpl in *. subst.
  unfold drain, advanceTo. cbn [rs_host pending length fmap list_fmap due
                                foldr].
  assert ((t + delay <? t0 + delay) = false) as E1
    by (apply Nat.ltb_ge; lia).
  rewrite Nat.max_0_r, (Nat.max_r (t0 + delay) (t + delay)) by lia.
  rewrite (runTimers_fire 1 _ _
             (mkPendingTimer id (t0 + delay) (CooldownExpired key)));
    [|simpl; by rewrite E1|simpl; lia].
  rewrite (runTimers_fire 0 _ _
             (mkPendingTimer id' (t + delay) (TrailingEdge fn key ref))).
  - cbn [runTimers]. cbn -[Nat.max]. rewrite Hobj. cbn -[Nat.max].
    rewrite (decide_False (P:=id ≠ id)) by auto.
    rewrite (decide_True (P:=id' ≠ id)) by lia. cbn -[Nat.max].
    rewrite (decide_False (P:=id' ≠ id')) by auto. cbn -[Nat.max].
    rewrite (Nat.max_l (t + delay) (Nat.max (t0 + delay) t)) by lia.
    split; [done|]. split; [done|]. by rewrite lookup_delete_eq.
  - cbn -[Nat.max].
    rewrite (decide_False (P:=id ≠ id)) by auto.
    by rewrite (decide_True (P:=id' ≠ id)) by lia.
  - cbn. lia.
Qed.

Lemma throttle_burst_rest t0 rest :
  ∀ (s : RateState F A) t a log,
    trailing fn delay key s t0 t a log → t0 ≤ t →
    inTimeOrder ((t, a) :: rest) →
    Forall (λ call, call.1 < t0 + delay) rest →
    let final :=
      drain (foldl (λ s call, throttled call.2 (advanceTo call.1 s)) s rest) in
    let lastCall := default (t, a) (last rest) in
    executions (rs_host final) = log ++ [(lastCall.1 + delay, fn, lastCall.2)]
    ∧ pending (rs_host final) = []
    ∧ rs_throttleTimers final !! key = None.
Proof.
  induction rest as [|[t' a'] rest IH]; intros s t a log Hs H0 Hord Hin.
  - simpl. by apply (throttle_trailing_edge s t0 t a log).
  - destruct Hord as [Hle Hord]. apply Forall_cons in Hin as [Hlt Hin].
    simpl in Hlt.
    change (foldl _ s ((t', a') :: rest))
      with (foldl (λ s call, throttled call.2 (advanceTo call.1 s))
                  (throttled a' (advanceTo t' s)) rest).
    pose proof (IH _ t' a' log
                  (throttle_again s t0 t a log t' a' Hs H0 Hle Hlt)
                  ltac:(lia) Hord Hin) as H.
    cbv zeta in H |- *. rewrite last_cons.
    by destruct (last rest).
Qed.
End Throttle.

Section ThrottleRegimes.
Context {F A : Type}.
Variable fn : F.
Variable delay : nat.
Variable key : string.

Local Abbreviation throttled := (_throttleImplementation (A:=A) fn delay key).

(** X17. A burst: calls in time order that all fall into the cooldown of the
    first one.  The first call runs at once; if others followed, the
    function runs once more, [delay] after the last call and with its
    arguments; then the key is idle again. *)
Theorem throttle_burst (t0 : nat) (a0 : A) (rest : list (nat * A)) :
  inTimeOrder ((t0, a0) :: rest) →
  Forall (λ call, call.1 < t0 + delay) rest →
  let final := simulate throttled ((t0, a0) :: rest) in
  executions (rs_host final)
  = (t0, fn, a0) :: match last rest with
                    | Some call => [(call.1 + delay, fn, call.2)]
                    | None => []
                    end
  ∧ pending (rs_host final) = []
  ∧ rs_throttleTimers final !! key = None.
Proof.
  intros Hord Hin. cbv zeta. unfold simulate.
  change (foldl _ freshRateState ((t0, a0) :: rest))
    with (foldl (λ s call, throttled call.2 (advanceTo call.1 s))
                (throttled a0 (advanceTo t0 freshRateState)) rest).
  pose proof (throttle_first fn delay key t0 a0) as Hfirst.
  destruct rest as [|[t1 a1] rest].
  - simpl. by apply (throttle_idle delay key _ t0).
  - destruct Hord as [Hle Hord]. apply Forall_cons in Hin as [Hlt Hin].
    simpl in Hlt.
    change (foldl _ _ ((t1, a1) :: rest))
      with (foldl (λ s call, throttled call.2 (advanceTo call.1 s))
                  (throttled a1
                     (advanceTo t1 (throttled a0 (advanceTo t0 freshRateState))))
                  rest).
    pose proof (throttle_burst_rest fn delay key t0 rest _ t1 a1 _
                  (throttle_within fn delay key _ t0 _ t1 a1 Hfirst Hle Hlt)
                  Hle Hord Hin) as H.
    cbv zeta in H. rewrite last_cons.
    by destruct (last rest).
Qed.

Lemma throttle_spaced_rest (calls : list (nat * A)) :
  ∀ (s : RateState F A) t a log,
    cooling delay key s t log → spaced delay ((t, a) :: calls) →
    let final :=
      drain (foldl (λ s call, throttled call.2 (advanceTo call.1 s)) s calls) in
    executions (rs_host final) = log ++ ((λ c, (c.1, fn, c.2)) <$> calls)
    ∧ pending (rs_host final) = []
    ∧ rs_throttleTimers final !! key = None.
Proof.
  induction calls as [|[t' a'] rest IH]; intros s t a log Hs Hsp.
  - simpl. rewrite app_nil_r. by apply (throttle_idle delay key s t).
  - destruct Hsp as [Hle Hsp].
    change (foldl _ s ((t', a') :: rest))
      with (foldl (λ s call, throttled call.2 (advanceTo call.1 s))
                  (throttled a' (advanceTo t' s)) rest).
    pose proof (IH _ t' a' _ (throttle_leading fn delay key s t log t' a' Hs Hle)
                  Hsp) as H.
    cbv zeta in H |- *. rewrite fmap_cons. simpl.
    by rewrite <- app_assoc in H.
Qed.

(** X18. Calls that are at least [delay] apart all run, each at once and with
    its own arguments, and nothing else runs. *)
Theorem throttle_spaced (calls : list (nat * A)) :
  spaced delay calls →
  let final := simulate throttled calls in
  executions (rs_host final) = (λ c, (c.1, fn, c.2)) <$> calls
  ∧ pending (rs_host final) = []
  ∧ rs_throttleTimers final !! key = None.
Proof.
  intros Hsp. cbv zeta. unfold simulate.
  destruct calls as [|[t0 a0] rest].
  - done.
  - change (foldl _ freshRateState ((t0, a0) :: rest))
      with (foldl (λ s call, throttled call.2 (advanceTo call.1 s))
                  (throttled a0 (advanceTo t0 freshRateState)) rest).
    apply (throttle_spaced_rest rest _ t0 a0 [(t0, fn, a0)]
             (throttle_first fn delay key t0 a0) Hsp).
Qed.
End ThrottleRegimes.

(** X19. Two debounced functions called one after the other, the second
    before the first one's delay is over.  Under one key (as with the
    default key of the static [debounce]) the second call cancels the
    first function for good; under different keys both runThrottle. *)
Theorem debounce_key_sharing {F A : Type} (f g : F) (d1 d2 : nat)
    (k1 k2 : string) (a1 a2 : A) (t1 t2 : nat) :
  t1 ≤ t2 → t2 < t1 + d1 →
  let final :=
    drain (_debounceImplementation g d2 k2 a2
             (advanceTo t2
                (_debounceImplementation f d1 k1 a1
                   (advanceTo t1 freshRateState)))) in
  (k1 = k2 → executions (rs_host final) = [(t2 + d2, g, a2)])
  ∧ (k1 ≠ k2 →
     executions (rs_host final)
     = if t2 + d2 <? t1 + d1
       then [(t2 + d2, g, a2); (t1 + d1, f, a1)]
       else [(t1 + d1, f, a1); (t2 + d2, g, a2)])
  ∧ pending (rs_host final) = [].
Proof.
  intros Hle Hlt. cbv zeta.
  set (tm1 := mkPendingTimer 1 (t1 + d1) (DebounceElapsed f k1 a1)).
  set (tm2 := mkPendingTimer 2 (t2 + d2) (DebounceElapsed g k2 a2)).
  assert (_debounceImplementation f d1 k1 a1 (advanceTo t1 freshRateState)
          = mkRateState ∅ (<[k1 := 1]> ∅) (mkHost t1 2 [tm1] ∅ 0 []))
    as ->.
  { unfold _debounceImplementation, advanceTo. simpl.
    by rewrite lookup_empty, Nat.max_0_r. }
  assert (advanceTo t2
            (mkRateState ∅ (<[k1 := 1]> ∅) (mkHost t1 2 [tm1] ∅ 0 []))
          = mkRateState ∅ (<[k1 := 1]> ∅) (mkHost t2 2 [tm1] ∅ 0 []))
    as ->.
  { unfold advanceTo. rewrite (runTimers_wait _ _ _ tm1); [|done|simpl; lia].
    unfold onHost, setNow. simpl. by rewrite (Nat.max_l t2 t1) by lia. }
  destruct (decide (k1 = k2)) as [->|Hne].
  - assert (_debounceImplementation g d2 k2 a2
              (mkRateState ∅ (<[k2 := 1]> ∅) (mkHost t2 2 [tm1] ∅ 0 []))
            = mkRateState ∅ (<[k2 := 2]> (<[k2 := 1]> ∅))
                          (mkHost t2 3 [tm2] ∅ 0 [])) as ->.
    { unfold _debounceImplementation. simpl. by rewrite lookup_insert_eq. }
    unfold drain, advanceTo. simpl length. simpl foldr.
    rewrite Nat.max_0_r.
    rewrite (runTimers_fire 0 _ _ tm2); [|done|simpl; lia].
    cbn -[Nat.max]. rewrite (Nat.max_l (t2 + d2) t2) by lia. done.
  - assert (_debounceImplementation g d2 k2 a2
              (mkRateState ∅ (<[k1 := 1]> ∅) (mkHost t2 2 [tm1] ∅ 0 []))
            = mkRateState ∅ (<[k2 := 2]> (<[k1 := 1]> ∅))
                          (mkHost t2 3 [tm1; tm2] ∅ 0 [])) as ->.
    { unfold _debounceImplementation. simpl.
      by rewrite lookup_insert_ne, lookup_empty by done. }
    unfold drain, advanceTo. simpl length. simpl foldr.
    rewrite Nat.max_0_r. split; [done|].
    destruct (t2 + d2 <? t1 + d1) eqn:E.
    + apply Nat.ltb_lt in E. rewrite (Nat.max_l (t1 + d1) (t2 + d2)) by lia.
      rewrite (runTimers_fire 1 _ _ tm2);
        [|simpl; by rewrite (proj2 (Nat.ltb_lt _ _)) by done|simpl; lia].
      rewrite (runTimers_fire 0 _ _ tm1); [|done|simpl; lia].
      cbn -[Nat.max].
      rewrite (Nat.max_l (t2 + d2) t2), (Nat.max_l (t1 + d1) (t2 + d2))
        by lia.
      done.
    + apply Nat.ltb_ge in E. rewrite (Nat.max_r (t1 + d1) (t2 + d2)) by lia.
      rewrite (runTimers_fire 1 _ _ tm1);
        [|simpl; by rewrite (proj2 (Nat.ltb_ge _ _)) by done|simpl; lia].
      rewrite (runTimers_fire 0 _ _ tm2); [|done|simpl; lia].
      cbn -[Nat.max].
      rewrite (Nat.max_l (t1 + d1) t2), (Nat.max_l (t2 + d2) (t1 + d1))
        by lia.
      done.
Qed.

Lemma throttle_burst_witness :
  executions
    (rs_host (simulate (_throttleImplementation tt 100 "scroll")
                       [(0, 1); (10, 2); (50, 3)]))
  = [(0, tt, 1); (150, tt, 3)].
Proof.
  destruct (throttle_burst tt 100 "scroll" 0 1 [(10, 2); (50, 3)])
    as (H & _).
  - simpl. lia.
  - repeat constructor; simpl; lia.
  - exact H.
Defined.

Lemma throttle_spaced_witness :
  executions
    (rs_host (simulate (_throttleImplementation tt 100 "scroll")
                       [(0, 1); (100, 2); (250, 3)]))
  = [(0, tt, 1); (100, tt, 2); (250, tt, 3)].
Proof.
  destruct (throttle_spaced tt 100 "scroll" [(0, 1); (100, 2); (250, 3)])
    as (H & _).
  - simpl. lia.
  - exact H.
Defined.

Lemma debounce_key_sharing_witness :
  executions
    (rs_host
       (drain (_debounceImplementation false 300 "default" 2
                 (advanceTo 50
                    (_debounceImplementation true 200 "default" 1
                       (advanceTo 0 freshRateState))))))
  = [(350, false, 2)].
Proof.
  destruct (debounce_key_sharing true false 200 300 "default" "default"
              1 2 0 50) as (H & _); [lia|lia|].
  exact (H eq_refl).
Defined.

(** ** Validation and what follows from it *)

Lemma rate_validated (v : JSValue) :
  negb (isUndefined v) && notPositiveNumber v = false →
  absentRate v ∧ truthy v = false
  ∨ ∃ n, v = JSNumeric n ∧ positiveNumber v ∧ numberTruthy n = true.
Proof.
  destruct v as [| | |n| | | |]; simpl; try done.
  - intros _. left. split; [by left|done].
  - destruct n as [|z| |]; simpl; try done.
    + intros _. left. split; [by right|done].
    + intros Hz. apply Z.leb_gt in Hz. right. exists (Finite z).
      split; [done|]. split; [done|]. simpl.
      apply negb_true_iff, Z.eqb_neq. lia.
    + intros _. right. by exists PositiveInfinity.
Qed.

(** X20. An entry that passes [validateEventConfig] is a string or an object
    with a non-empty string [type], and [createWrappedHandler] wraps it as
    configured: throttled with a positive delay when [throttle] is set,
    debounced with a positive delay when [debounce] is set, never both,
    and the instance itself otherwise. *)
Theorem validated_config_wrapper
    (selector : string) (v : JSValue) (index : nat) (key eventType : string) :
  validateEventConfig selector v index = None →
  ∃ eventConfig,
    decodeEventConfig v = Some eventConfig
    ∧ isEmpty (configType eventConfig) = false
    ∧ match createWrappedHandler eventConfig key eventType with
      | ThisInstance =>
          absentRate (getProperty v "throttle")
          ∧ absentRate (getProperty v "debounce")
      | Throttled t k =>
          getProperty v "throttle" = JSNumeric t
          ∧ positiveNumber (JSNumeric t)
          ∧ k = throttleKey key eventType
          ∧ absentRate (getProperty v "debounce")
      | Debounced d k =>
          getProperty v "debounce" = JSNumeric d
          ∧ positiveNumber (JSNumeric d)
          ∧ k = debounceKey key eventType
          ∧ absentRate (getProperty v "throttle")
      end.
Proof.
  destruct v as [| |b|n|s|items|properties|name]; try done.
  - by destruct b.
  - simpl. by destruct (numberTruthy n).
  - simpl. destruct (isBlank s) eqn:E; [done|]. intros _.
    exists (ConfigString s). split; [done|]. split.
    + by destruct s.
    + split; by left.
  - unfold validateEventConfig, decodeEventConfig.
    remember (getProperty (JSObject properties) "type") as type eqn:Htype.
    set (throttle := getProperty (JSObject properties) "throttle").
    set (debounce := getProperty (JSObject properties) "debounce").
    set (handler := getProperty (JSObject properties) "handler").
    cbn [truthy typeof negb String.eqb orb].
    change (("object" =? "object")%string) with true. cbn [negb orb].
    destruct (negb (truthy type) || negb (isString type)) eqn:Etype; [done|].
    apply orb_false_iff in Etype as [Etruthy Estring].
    destruct type as [| | | |ty| | |]; try done.
    simpl in Etruthy. apply negb_false_iff, negb_true_iff in Etruthy.
    rename Etruthy into Ety.
    destruct (negb (isUndefined throttle) && notPositiveNumber throttle)
      eqn:Et; [done|].
    destruct (negb (isUndefined debounce) && notPositiveNumber debounce)
      eqn:Ed; [done|].
    destruct (truthy throttle && truthy debounce) eqn:Eb; [done|].
    intros _. eexists. split; [reflexivity|]. split; [exact Ety|].
    apply rate_validated in Et, Ed. unfold createWrappedHandler.
    cbn [ec_throttle ec_debounce].
    destruct Et as [[Ht Htf]|(t & Ht & Htp & Htt)],
             Ed as [[Hd Hdf]|(d & Hd & Hdp & Hdt)].
    + destruct Ht as [->| ->], Hd as [->| ->]; simpl; split;
        (by left) || (by right).
    + rewrite Hd in *. destruct Ht as [->| ->]; simpl; rewrite Hdt;
        (split; [done|]; split; [done|]; split; [done|]);
        (by left) || (by right).
    + rewrite Ht in *. simpl. rewrite Htt.
      split; [done|]. split; [done|]. split; [done|]. done.
    + rewrite Ht, Hd in Eb. simpl in Eb. by rewrite Htt, Hdt in Eb.
Qed.

Lemma validated_config_wrapper_witness :
  ∃ eventConfig,
    decodeEventConfig
      (JSObject [("type", JSString "scroll");
                 ("throttle", JSNumeric (Finite 100))])
    = Some eventConfig
    ∧ createWrappedHandler eventConfig "#a_scroll_0" "scroll"
      = Throttled (Finite 100) (throttleKey "#a_scroll_0" "scroll").
Proof.
  pose proof (validated_config_wrapper "#a"
                (JSObject [("type", JSString "scroll");
                           ("throttle", JSNumeric (Finite 100))])
                0 "#a_scroll_0" "scroll" eq_refl) as (cfg & Hd & _ & Hw).
  exists cfg. split; [exact Hd|].
  destruct (createWrappedHandler cfg "#a_scroll_0" "scroll") as [|t k|d k].
  - destruct Hw as [[H|H] _]; discriminate H.
  - destruct Hw as (Ht & _ & -> & _). by inversion Ht.
  - destruct Hw as (Hdb & _). discriminate Hdb.
Defined.

Lemma validateEventConfig_place selector v index e :
  validateEventConfig selector v index = Some e →
  errorPlace e = Some (selector, Some index).
Proof.
  unfold validateEventConfig.
  destruct v;
    repeat match goal with
           | |- context [if ?c then _ else _] => destruct c
           end; by intros [= <-].
Qed.

Lemma validateEach_first selector items :
  ∀ start e,
    validateEach selector items start = Some e →
    ∃ i item,
      items !! i = Some item
      ∧ validateEventConfig selector item (start + i) = Some e
      ∧ ∀ j item', j < i → items !! j = Some item' →
                   validateEventConfig selector item' (start + j) = None.
Proof.
  induction items as [|x rest IH]; intros start e; simpl; [done|].
  destruct (validateEventConfig selector x start) as [e'|] eqn:E.
  - intros [= <-]. exists 0, x. rewrite Nat.add_0_r.
    split; [done|]. split; [done|]. lia.
  - intros H. destruct (IH _ _ H) as (i & item & Hi & He & Hbefore).
    exists (S i), item. rewrite Nat.add_succ_r. split; [done|].
    split; [done|]. intros [|j] item' Hlt; simpl.
    + intros [= <-]. by rewrite Nat.add_0_r.
    + intros Hj. rewrite Nat.add_succ_r. apply (Hbefore j); [lia|done].
Qed.

Lemma validateSelectors_first mapping :
  ∀ e,
    validateSelectors mapping = Some e →
    ∃ k selector config,
      mapping !! k = Some (selector, config)
      ∧ validateSelectorConfig selector config = Some e
      ∧ ∀ j selector' config',
          j < k → mapping !! j = Some (selector', config') →
          validateSelectorConfig selector' config' = None.
Proof.
  induction mapping as [|[sel cfg] rest IH]; intros e; simpl; [done|].
  destruct (validateSelectorConfig sel cfg) as [e'|] eqn:E.
  - intros [= <-]. exists 0, sel, cfg. split; [done|]. split; [done|]. lia.
  - intros H. destruct (IH _ H) as (k & s & c & Hk & He & Hbefore).
    exists (S k), s, c. split; [done|]. split; [done|].
    intros [|j] s' c' Hlt; simpl.
    + by intros [= <- <-].
    + intros Hj. apply (Hbefore j); [lia|done].
Qed.

Lemma validateStringArray_error v a b e :
  validateStringArray v a b = Some e → e = a ∨ e = b.
Proof.
  unfold validateStringArray. destruct v; try (intros [= <-]; by left).
  destruct (forallb _ _); [done|]. intros [= <-]. by right.
Qed.

Lemma orElse_Some a b e : orElse a b = Some e → a = Some e ∨ b = Some e.
Proof. destruct a; simpl; [by left|by right]. Qed.

Lemma validateActionableConfig_place config e :
  validateActionableConfig config = Some e → errorPlace e = None.
Proof.
  unfold validateActionableConfig. intros H.
  apply orElse_Some in H as [H|H];
    [by apply validateStringArray_error in H as [->| ->]|].
  apply orElse_Some in H as [H|H];
    [by apply validateStringArray_error in H as [->| ->]|].
  apply orElse_Some in H as [H|H];
    [by apply validateStringArray_error in H as [->| ->]|].
  apply orElse_Some in H as [H|H].
  - destruct (cfg_enableActionableTargets config); by inversion H.
  - destruct (cfg_handlerPrefix config); by inversion H.
Qed.

(** X21. The error the constructor throws names the first selector, in the
    order of the mapping's entries, whose configuration is faulty, and the
    index of the first faulty entry of that selector's list; an error about
    the actionable options or the handler prefix is thrown only when the
    whole mapping is well formed. *)
Theorem validation_reports_first_fault
    (eventMapping : JSValue) (config : Config) (e : ConfigError) :
  validateConfiguration eventMapping config = Some e →
  match errorPlace e with
  | Some (selector, place) =>
      ∃ k selectorConfig,
        entries eventMapping !! k = Some (selector, selectorConfig)
        ∧ validateSelectorConfig selector selectorConfig = Some e
        ∧ (∀ j selector' config',
             j < k → entries eventMapping !! j = Some (selector', config') →
             validateSelectorConfig selector' config' = None)
        ∧ match place with
          | Some index =>
              ∃ items item,
                selectorConfig = JSArray items
                ∧ items !! index = Some item
                ∧ validateEventConfig selector item index = Some e
                ∧ ∀ j item', j < index → items !! j = Some item' →
                             validateEventConfig selector item' j = None
          | None =>
              isEmpty selector = true
              ∨ selectorConfig = JSArray []
              ∨ ∀ items, selectorConfig ≠ JSArray items
          end
  | None =>
      e = MappingNotObject
      ∨ validateSelectors (entries eventMapping) = None
        ∧ validateActionableConfig config = Some e
  end.
Proof.
  unfold validateConfiguration.
  destruct (negb (truthy eventMapping) || _); [intros [= <-]; by left|].
  destruct (validateSelectors (entries eventMapping)) as [e'|] eqn:Es; simpl.
  - intros [= ->].
    destruct (validateSelectors_first _ _ Es)
      as (k & sel & cfg & Hk & He & Hbefore).
    revert He. unfold validateSelectorConfig.
    destruct (isEmpty sel) eqn:Esel.
    { intros [= <-]. simpl. exists k, cfg. rewrite Esel.
      split; [done|]. split; [done|]. split; [done|]. by left. }
    destruct cfg as [| | | | |items| |];
      try (intros [= <-]; simpl; eexists k, _; rewrite Esel;
           split; [done|]; split; [done|]; split; [done|];
           right; right; by intros items).
    destruct items as [|x rest].
    { intros [= <-]. simpl. exists k, (JSArray []). rewrite Esel.
      split; [done|]. split; [done|]. split; [done|]. right. by left. }
    intros He.
    destruct (validateEach_first _ _ _ _ He) as (i & item & Hi & Hv & Hb).
    simpl in Hv. rewrite (validateEventConfig_place _ _ _ _ Hv).
    exists k, (JSArray (x :: rest)). rewrite Esel.
    split; [done|]. split; [done|]. split; [done|].
    exists (x :: rest), item. split; [done|]. split; [done|].
    split; [done|]. intros j item' Hlt Hj. exact (Hb j item' Hlt Hj).
  - intros Ha. rewrite (validateActionableConfig_place _ _ Ha). by right.
Qed.

Lemma validation_reports_first_fault_witness :
  ∃ k selectorConfig,
    entries handlerMapping !! k = Some ("#app", selectorConfig)
    ∧ validateSelectorConfig "#app" selectorConfig
      = Some (HandlerNotString "#app" 0).
Proof.
  pose proof (validation_reports_first_fault handlerMapping defaultConfig
                (HandlerNotString "#app" 0) eq_refl) as H.
  simpl in H. destruct H as (k & selectorConfig & H1 & H2 & _).
  exists k, selectorConfig. split; [exact H1|exact H2].
Defined.

(** ** Timers of removed listeners *)








(** ** The candidates the constructor files *)

Lemma registerEventListener_candidates element eventConfig key selector s
    eventType :
  default [] (eventHandlerMap
                (registerEventListener element eventConfig key selector s).1
                !! eventType)
  = default [] (eventHandlerMap s.1 !! eventType)
    ++ (if decide (configType eventConfig = eventType)
        then [registrationOf s.1 element selector eventConfig] else []).
Proof.
  destruct s as [this b]. simpl.
  destruct (decide (configType eventConfig = eventType)) as [<-|Hne].
  - by rewrite lookup_insert_eq.
  - rewrite lookup_insert_ne by done. by rewrite app_nil_r.
Qed.

Lemma registrationOf_prefix a b element selector eventConfig :
  handlerPrefix a = handlerPrefix b →
  registrationOf a element selector eventConfig
  = registrationOf b element selector eventConfig.
Proof.
  intros H. unfold registrationOf.
  by rewrite (handlerMethodName_prefix a b).
Qed.

Lemma registerConfigs_candidates this0 element key selector eventType events :
  ∀ s,
    handlerPrefix s.1 = handlerPrefix this0 →
    let s' := foldl (λ s eventConfig,
                       registerEventListener element eventConfig
                         (key eventConfig) selector s) s events in
    default [] (eventHandlerMap s'.1 !! eventType)
    = default [] (eventHandlerMap s.1 !! eventType)
      ++ (filter (λ c, configType c = eventType) events ≫= λ eventConfig,
            [registrationOf this0 element selector eventConfig])
    ∧ handlerPrefix s'.1 = handlerPrefix this0.
Proof.
  induction events as [|c rest IH]; intros s Hp; simpl.
  - by rewrite app_nil_r.
  - destruct (IH (registerEventListener element c (key c) selector s))
      as [Hc Hp'].
    { rewrite <- Hp. apply settings_prefix,
                       registerEventListener_settings. }
    split; [|exact Hp']. rewrite Hc, registerEventListener_candidates.
    rewrite <- app_assoc. f_equal. rewrite filter_cons.
    destruct (decide (configType c = eventType)); simpl; [|done].
    by rewrite (registrationOf_prefix s.1 this0).
Qed.

Lemma registerElements_candidates this0 selector eventType events elements :
  ∀ index s,
    handlerPrefix s.1 = handlerPrefix this0 →
    let s' := forEachIndexed
                (λ s element index,
                   foldl (λ s eventConfig,
                            registerEventListener element eventConfig
                              (listenerKey selector (configType eventConfig)
                                           index)
                              selector s)
                         s events)
                elements index s in
    default [] (eventHandlerMap s'.1 !! eventType)
    = default [] (eventHandlerMap s.1 !! eventType)
      ++ (elements ≫= λ element,
            filter (λ c, configType c = eventType) events ≫= λ eventConfig,
              [registrationOf this0 element selector eventConfig])
    ∧ handlerPrefix s'.1 = handlerPrefix this0.
Proof.
  induction elements as [|x rest IH]; intros index s Hp; simpl.
  - by rewrite app_nil_r.
  - destruct (registerConfigs_candidates this0 x
                (λ c, listenerKey selector (configType c) index)
                selector eventType events s Hp) as [Hc1 Hp1].
    cbv zeta in Hc1, Hp1.
    destruct (IH (S index) _ Hp1) as [Hc Hp'].
    split; [|exact Hp']. rewrite Hc, Hc1. by rewrite <- app_assoc.
Qed.

Lemma registerEntries_candidates querySelectorAll this0 eventType mapping :
  ∀ s,
    handlerPrefix s.1 = handlerPrefix this0 →
    let s' := foldl
                (λ s entry,
                   let '(elementSelector, events) := entry in
                   forEachIndexed
                     (λ s element index,
                        foldl (λ s eventConfig,
                                 registerEventListener element eventConfig
                                   (listenerKey elementSelector
                                      (configType eventConfig) index)
                                   elementSelector s)
                              s events)
                     (getElements querySelectorAll elementSelector) 0 s)
                s mapping in
    default [] (eventHandlerMap s'.1 !! eventType)
    = default [] (eventHandlerMap s.1 !! eventType)
      ++ candidatesOf querySelectorAll this0 eventType mapping
    ∧ handlerPrefix s'.1 = handlerPrefix this0.
Proof.
  induction mapping as [|[selector events] rest IH]; intros s Hp; simpl.
  - by rewrite app_nil_r.
  - destruct (registerElements_candidates this0 selector eventType events
                (getElements querySelectorAll selector) 0 s Hp) as [Hc1 Hp1].
    cbv zeta in Hc1, Hp1.
    destruct (IH _ Hp1) as [Hc Hp'].
    split; [|exact Hp']. rewrite Hc, Hc1. by rewrite <- app_assoc.
Qed.

Lemma registerEvents_eventMapping querySelectorAll s :
  eventMapping (registerEvents querySelectorAll s).1 = eventMapping s.1.
Proof.
  unfold registerEvents.
  apply (foldl_invariant (λ s', eventMapping s'.1 = eventMapping s.1));
    [|done].
  intros s1 [elementSelector events] H1.
  apply (forEachIndexed_invariant
           (λ s', eventMapping s'.1 = eventMapping s.1)); [|done].
  intros s2 element index H2.
  apply (foldl_invariant (λ s', eventMapping s'.1 = eventMapping s.1));
    [|done].
  intros s3 eventConfig H3. by rewrite registerEventListener_eventMapping.
Qed.

Lemma registerEvents_candidates querySelectorAll s eventType :
  default [] (eventHandlerMap (registerEvents querySelectorAll s).1
                !! eventType)
  = default [] (eventHandlerMap s.1 !! eventType)
    ++ candidatesOf querySelectorAll s.1 eventType (eventMapping s.1)
  ∧ handlerPrefix (registerEvents querySelectorAll s).1 = handlerPrefix s.1.
Proof.
  exact (registerEntries_candidates querySelectorAll s.1 eventType
           (eventMapping s.1) s eq_refl).
Qed.

(** X23. After a validated construction the candidates of every event type
    are exactly the
    registrations the mapping asks for, in the order of the mapping's
    selectors, then of the elements each selector matches, then of the
    selector's list; so on equal distance the earlier selector wins. *)
Theorem constructor_candidates
    (querySelectorAll : string → list Node) (passiveSupport : bool)
    (methodsOfClass : list string) (templateText : JSValue → string)
    (eventMapping0 : JSValue)
    (aliases : list (string * list (string * string))) (config : Config)
    (b b' : Browser) (this : YEH) (eventType : string) :
  cfg_enableConfigValidation config = true →
  constructor querySelectorAll passiveSupport methodsOfClass
              templateText eventMapping0 aliases config b = Constructed this b' →
  default [] (eventHandlerMap this !! eventType)
  = candidatesOf querySelectorAll this eventType (eventMapping this).
Proof.
  intros _. unfold constructor.
  destruct (if cfg_enableConfigValidation config then _ else _); [done|].
  set (start := detectPassiveSupport passiveSupport _).
  pose proof (registerEvents_eventMapping querySelectorAll (start, b)) as Hm.
  pose proof (registerEvents_candidates querySelectorAll (start, b)
                eventType) as [Hc Hp].
  destruct (registerEvents querySelectorAll (start, b)) as [this1 b1].
  intros [= <- <-]. cbn [fst] in Hm, Hp, Hc. rewrite Hc, Hm.
  unfold candidatesOf.
  assert (eventHandlerMap start = ∅) as -> by reflexivity.
  rewrite lookup_empty. simpl.
  apply list_bind_ext; [|done]. intros entry.
  apply list_bind_ext; [|done]. intros element.
  apply list_bind_ext; [|done]. intros eventConfig.
  by rewrite (registrationOf_prefix start this1).
Qed.

Lemma constructor_candidates_witness :
  match nestedInstance with
  | Constructed this b' =>
      default [] (eventHandlerMap this !! "click")
      = candidatesOf nestedPage this "click" (eventMapping this)
  | Thrown _ _ => False
  end.
Proof.
  destruct nestedInstance as [e b0|this b'] eqn:E.
  - vm_compute in E. discriminate E.
  - exact (constructor_candidates nestedPage true ["onOuter"; "onInner"]
             plainText nestedMapping [] defaultConfig emptyPage b' this
             "click" eq_refl E).
Defined.

(** ** Dispatch on a fresh cache *)

(** X24. After [clearDistanceCache], an event whose candidates sit on elements
    with pairwise different cache keys is dispatched by true distance: the
    first candidate at the least finite [calculateDOMDistance] is selected,
    and none exactly when no candidate contains the target. *)
Theorem dispatch_after_clearDistanceCache
    (windowFunctions : list string) (hasAttribute : Node → string → bool)
    (closest : Node → string → option Node) (this : YEH) (event : Event) :
  let handlers := default [] (eventHandlerMap this !! ev_type event) in
  let distance h := calculateDOMDistance (ev_target event) (hi_element h) in
  let outcome :=
    (handleEvent windowFunctions hasAttribute closest
                 (clearDistanceCache this) event).2 in
  (∀ h1 h2, h1 ∈ handlers → h2 ∈ handlers →
            cacheKey (ev_target event) (hi_element h1)
            = cacheKey (ev_target event) (hi_element h2) →
            hi_element h1 = hi_element h2) →
  (selected outcome = None ∧ invoked outcome = false
   ∧ ∀ h, h ∈ handlers → distance h = Infinity)
  ∨ ∃ i h m,
      selected outcome = Some h
      ∧ handlers !! i = Some h ∧ distance h = Fin m
      ∧ ∀ k h', handlers !! k = Some h' →
                distance h' = Infinity
                ∨ ∃ m', distance h' = Fin m' ∧ m ≤ m' ∧ (k < i → m < m').
Proof.
  intros handlers distance outcome Hkeys.
  apply (handleEvent_closest windowFunctions hasAttribute closest
           (clearDistanceCache this) event).
  right. split.
  - intros h d _ Hd. simpl in Hd. by rewrite lookup_empty in Hd.
  - intros h1 h2 H1 H2 Hk. by rewrite (Hkeys h1 h2 H1 H2 Hk).
Qed.

Lemma dispatch_after_clearDistanceCache_witness :
  selected (handleEvent [] noAttributes nestedClosest
              (clearDistanceCache cardInstance) click).2
  = Some cardFirst.
Proof.
  destruct (dispatch_after_clearDistanceCache [] noAttributes nestedClosest
              cardInstance click) as [(Hnone & _)|(i & h & m & Hsel & _)].
  - intros h1 h2 H1 H2 _. vm_compute in H1, H2.
    apply elem_of_cons in H1 as [->|H1];
      [|apply list_elem_of_singleton in H1 as ->];
      (apply elem_of_cons in H2 as [->|H2];
       [|apply list_elem_of_singleton in H2 as ->]); reflexivity.
  - vm_compute in Hnone. discriminate Hnone.
  - vm_compute. reflexivity.
Defined.

(** ** Listener keys that are taken *)

Lemma registerSingleEvent_taken selector eventConfig elements :
  ∀ index s,
    (∀ i, index ≤ i < index + length elements →
          eventListeners s.1
            !! listenerKey selector (configType eventConfig) i ≠ None) →
    forEachIndexed
      (λ s element index,
         match eventListeners s.1
                 !! listenerKey selector (configType eventConfig) index with
         | Some _ => s
         | None => registerEventListener element eventConfig
                     (listenerKey selector (configType eventConfig) index)
                     selector s
         end)
      elements index s
    = s.
Proof.
  induction elements as [|x rest IH]; intros index s Htaken; simpl; [done|].
  pose proof (Htaken index) as Hhere. simpl in Hhere.
  destruct (eventListeners s.1 !! _); [|by destruct Hhere; [lia|]].
  apply IH. intros i Hi. apply Htaken. simpl. lia.
Qed.

(** X25. When the listener keys [selector_type_index] of all elements of the
    target are already in use (a selector matching nothing is the least
    case; another pair of selector and type that spells the same key is
    another), [addEvent] still returns [true] and records the pair in
    [eventMapping], but registers nothing: no candidate, no DOM listener
    and no tracking entry is added. *)
Theorem addEvent_with_taken_keys
    (querySelectorAll : string → list Node) (target : string)
    (eventConfig : EventConfig) (s : YEH * Browser) :
  hasEvent s.1 target (configType eventConfig) = false →
  (∀ i, i < length (getElements querySelectorAll target) →
        eventListeners s.1
          !! listenerKey target (configType eventConfig) i ≠ None) →
  addEvent querySelectorAll target eventConfig s
  = (true,
     (setEventMapping
        (objSet (eventMapping s.1) target
                (default [] (objGet (eventMapping s.1) target)
                 ++ [normalize eventConfig])) s.1,
      s.2)).
Proof.
  destruct s as [this b]. simpl. intros Hhas Htaken. unfold addEvent.
  rewrite configType_normalize, Hhas. f_equal.
  unfold registerSingleEvent. rewrite configType_normalize.
  pose proof (registerSingleEvent_taken target (normalize eventConfig)
                (getElements querySelectorAll target) 0
                (setEventMapping
                   (objSet (eventMapping this) target
                      (default [] (objGet (eventMapping this) target)
                       ++ [normalize eventConfig])) this, b)) as H.
  rewrite configType_normalize in H. apply H.
  intros i Hi. simpl. apply Htaken. lia.
Qed.

Lemma addEvent_with_taken_keys_witness :
  (addEvent underscorePage ".btn" (ConfigString "primary_click")
            underscoreState).1 = true
  ∧ eventHandlerMap
      (addEvent underscorePage ".btn" (ConfigString "primary_click")
                underscoreState).2.1
    = eventHandlerMap underscoreState.1
  ∧ listeners
      (addEvent underscorePage ".btn" (ConfigString "primary_click")
                underscoreState).2.2
    = listeners underscoreState.2.
Proof.
  rewrite (addEvent_with_taken_keys underscorePage ".btn"
             (ConfigString "primary_click") underscoreState).
  - done.
  - vm_compute. reflexivity.
  - intros i Hi. vm_compute in Hi.
    assert (i = 0) as -> by lia. vm_compute. discriminate.
Defined.

(** ** Statistics *)




(** ** Dispatching the same event again *)

Lemma checkUserInteraction_again this event cache :
  checkUserInteraction
    (setDistanceCache cache (checkUserInteraction this event)) event
  = setDistanceCache cache (checkUserInteraction this event).
Proof.
  unfold checkUserInteraction.
  destruct (userHasInteracted this) eqn:Eu; simpl.
  - by rewrite Eu.
  - destruct (includes (passiveEvents this) (ev_type event)) eqn:Ep; simpl.
    + by rewrite Eu, Ep.
    + done.
Qed.

Lemma setDistanceCache_same this :
  setDistanceCache (distanceCache this) this = this.
Proof. by destruct this. Qed.

(** X27. A second [handleEvent] for the same event, as when the event bubbles
    through several elements the instance listens on, finds the state as
    the first left it, leaves it so, and comes to the same outcome. *)
Theorem handleEvent_twice
    (windowFunctions : list string) (hasAttribute : Node → string → bool)
    (closest : Node → string → option Node) (this : YEH) (event : Event) :
  let first := handleEvent windowFunctions hasAttribute closest this event in
  handleEvent windowFunctions hasAttribute closest first.1 event = first.
Proof.
  cbv zeta.
  destruct (handleEvent windowFunctions hasAttribute closest this event)
    as [this1 outcome] eqn:E.
  cbn [fst]. revert E. unfold handleEvent.
  destruct (eventHandlerMap this !! ev_type event) as [[|h hs]|] eqn:Emap.
  - intros [= <- <-]. by rewrite Emap.
  - cbv zeta.
    destruct (checkUserInteraction_fields this event) as (Hm & Hc & He & _).
    rewrite Hc, He.
    pose proof (findClosestHandler_keepCloser (enableDistanceCache this)
                  (distanceCache this) (ev_target event) (h :: hs)) as Hf.
    destruct (distancesSeen_again (enableDistanceCache this)
                (ev_target event) (h :: hs) (distanceCache this))
      as [Hseen Hcache].
    pose proof (findClosestHandler_keepCloser (enableDistanceCache this)
                  (cacheAfter (enableDistanceCache this) (distanceCache this)
                              (ev_target event) (h :: hs))
                  (ev_target event) (h :: hs)) as Hf2.
    rewrite Hseen, Hcache, <- Hf in Hf2.
    destruct (findClosestHandler (enableDistanceCache this)
                (distanceCache this) (ev_target event) (h :: hs))
      as [[ch cd] cache] eqn:Ef.
    injection Hf as _ Hcache'. subst cache.
    change (cacheAfter (enableDistanceCache this)
              (calculateDistanceWithCache (enableDistanceCache this)
                 (distanceCache this) (ev_target event) (hi_element h)).2
              (ev_target event) hs)
      with (cacheAfter (enableDistanceCache this) (distanceCache this)
                       (ev_target event) (h :: hs)) in *.
    set (T := setDistanceCache
                (cacheAfter (enableDistanceCache this) (distanceCache this)
                            (ev_target event) (h :: hs))
                (checkUserInteraction this event)).
    intros E.
    assert (this1 = T) as ->.
    { revert E.
      repeat match goal with
             | |- context [match ?x with _ => _ end] => destruct x
             end; by intros [= <- _]. }
    assert (eventHandlerMap T = eventHandlerMap this) as HmT
      by (subst T; simpl; exact Hm).
    rewrite HmT, Emap.
    assert (checkUserInteraction T event = T) as ->
      by apply checkUserInteraction_again.
    assert (enableDistanceCache T = enableDistanceCache this) as ->
      by (subst T; simpl; exact He).
    assert (distanceCache T
            = cacheAfter (enableDistanceCache this) (distanceCache this)
                         (ev_target event) (h :: hs)) as -> by done.
    rewrite Hf2. cbv beta iota zeta.
    assert (setDistanceCache
              (cacheAfter (enableDistanceCache this) (distanceCache this)
                          (ev_target event) (h :: hs)) T = T) as ->
      by apply (setDistanceCache_same T).
    exact E.
  - intros [= <- <-]. by rewrite Emap.
Qed.

(** ** The listeners the constructor attaches *)

Lemma foldl_elem_invariant {St X : Type} (P : St → Prop) (f : St → X → St)
    (l : list X) :
  (∀ s x, x ∈ l → P s → P (f s x)) → ∀ s, P s → P (foldl f s l).
Proof.
  induction l as [|x rest IH]; intros Hf s Hs; simpl; [done|].
  apply IH.
  - intros s' y Hy. apply Hf. by apply elem_of_cons; right.
  - apply Hf; [by apply elem_of_cons; left|done].
Qed.

Lemma getEventOptions_passive this eventConfig :
  configType eventConfig ≠ "" →
  isPassive (getEventOptions this eventConfig)
  = passiveSupported this
    && includes (passiveEvents this) (configType eventConfig).
Proof.
  intros Hne. unfold getEventOptions.
  assert (match eventConfig with
          | ConfigString type => includes (passiveEvents this) type
          | ConfigObject o =>
              negb (isEmpty (ec_type o))
              && includes (passiveEvents this) (ec_type o)
          end = includes (passiveEvents this) (configType eventConfig))
    as ->.
  { destruct eventConfig as [type|o]; simpl; [done|].
    simpl in Hne. by destruct (ec_type o). }
  by destruct (passiveSupported this && _), (abortController this).
Qed.

Lemma registerEventListener_attached querySelectorAll mapping b
    passiveSupport passive signal selector events eventConfig element index
    s :
  (selector, events) ∈ mapping → eventConfig ∈ events →
  element ∈ getElements querySelectorAll selector →
  let P s := passiveSupported s.1 = passiveSupport
             ∧ passiveEvents s.1 = passive
             ∧ abortController s.1 = signal
             ∧ ∃ attached,
                 listeners s.2 = listeners b ++ attached
                 ∧ Forall (attachedFor querySelectorAll mapping
                             passiveSupport passive signal) attached in
  P s →
  P (registerEventListener element eventConfig
       (listenerKey selector (configType eventConfig) index) selector s).
Proof.
  intros Hentry Hcfg Hel P (Hps & Hpe & Hab & attached & Hl & Hf).
  destruct s as [this b0]. simpl in *.
  split; [done|]. split; [done|]. split; [done|].
  unfold addEventListener.
  destruct (bool_decide _ && existsb _ _).
  - by exists attached.
  - eexists (attached ++ [_]). simpl. rewrite Hl, app_assoc.
    split; [done|]. apply Forall_app. split; [done|].
    apply Forall_singleton.
    exists selector, events, eventConfig, index. simpl.
    split; [done|]. split; [done|]. split; [done|]. split; [done|].
    split; [done|]. split.
    + by rewrite getEventOptions_signal.
    + intros Hne. rewrite getEventOptions_passive by done.
      by rewrite Hps, Hpe.
Qed.

(** X28. For a validated mapping whose configurations carry no [options]:
    every listener the constructor attaches comes after the listeners the
    page had, is for an element matched by a selector of the mapping and
    for an event type listed under that selector, is the instance itself
    or the throttled or debounced wrapper its configuration asks for,
    carries the controller's signal exactly when [abortController] is set,
    and is passive exactly when passive listeners are supported and its
    event type is one of [passiveEvents]. *)
Theorem constructor_listeners
    (querySelectorAll : string → list Node) (passiveSupport : bool)
    (methodsOfClass : list string) (templateText : JSValue → string)
    (eventMapping0 : JSValue)
    (aliases : list (string * list (string * string))) (config : Config)
    (b b' : Browser) (this : YEH) :
  cfg_enableConfigValidation config = true →
  withoutOptions eventMapping0 = true →
  constructor querySelectorAll passiveSupport methodsOfClass
              templateText eventMapping0 aliases config b = Constructed this b' →
  ∃ attached,
    listeners b' = listeners b ++ attached
    ∧ Forall (attachedFor querySelectorAll (eventMapping this) passiveSupport
                (passiveEvents this) (cfg_abortController config))
             attached.
Proof.
  intros _ _. unfold constructor.
  destruct (if cfg_enableConfigValidation config then _ else _); [done|].
  set (start := detectPassiveSupport passiveSupport _).
  pose proof (registerEvents_eventMapping querySelectorAll (start, b)) as Hm.
  set (P := λ s : YEH * Browser,
         passiveSupported s.1 = passiveSupport
         ∧ passiveEvents s.1 = passiveEvents start
         ∧ abortController s.1 = cfg_abortController config
         ∧ ∃ attached,
             listeners s.2 = listeners b ++ attached
             ∧ Forall (attachedFor querySelectorAll (eventMapping start)
                         passiveSupport (passiveEvents start)
                         (cfg_abortController config)) attached).
  assert (P (registerEvents querySelectorAll (start, b))) as HP.
  { unfold registerEvents.
    apply (foldl_elem_invariant P).
    - intros s1 [selector events] Hentry H1.
      apply (forEachIndexed_elem_invariant P); [|done].
      intros s2 element index Hel H2.
      apply (foldl_elem_invariant P); [|done].
      intros s3 eventConfig Hcfg H3.
      by apply (registerEventListener_attached querySelectorAll
                  (eventMapping start) b passiveSupport (passiveEvents start)
                  (cfg_abortController config) selector events).
    - split; [done|]. split; [done|]. split; [done|].
      exists []. by rewrite app_nil_r. }
  destruct (registerEvents querySelectorAll (start, b)) as [this1 b1].
  intros [= <- <-]. unfold P in HP. cbn [fst snd] in Hm, HP.
  destruct HP as (_ & Hpe & _ & attached & Hl & Hf).
  exists attached. split; [done|]. by rewrite Hm, Hpe.
Qed.

Lemma constructor_listeners_witness :
  match constructor nestedPage true ["onOuter"; "onInner"] plainText
                    nestedMapping [] signalConfig busyPage with
  | Constructed this b' =>
      ∃ attached,
        listeners b' = listeners busyPage ++ attached
        ∧ Forall (attachedFor nestedPage (eventMapping this) true
                    (passiveEvents this) true) attached
  | Thrown _ _ => False
  end.
Proof.
  destruct (constructor nestedPage true ["onOuter"; "onInner"] plainText
                        nestedMapping [] signalConfig busyPage)
    as [e b0|this b'] eqn:E.
  - vm_compute in E. discriminate E.
  - exact (constructor_listeners nestedPage true ["onOuter"; "onInner"]
             plainText nestedMapping [] signalConfig busyPage b' this
             eq_refl eq_refl E).
Defined.

(** ** Adding and removing, element by element *)






















